(** * aiTris: the placement search, the board evaluator and the weight mutation

    A shallow embedding of [src/game.js] ([collidesWithGrid], and further
    down the game proper: [createInitialState], [calculateGhostPosition],
    [lockBlock], [placePiece], [finishLineClear], [spawnBlock],
    [applyGravity], the moves, the rotations and [hardDrop]) and of
    [src/ai.js] ([getColumnHeights], [getHoles], [getBumpiness],
    [simulateLineClearing], [evaluateBoard],
    [evaluateAllPossiblePlacements], [simulateRotation], [findBestMove],
    [mutateWeights], [handleAiAction]).

    Conventions.
    - A JavaScript number that counts something (a row, a column, a height,
      a number of holes) is a [Z]; a grid cell is a [nat] (0 is empty, a
      piece kind plus one is occupied).
    - A score is a [jsnum]: a rational, [NaN], or one of the two infinities.
      Arithmetic on finite values is exact; rounding of IEEE doubles is not
      modelled there, and what is proved of scores is their structure, the
      propagation of [NaN] and their comparison.  Weight coefficients of the
      evaluator are rationals.  The mutation of the weights is about signs
      under rounding and is modelled on binary64 values ([double]).
    - A property read of [undefined] raises [TypeError]; it is modelled by
      the [result] type, which also carries [OutOfFuel] for the loops of the
      source that have no structural bound.
    - [data.js] is not part of the sources at hand: the shape table
      [blockCoords], the four kick tables and the constant [BLOCK_I] are
      variables of the section. *)

From Stdlib Require Import String ZArith QArith List Bool Arith Lia Lqa.
From Stdlib Require Import SpecFloat.
Import ListNotations.

Open Scope Z_scope.

(** ** Results of fallible code *)

Inductive result (A : Type) : Type :=
| Ok (a : A)
| TypeError
| OutOfFuel.

Arguments Ok {A} a.
Arguments TypeError {A}.
Arguments OutOfFuel {A}.

Definition bind {A B : Type} (m : result A) (k : A -> result B) : result B :=
  match m with
  | Ok a => k a
  | TypeError => TypeError
  | OutOfFuel => OutOfFuel
  end.

Notation "x <- m ;; k" := (bind m (fun x => k))
  (at level 61, m at next level, right associativity).
Notation "' p <- m ;; k" := (bind m (fun p => k))
  (at level 61, p pattern, m at next level, right associativity).

(** ** JavaScript numbers, as far as the evaluator needs them *)

Inductive jsnum : Type :=
| Num (q : Q)
| PInf
| NInf
| NaN.

Definition Qltb (a b : Q) : bool := negb (Qle_bool b a).

Definition jsadd (a b : jsnum) : jsnum :=
  match a, b with
  | NaN, _ | _, NaN => NaN
  | Num p, Num q => Num (p + q)
  | PInf, NInf | NInf, PInf => NaN
  | PInf, _ | _, PInf => PInf
  | NInf, _ | _, NInf => NInf
  end.

Definition jsmul_inf (positive : bool) (q : Q) : jsnum :=
  if Qeq_bool q 0 then NaN
  else if Bool.eqb positive (Qltb 0 q) then PInf else NInf.

Definition jsmul (a b : jsnum) : jsnum :=
  match a, b with
  | NaN, _ | _, NaN => NaN
  | Num p, Num q => Num (p * q)
  | PInf, Num q | Num q, PInf => jsmul_inf true q
  | NInf, Num q | Num q, NInf => jsmul_inf false q
  | PInf, PInf | NInf, NInf => PInf
  | PInf, NInf | NInf, PInf => NInf
  end.

(** [a < b] of JavaScript: false as soon as an operand is [NaN]. *)
Definition jslt (a b : jsnum) : bool :=
  match a, b with
  | NaN, _ | _, NaN => false
  | Num p, Num q => Qltb p q
  | NInf, NInf | PInf, _ => false
  | NInf, _ => true
  | Num _, PInf => true
  | Num _, NInf => false
  end.

Definition ofZ (z : Z) : jsnum := Num (inject_Z z).

(** ** Weight vectors

    A weight vector is a JavaScript object: keys in insertion order, one
    coefficient per key. *)

Definition Weights := list (string * Q).

(** [weights.key]: [None] stands for [undefined]. *)
Fixpoint getWeight (w : Weights) (key : string) : option Q :=
  match w with
  | [] => None
  | (k, v) :: rest => if String.eqb k key then Some v else getWeight rest key
  end.

(** [weights.key] where a number is expected: [undefined] converts to NaN. *)
Definition weightNum (w : Weights) (key : string) : jsnum :=
  match getWeight w key with
  | Some v => Num v
  | None => NaN
  end.

(** [weights.key || d]: [undefined] and 0 are falsy. *)
Definition weightOr (w : Weights) (key : string) (d : Q) : Q :=
  match getWeight w key with
  | Some v => if Qeq_bool v 0 then d else v
  | None => d
  end.

(** [weights.key = v] on a copy: an existing key keeps its place. *)
Fixpoint setWeight (w : Weights) (key : string) (v : Q) : Weights :=
  match w with
  | [] => [(key, v)]
  | (k, u) :: rest =>
      if String.eqb k key then (k, v) :: rest
      else (k, u) :: setWeight rest key v
  end.

(** [delete weights.key] on a copy. *)
Fixpoint removeWeight (w : Weights) (key : string) : Weights :=
  match w with
  | [] => []
  | (k, u) :: rest =>
      if String.eqb k key then removeWeight rest key
      else (k, u) :: removeWeight rest key
  end.

Definition BASE_SURVIVAL_WEIGHTS : Weights :=
  [ ("aggregateHeight", 51 # 100); ("completedLines", - (76 # 100));
    ("holes", 1); ("bumpiness", 18 # 100); ("lookaheadScore", 8 # 10);
    ("centerClog", 8 # 10); ("holeReduction", - (25 # 10)) ]%string%Q.

Definition BASE_WELL_WEIGHTS : Weights :=
  [ ("aggregateHeight", 4 # 10); ("holes", 4); ("bumpiness", 25 # 100);
    ("wellClogs", 8); ("lineClearBonus", - 5); ("droughtPenalty", 8 # 100);
    ("lookaheadScore", 8 # 10) ]%string%Q.

(** ** Grid and pieces *)

Definition COLS : Z := 10.
Definition GRID_HEIGHT : Z := 24.
Definition BLANK_ROW : list nat := [0; 0; 0; 0; 0; 0; 0; 0; 0; 0]%nat.
Definition DANGER_HEIGHT_THRESHOLD : Z := 18.
Definition DROUGHT_THRESHOLD : Z := 12.

Definition Grid := list (list nat).

Definition createEmptyGrid : Grid := repeat BLANK_ROW (Z.to_nat GRID_HEIGHT).

Record Piece : Type := mkPiece {
  ptype : nat;
  rotation : nat;
  px : Z;
  py : Z
}.

Definition Shape := list (Z * Z).

(** [grid[row]] followed by a property read: a missing row is [undefined],
    and reading [undefined[col]] raises. *)
Definition gridRow (grid : Grid) (row : Z) : result (list nat) :=
  if row <? 0 then TypeError
  else match nth_error grid (Z.to_nat row) with
       | Some r => Ok r
       | None => TypeError
       end.

(** Truthiness of [r[col]]: a missing cell is [undefined], which is falsy. *)
Definition rowCell (r : list nat) (col : Z) : bool :=
  if col <? 0 then false
  else negb (Nat.eqb (nth (Z.to_nat col) r 0%nat) 0).

(** Truthiness of [grid[row][col]]. *)
Definition gridCell (grid : Grid) (row col : Z) : result bool :=
  r <- gridRow grid row ;; Ok (rowCell r col).

(** A grid as [createEmptyGrid] makes it and every operation keeps it:
    24 rows of 10 cells. *)
Definition wf_grid (grid : Grid) : Prop :=
  length grid = Z.to_nat GRID_HEIGHT /\
  Forall (fun r => length r = Z.to_nat COLS) grid.

Definition mapM {A B : Type} (f : A -> result B) : list A -> result (list B) :=
  fix go (l : list A) : result (list B) :=
    match l with
    | [] => Ok []
    | a :: rest => b <- f a ;; bs <- go rest ;; Ok (b :: bs)
    end.

(** The column indices [0 .. COLS-1] of the loops [for (c = 0; c < COLS; c++)]. *)
Definition columns : list Z := [0; 1; 2; 3; 4; 5; 6; 7; 8; 9].

(** ** Metrics of the evaluator *)

(** Inner loop of [getColumnHeights] for column [c]: rows [r], [r+1], ...,
    [n] of them; the first occupied cell gives the height and breaks. *)
Fixpoint columnHeightFrom (grid : Grid) (c r : Z) (n : nat) : result Z :=
  match n with
  | O => Ok 0
  | S n' =>
      b <- gridCell grid r c ;;
      if b then Ok (GRID_HEIGHT - r) else columnHeightFrom grid c (r + 1) n'
  end.

Definition getColumnHeights (grid : Grid) : result (list Z) :=
  mapM (fun c => columnHeightFrom grid c 0 (Z.to_nat GRID_HEIGHT)) columns.

Definition getAggregateHeight (heights : list Z) : Z :=
  fold_left (fun sum h => sum + h) heights 0.

(** Inner loop of [getHoles] for column [c], threading [blockFound] and the
    running count. *)
Fixpoint holesFrom (grid : Grid) (c r : Z) (n : nat) (blockFound : bool)
    (holes : Z) : result Z :=
  match n with
  | O => Ok holes
  | S n' =>
      b <- gridCell grid r c ;;
      if b then holesFrom grid c (r + 1) n' true holes
      else if blockFound then holesFrom grid c (r + 1) n' blockFound (holes + 1)
      else holesFrom grid c (r + 1) n' blockFound holes
  end.

Fixpoint holesColumns (grid : Grid) (cs : list Z) (holes : Z) : result Z :=
  match cs with
  | [] => Ok holes
  | c :: rest =>
      h <- holesFrom grid c 0 (Z.to_nat GRID_HEIGHT) false holes ;;
      holesColumns grid rest h
  end.

Definition getHoles (grid : Grid) : result Z := holesColumns grid columns 0.

(** [heights[i]] for an index inside the array. *)
Definition hget (heights : list Z) (i : Z) : Z := nth (Z.to_nat i) heights 0.

(** The loop [for (i = ...; i < ...; i++)] of [getBumpiness]: [n] iterations
    from index [i]. *)
Fixpoint bumpLoop (heights : list Z) (i : Z) (n : nat) (bumpiness : Z) : Z :=
  match n with
  | O => bumpiness
  | S n' =>
      bumpLoop heights (i + 1) n'
        (bumpiness + Z.abs (hget heights i - hget heights (i + 1)))
  end.

Definition getBumpiness (heights : list Z) : Z :=
  bumpLoop heights 0 (length heights - 1) 0.

(** [Math.max(...heights) > t]; the maximum of no argument is -Infinity. *)
Definition mathMax (l : list Z) : option Z :=
  match l with
  | [] => None
  | h :: rest => Some (fold_left Z.max rest h)
  end.

Definition maxAbove (l : list Z) (t : Z) : bool :=
  match mathMax l with
  | Some m => t <? m
  | None => false
  end.

(** ** Line clearing *)

(** [row.every(cell => cell !== 0)] *)
Definition rowFull (row : list nat) : bool :=
  forallb (fun cell => negb (Nat.eqb cell 0)) row.

(** The loop [for (r = GRID_HEIGHT - 1; r >= 0; r--)]: [n] is [r + 1]. *)
Fixpoint clearLoop (grid : Grid) (n : nat) (newGrid : Grid) (clearedCount : Z)
    : result (Grid * Z) :=
  match n with
  | O => Ok (newGrid, clearedCount)
  | S r =>
      row <- gridRow grid (Z.of_nat r) ;;
      if rowFull row then clearLoop grid r newGrid (clearedCount + 1)
      else clearLoop grid r (row :: newGrid) clearedCount
  end.

(** The loop [while (newGrid.length < GRID_HEIGHT) newGrid.unshift(blank)]:
    it runs once per missing row. *)
Fixpoint padLoop (missing : nat) (newGrid : Grid) : Grid :=
  match missing with
  | O => newGrid
  | S m => padLoop m (BLANK_ROW :: newGrid)
  end.

Definition simulateLineClearing (grid : Grid) : result (Grid * Z) :=
  '(newGrid, clearedCount) <- clearLoop grid (Z.to_nat GRID_HEIGHT) [] 0 ;;
  Ok (padLoop (Z.to_nat GRID_HEIGHT - length newGrid) newGrid, clearedCount).

(** ** The evaluator *)

Definition isWell (strategy : string) : bool :=
  String.eqb strategy "rightWell" || String.eqb strategy "leftWell".

Definition wellColumn (strategy : string) : Z :=
  if String.eqb strategy "rightWell" then 9 else 0.

Definition neighborColumn (strategy : string) : Z :=
  if String.eqb strategy "rightWell" then 8 else 1.

(** The bumpiness loop of the well branch, which [continue]s over the pair
    that touches the well. *)
Fixpoint stackBumpLoop (strategy : string) (heights : list Z) (i : Z) (n : nat)
    (stackBumpiness : Z) : Z :=
  match n with
  | O => stackBumpiness
  | S n' =>
      if (String.eqb strategy "rightWell" && (i =? wellColumn strategy - 1))
         || (String.eqb strategy "leftWell" && (i =? wellColumn strategy))
      then stackBumpLoop strategy heights (i + 1) n' stackBumpiness
      else stackBumpLoop strategy heights (i + 1) n'
             (stackBumpiness + Z.abs (hget heights i - hget heights (i + 1)))
  end.

Definition stackBumpiness (strategy : string) (heights : list Z) : Z :=
  stackBumpLoop strategy heights 0 (Z.to_nat (COLS - 1)) 0.

(** The [wellDepth] local of the drought block. *)
Definition wellDepth (strategy : string) (heights : list Z) : Z :=
  hget heights (neighborColumn strategy) - hget heights (wellColumn strategy).

(** The [droughtPenalty] local of the well branch. *)
Definition droughtPenalty (strategy : string) (heights : list Z) (weights : Weights)
    (iPieceDrought : Z) : jsnum :=
  if DROUGHT_THRESHOLD <? iPieceDrought then
    if 3 <? wellDepth strategy heights then
      let excessDrought := iPieceDrought - DROUGHT_THRESHOLD in
      jsmul (ofZ (excessDrought * wellDepth strategy heights))
            (weightNum weights "droughtPenalty")
    else ofZ 0
  else ofZ 0.

(** The [bumpinessPenalty] local of the well branch. *)
Definition bumpinessPenalty (strategy : string) (heights : list Z)
    (weights : Weights) : jsnum :=
  jsmul (weightNum weights "bumpiness") (ofZ (stackBumpiness strategy heights)).

(** The five terms of the well branch that come before the drought penalty. *)
Definition wellBase (strategy : string) (heights : list Z) (holes : Z)
    (clearedLines : Z) (weights : Weights) : jsnum :=
  let holePenalty := jsmul (weightNum weights "holes") (ofZ holes) in
  let heightPenalty :=
    jsmul (weightNum weights "aggregateHeight") (ofZ (getAggregateHeight heights)) in
  let clogPenalty :=
    jsmul (weightNum weights "wellClogs") (ofZ (hget heights (wellColumn strategy))) in
  let lineClearBonus :=
    jsmul (weightNum weights "lineClearBonus") (ofZ (clearedLines * clearedLines)) in
  jsadd (jsadd (jsadd (jsadd holePenalty (bumpinessPenalty strategy heights weights))
                      heightPenalty) clogPenalty) lineClearBonus.

Definition wellScore (strategy : string) (heights : list Z) (holes : Z)
    (clearedLines : Z) (weights : Weights) (iPieceDrought : Z) : jsnum :=
  jsadd (wellBase strategy heights holes clearedLines weights)
        (droughtPenalty strategy heights weights iPieceDrought).

Definition centerCols : list Z := [3; 4; 5; 6].

Definition survivalScore (heights : list Z) (holes : Z) (clearedLines : Z)
    (weights : Weights) (holesBeforeClear : option Z) : jsnum :=
  let aggregateHeight := getAggregateHeight heights in
  let bumpiness := getBumpiness heights in
  let score :=
    jsadd (jsadd (jsadd
      (jsmul (Num (weightOr weights "aggregateHeight" 0)) (ofZ aggregateHeight))
      (jsmul (Num (weightOr weights "completedLines" 0)) (ofZ clearedLines)))
      (jsmul (Num (weightOr weights "holes" 0)) (ofZ holes)))
      (jsmul (Num (weightOr weights "bumpiness" 0)) (ofZ bumpiness)) in
  let score :=
    match holesBeforeClear with
    | Some before =>
        if 0 <? clearedLines then
          let holesReduced := before - holes in
          if 0 <? holesReduced then
            jsadd score (jsmul (Num (weightOr weights "holeReduction" 0))
                               (ofZ holesReduced))
          else score
        else score
    | None => score
    end in
  if maxAbove heights DANGER_HEIGHT_THRESHOLD then
    let centerClogHeight :=
      fold_left (fun acc c => acc + hget heights c) centerCols 0 in
    jsadd score (jsmul (Num (weightOr weights "centerClog" 0)) (ofZ centerClogHeight))
  else score.

Definition evaluateBoard (grid : Grid) (clearedLines : Z) (strategy : string)
    (weights : Weights) (iPieceDrought : Z) (holesBeforeClear : option Z)
    : result jsnum :=
  heights <- getColumnHeights grid ;;
  holes <- getHoles grid ;;
  if isWell strategy then
    Ok (wellScore strategy heights holes clearedLines weights iPieceDrought)
  else
    Ok (survivalScore heights holes clearedLines weights holesBeforeClear).

(** ** Weight mutation

    What [mutateWeights] promises is a matter of signs, and signs are lost
    to rounding: the mutation is therefore modelled on the numbers that the
    program computes with, the binary64 values that the Standard Library
    specifies in [SpecFloat] ([spec_float] with a mantissa of 53 bits and
    [emax = 1024], every operation rounded to nearest, ties to even, with
    signed zeros, infinities and NaN). *)

Definition double : Type := spec_float.
Definition dprec : Z := 53.
Definition demax : Z := 1024.

Definition dadd : double -> double -> double := SFadd dprec demax.
Definition dsub : double -> double -> double := SFsub dprec demax.
Definition dmul : double -> double -> double := SFmul dprec demax.
Definition ddiv : double -> double -> double := SFdiv dprec demax.

(** [a < b] and [a === b] on numbers. *)
Definition dlt : double -> double -> bool := SFltb.
Definition deq : double -> double -> bool := SFeqb.

(** The double of an integer literal, and of a decimal literal written as
    the fraction it denotes: the quotient of two integers that are doubles,
    rounded once. *)
Definition dOfZ (z : Z) : double := binary_normalize dprec demax z 0 false.
Definition dOfQ (q : Q) : double := ddiv (dOfZ (Qnum q)) (dOfZ (Zpos (Qden q))).

(** A weight vector of doubles, keys in insertion order. *)
Definition DoubleWeights : Type := list (string * double).

Fixpoint getDoubleWeight (w : DoubleWeights) (key : string) : option double :=
  match w with
  | [] => None
  | (k, v) :: rest => if String.eqb k key then Some v else getDoubleWeight rest key
  end.

(** The doubles of a vector written with decimal literals. *)
Definition toDoubles (w : Weights) : DoubleWeights :=
  map (fun kv => (fst kv, dOfQ (snd kv))) w.

(** [newValue] as the loop first computes it, for a coefficient that is not
    0, with its draw of [Math.random]. *)
Definition newValueOf (baseValue mutationFactor draw : double) : double :=
  let factor :=
    if dlt baseValue (dOfZ 0) then ddiv mutationFactor (dOfQ (3 # 2))
    else mutationFactor in
  let change := dmul (dmul (dsub draw (dOfQ (1 # 2))) (dOfZ 2)) factor in
  dmul baseValue (dadd (dOfZ 1) change).

(** The body of the loop: [newValue] after the test
    [baseValue * newValue < 0]. *)
Definition mutateValue (baseValue mutationFactor draw : double) : double :=
  let newValue := newValueOf baseValue mutationFactor draw in
  if dlt (dmul baseValue newValue) (dOfZ 0) then baseValue else newValue.

(** The loop [for (const key in mutated)].  [Math.random] is a stream of
    draws; [i] is the number of draws consumed so far.  A coefficient that
    is [=== 0] is skipped before any draw. *)
Fixpoint mutateLoop (entries : DoubleWeights) (mutationFactor : double)
    (random : nat -> double) (i : nat) : DoubleWeights :=
  match entries with
  | [] => []
  | (key, baseValue) :: rest =>
      if deq baseValue (dOfZ 0) then
        (key, baseValue) :: mutateLoop rest mutationFactor random i
      else
        (key, mutateValue baseValue mutationFactor (random i))
          :: mutateLoop rest mutationFactor random (S i)
  end.

Definition mutateWeights (baseWeights : DoubleWeights) (mutationFactor : double)
    (random : nat -> double) : DoubleWeights :=
  mutateLoop baseWeights mutationFactor random 0.

(** [Math.sign]: -1, 0 (of either sign), 1 or NaN. *)
Inductive Sign : Type := SignNeg | SignZero | SignPos | SignNaN.

Definition dsign (x : double) : Sign :=
  match x with
  | S754_nan => SignNaN
  | S754_zero _ => SignZero
  | S754_infinity s | S754_finite s _ _ => if s then SignNeg else SignPos
  end.

(** The double product [a * b] is a zero or NaN: the test
    [baseValue * newValue < 0] cannot tell the signs of its operands. *)
Definition productVanishes (a b : double) : bool :=
  match dmul a b with
  | S754_zero _ | S754_nan => true
  | _ => false
  end.

(** A coefficient too small for the test of the loop: 2^-565, a normal
    double whose square is below the smallest double. *)
Definition tinyCoefficient : double := S754_finite false 4503599627370496 (-617).

(** ** Pieces on the grid *)

Inductive Direction : Type := DirR | DirL.

Inductive Action : Type := moveL | moveR | softD | rotateR | rotateL | hardD.

(** [getPieceKey]: the text [x,y,rotation]; decimal rendering is injective,
    so the key is the triple itself. *)
Definition PoseKey : Type := (Z * Z * nat)%type.

Definition getPieceKey (piece : Piece) : PoseKey :=
  (px piece, py piece, rotation piece).

Definition keyEqb (a b : PoseKey) : bool :=
  let '(ax, ay, ar) := a in
  let '(bx, by_, br) := b in
  (ax =? bx) && (ay =? by_) && Nat.eqb ar br.

(** [visited.has(key)] *)
Definition visitedHas (visited : list PoseKey) (key : PoseKey) : bool :=
  existsb (keyEqb key) visited.

(** [r[col] = v] on a row.  Rows are ten cells wide and the callers write
    inside them; on a shorter row JavaScript would extend the array, which
    is rendered here by padding with empty cells. *)
Fixpoint rowSet (r : list nat) (col : nat) (v : nat) : list nat :=
  match col, r with
  | O, [] => [v]
  | O, _ :: rest => v :: rest
  | S c, [] => 0%nat :: rowSet [] c v
  | S c, a :: rest => a :: rowSet rest c v
  end.

(** [grid[row][col] = v] for [0 <= row] and [0 <= col]: a missing row raises. *)
Fixpoint gridSet (grid : Grid) (row : nat) (col : nat) (v : nat) : result Grid :=
  match row, grid with
  | _, [] => TypeError
  | O, r :: rest => Ok (rowSet r col v :: rest)
  | S n, r :: rest => g <- gridSet rest n col v ;; Ok (r :: g)
  end.

(** The locking loop shared by [findBestMove] and
    [evaluateAllPossiblePlacements]: every shape cell that falls inside the
    grid is written with the piece kind plus one. *)
Fixpoint lockLoop (tempGrid : Grid) (shape : Shape) (x y : Z) (type : nat)
    : result Grid :=
  match shape with
  | [] => Ok tempGrid
  | coord :: rest =>
      let col := x + fst coord in
      let row := y + snd coord in
      if (0 <=? row) && (row <? GRID_HEIGHT) && (0 <=? col) && (col <? COLS) then
        g <- gridSet tempGrid (Z.to_nat row) (Z.to_nat col) (S type) ;;
        lockLoop g rest x y type
      else lockLoop tempGrid rest x y type
  end.

(** The body of [collidesWithGrid] once the shape is known. *)
Fixpoint collidesLoop (grid : Grid) (shape : Shape) (x y : Z) : result bool :=
  match shape with
  | [] => Ok false
  | coord :: rest =>
      let col := x + fst coord in
      let row := y + snd coord in
      if (col <? 0) || (COLS <=? col) || (GRID_HEIGHT <=? row) then Ok true
      else if 0 <=? row then
        b <- gridCell grid row col ;;
        if b then Ok true else collidesLoop grid rest x y
      else collidesLoop grid rest x y
  end.

(** [collidesWithGrid] on a piece whose [y] is [undefined]: every row is
    NaN, both row comparisons are false and only the columns are tested. *)
Definition collidesNoRow (shape : Shape) (x : Z) : bool :=
  existsb (fun coord => let col := x + fst coord in (col <? 0) || (COLS <=? col))
          shape.

Record Node : Type := mkNode { npiece : Piece; npath : list Action }.

Record Search : Type := mkSearch {
  queue : list Node;
  visited : list PoseKey;
  bestScore : jsnum;
  bestPath : option (list Action);
  bestTarget : option Piece
}.

Record Move : Type := mkMove { path : list Action; target : option Piece }.

(** The fields of the game state that [findBestMove] reads.  [Block] is
    [None] when the active block is missing or has no [type]; [Next] is the
    kind of the next piece, [None] when there is none. *)
Record State : Type := mkState {
  grid : Grid;
  Block : option Piece;
  Next : option nat;
  iPieceDrought : Z
}.

(** ** A sample instance of the tables

    [data.js] being absent, the closed examples below run on the usual
    tetromino shapes (kinds I, J, L, O, S, T, Z in that order, the square
    being kind 3 as [simulateRotation] has it) and on the kicks of the Super
    Rotation System, in screen coordinates (y grows downwards). *)

Definition sampleBlockCoords : list (list Shape) :=
  [ [ [(0,1); (1,1); (2,1); (3,1)]; [(2,0); (2,1); (2,2); (2,3)];
      [(0,2); (1,2); (2,2); (3,2)]; [(1,0); (1,1); (1,2); (1,3)] ];
    [ [(0,0); (0,1); (1,1); (2,1)]; [(1,0); (2,0); (1,1); (1,2)];
      [(0,1); (1,1); (2,1); (2,2)]; [(1,0); (1,1); (0,2); (1,2)] ];
    [ [(2,0); (0,1); (1,1); (2,1)]; [(1,0); (1,1); (1,2); (2,2)];
      [(0,1); (1,1); (2,1); (0,2)]; [(0,0); (1,0); (1,1); (1,2)] ];
    [ [(1,0); (2,0); (1,1); (2,1)]; [(1,0); (2,0); (1,1); (2,1)];
      [(1,0); (2,0); (1,1); (2,1)]; [(1,0); (2,0); (1,1); (2,1)] ];
    [ [(1,0); (2,0); (0,1); (1,1)]; [(1,0); (1,1); (2,1); (2,2)];
      [(1,1); (2,1); (0,2); (1,2)]; [(0,0); (0,1); (1,1); (1,2)] ];
    [ [(1,0); (0,1); (1,1); (2,1)]; [(1,0); (1,1); (2,1); (1,2)];
      [(0,1); (1,1); (2,1); (1,2)]; [(1,0); (0,1); (1,1); (1,2)] ];
    [ [(0,0); (1,0); (1,1); (2,1)]; [(2,0); (1,1); (2,1); (1,2)];
      [(0,1); (1,1); (1,2); (2,2)]; [(1,0); (0,1); (1,1); (0,2)] ] ].

Definition sampleBLOCK_I : nat := 0.

Definition sampleRotIright : list (list (Z * Z)) :=
  [ [(0,0); (-2,0); (1,0); (-2,1); (1,-2)];
    [(0,0); (-1,0); (2,0); (-1,-2); (2,1)];
    [(0,0); (2,0); (-1,0); (2,-1); (-1,2)];
    [(0,0); (1,0); (-2,0); (1,2); (-2,-1)] ].

Definition sampleRotIleft : list (list (Z * Z)) :=
  [ [(0,0); (-1,0); (2,0); (-1,-2); (2,1)];
    [(0,0); (2,0); (-1,0); (2,-1); (-1,2)];
    [(0,0); (1,0); (-2,0); (1,2); (-2,-1)];
    [(0,0); (-2,0); (1,0); (-2,1); (1,-2)] ].

Definition sampleRotJLTSZright : list (list (Z * Z)) :=
  [ [(0,0); (-1,0); (-1,-1); (0,2); (-1,2)];
    [(0,0); (1,0); (1,1); (0,-2); (1,-2)];
    [(0,0); (1,0); (1,-1); (0,2); (1,2)];
    [(0,0); (-1,0); (-1,1); (0,-2); (-1,-2)] ].

Definition sampleRotJLTSZleft : list (list (Z * Z)) :=
  [ [(0,0); (1,0); (1,-1); (0,2); (1,2)];
    [(0,0); (1,0); (1,1); (0,-2); (1,-2)];
    [(0,0); (-1,0); (-1,-1); (0,2); (-1,2)];
    [(0,0); (-1,0); (-1,1); (0,-2); (-1,-2)] ].

(** [grid[row][col]] holds a piece marker. *)
Definition occupied (grid : Grid) (row col : Z) : Prop :=
  exists r v, nth_error grid (Z.to_nat row) = Some r /\
              nth_error r (Z.to_nat col) = Some v /\ v <> 0%nat.

(** The grid whose column [c] is filled from the floor up to [heights[c]]:
    sample boards for the closed examples. *)
Definition gridOfHeights (heights : list Z) : Grid :=
  map (fun r => map (fun h => if GRID_HEIGHT - Z.of_nat r <=? h then 1%nat else 0%nat)
                    heights)
      (seq 0 (Z.to_nat GRID_HEIGHT)).

Definition oneLineGrid : Grid := gridOfHeights [1; 1; 1; 1; 1; 1; 1; 1; 1; 1].
Definition dangerGrid : Grid := gridOfHeights [19; 0; 0; 0; 0; 0; 0; 0; 0; 0].
Definition deepWellGrid : Grid :=
  gridOfHeights [18; 18; 18; 18; 18; 18; 18; 18; 18; 0].

(** A T piece at the spawn position of [spawnBlock]. *)
Definition spawnedT : Piece := mkPiece 5 0 3 2.

Definition emptyState : State :=
  mkState createEmptyGrid (Some spawnedT) (Some 0%nat) 0.
Definition dangerState : State := mkState dangerGrid (Some spawnedT) None 0.
Definition dangerLookaheadState : State :=
  mkState dangerGrid (Some spawnedT) (Some 0%nat) 0.
Definition deepWellState : State := mkState deepWellGrid (Some spawnedT) None 0.

Definition rightWellGrid : Grid := gridOfHeights [5; 5; 5; 5; 5; 5; 5; 5; 5; 0].
Definition rightWellGridFilled : Grid := gridOfHeights [5; 5; 5; 5; 5; 5; 5; 5; 5; 9].

Section Tables.

(** The tables of [data.js]. *)
Variable blockCoords : list (list Shape).
Variable BLOCK_I : nat.
Variables rotIleft rotIright rotJLTSZleft rotJLTSZright : list (list (Z * Z)).

(** [blockCoords[type][r]], iterated: a missing kind or rotation raises. *)
Definition shapeOf (type r : nat) : result Shape :=
  match nth_error blockCoords type with
  | None => TypeError
  | Some rots =>
      match nth_error rots r with
      | None => TypeError
      | Some shape => Ok shape
      end
  end.

Definition collidesWithGrid (grid : Grid) (activeBlock : Piece)
    (new_x new_y : Z) (new_rotation : nat) : result bool :=
  shape <- shapeOf (ptype activeBlock)
             ((rotation activeBlock + new_rotation) mod 4)%nat ;;
  collidesLoop grid shape (px activeBlock + new_x) (py activeBlock + new_y).

(** Lock [piece] into a copy of [grid], count the holes, clear the lines:
    the code that [findBestMove] and [evaluateAllPossiblePlacements] both
    carry inline.  Returns the grid after the clear, [clearedCount] and
    [holesBeforeClear]. *)
Definition lockAndClear (grid : Grid) (piece : Piece) : result (Grid * Z * Z) :=
  shape <- shapeOf (ptype piece) (rotation piece) ;;
  tempGrid <- lockLoop grid shape (px piece) (py piece) (ptype piece) ;;
  holesBeforeClear <- getHoles tempGrid ;;
  '(finalGrid, clearedCount) <- simulateLineClearing tempGrid ;;
  Ok (finalGrid, clearedCount, holesBeforeClear).

(** [y = 0; while (!collidesWithGrid(grid, {...tempPiece, y: y + 1}, 0, 0, 0)) y++] *)
Fixpoint dropLoop (fuel : nat) (grid : Grid) (type rot : nat) (x y : Z)
    : result Z :=
  match fuel with
  | O => OutOfFuel
  | S fuel' =>
      c <- collidesWithGrid grid (mkPiece type rot x (y + 1)) 0 0 0 ;;
      if c then Ok y else dropLoop fuel' grid type rot x (y + 1)
  end.

(** The first test of the [x] loop, on [tempPiece]: its [y] is [undefined]
    until a placement of the same rotation has set it, and is the resting
    row of the previous placement afterwards. *)
Definition collidesTemp (grid : Grid) (type rot : nat) (x : Z) (tempY : option Z)
    : result bool :=
  match tempY with
  | Some y => collidesWithGrid grid (mkPiece type rot x y) 0 0 0
  | None => shape <- shapeOf type (rot mod 4)%nat ;; Ok (collidesNoRow shape x)
  end.

(** The loop [for (x = -2; x < COLS; x++)] of one rotation. *)
Fixpoint placeXLoop (fuel : nat) (grid : Grid) (type rot : nat)
    (strategy : string) (weights : Weights) (drought : Z)
    (xs : list Z) (tempY : option Z) (best : jsnum) : result jsnum :=
  match xs with
  | [] => Ok best
  | x :: rest =>
      c <- collidesTemp grid type rot x tempY ;;
      if c then placeXLoop fuel grid type rot strategy weights drought rest tempY best
      else
        y <- dropLoop fuel grid type rot x 0 ;;
        '(finalGrid, clearedCount, holesBeforeClear) <-
          lockAndClear grid (mkPiece type rot x y) ;;
        score <- evaluateBoard finalGrid clearedCount strategy weights drought
                   (Some holesBeforeClear) ;;
        placeXLoop fuel grid type rot strategy weights drought rest (Some y)
          (if jslt score best then score else best)
  end.

Definition placementXs : list Z := [-2; -1; 0; 1; 2; 3; 4; 5; 6; 7; 8; 9].

(** The loop over the rotations [0 .. blockCoords[type].length - 1]. *)
Fixpoint placeRotLoop (fuel : nat) (grid : Grid) (type : nat)
    (strategy : string) (weights : Weights) (drought : Z)
    (rots : list nat) (best : jsnum) : result jsnum :=
  match rots with
  | [] => Ok best
  | rot :: rest =>
      b <- placeXLoop fuel grid type rot strategy weights drought
             placementXs None best ;;
      placeRotLoop fuel grid type strategy weights drought rest b
  end.

Definition evaluateAllPossiblePlacements (fuel : nat) (grid : Grid)
    (piece : option nat) (strategy : string) (weights : Weights) (drought : Z)
    : result jsnum :=
  match piece with
  | None => Ok (ofZ 0)
  | Some type =>
      match nth_error blockCoords type with
      | None => TypeError
      | Some rots =>
          placeRotLoop fuel grid type strategy weights drought
            (seq 0 (length rots)) PInf
      end
  end.

(** The loop over the kick tests of [simulateRotation]. *)
Fixpoint kickLoop (grid : Grid) (piece : Piece) (r : nat) (tests : list (Z * Z))
    : result (option Piece) :=
  match tests with
  | [] => Ok None
  | (dx, dy) :: rest =>
      c <- collidesWithGrid grid piece dx dy r ;;
      if c then kickLoop grid piece r rest
      else Ok (Some (mkPiece (ptype piece) ((rotation piece + r) mod 4)%nat
                             (px piece + dx) (py piece + dy)))
  end.

Definition simulateRotation (grid : Grid) (piece : Piece) (direction : Direction)
    : result (option Piece) :=
  if Nat.eqb (ptype piece) 3 then Ok None
  else
    let srsData :=
      if Nat.eqb (ptype piece) BLOCK_I
      then (match direction with DirR => rotIright | DirL => rotIleft end)
      else (match direction with DirR => rotJLTSZright | DirL => rotJLTSZleft end) in
    match nth_error srsData (rotation piece) with
    | None => TypeError
    | Some tests =>
        kickLoop grid piece (match direction with DirR => 1 | DirL => 3 end)%nat tests
    end.

(** [weights.lookaheadScore || 0.8] *)
Definition lookaheadWeight (weights : Weights) : Q :=
  weightOr weights "lookaheadScore" (8 # 10).

(** The terminal-candidate block of the search loop. *)
Definition scoreCandidate (fuel : nat) (state : State) (strategy : string)
    (weights : Weights) (piece : Piece) : result jsnum :=
  '(gridAfterCurrentMove, clearedCount, holesBeforeClear) <-
    lockAndClear (grid state) piece ;;
  currentMoveScore <- evaluateBoard gridAfterCurrentMove clearedCount strategy
                        weights (iPieceDrought state) (Some holesBeforeClear) ;;
  nextPieceBestScore <- evaluateAllPossiblePlacements fuel gridAfterCurrentMove
                          (Next state) strategy weights (iPieceDrought state) ;;
  Ok (jsadd currentMoveScore
            (jsmul nextPieceBestScore (Num (lookaheadWeight weights)))).

(** The [actions] array: each action with its new piece, [None] when the
    action is invalid or the rotation has no kick. *)
Definition actions (grid : Grid) (piece : Piece)
    : result (list (Action * option Piece)) :=
  cL <- collidesWithGrid grid piece (-1) 0 0 ;;
  cR <- collidesWithGrid grid piece 1 0 0 ;;
  cD <- collidesWithGrid grid piece 0 1 0 ;;
  rR <- simulateRotation grid piece DirR ;;
  rL <- simulateRotation grid piece DirL ;;
  Ok [ (moveL, if cL then None
               else Some (mkPiece (ptype piece) (rotation piece) (px piece - 1) (py piece)));
       (moveR, if cR then None
               else Some (mkPiece (ptype piece) (rotation piece) (px piece + 1) (py piece)));
       (softD, if cD then None
               else Some (mkPiece (ptype piece) (rotation piece) (px piece) (py piece + 1)));
       (rotateR, rR);
       (rotateL, rL) ].

(** The loop [for (const action of actions)]: a new pose is marked visited
    and pushed at the back of the queue. *)
Fixpoint enqueue (path : list Action) (acts : list (Action * option Piece))
    (q : list Node) (vis : list PoseKey) : list Node * list PoseKey :=
  match acts with
  | [] => (q, vis)
  | (name, Some newPiece) :: rest =>
      let key := getPieceKey newPiece in
      if visitedHas vis key then enqueue path rest q vis
      else enqueue path rest (q ++ [mkNode newPiece (path ++ [name])]) (key :: vis)
  | (_, None) :: rest => enqueue path rest q vis
  end.

(** One iteration of [while (queue.length > 0)] on the node just shifted. *)
Definition searchStep (fuel : nat) (state : State) (strategy : string)
    (weights : Weights) (node : Node) (s : Search) : result Search :=
  let piece := npiece node in
  let path := npath node in
  resting <- collidesWithGrid (grid state) piece 0 1 0 ;;
  '(bs, bp, bt) <-
    (if resting then
       totalScore <- scoreCandidate fuel state strategy weights piece ;;
       if jslt totalScore (bestScore s)
       then Ok (totalScore, Some (path ++ [hardD]), Some piece)
       else Ok (bestScore s, bestPath s, bestTarget s)
     else Ok (bestScore s, bestPath s, bestTarget s)) ;;
  acts <- actions (grid state) piece ;;
  let '(q, vis) := enqueue path acts (queue s) (visited s) in
  Ok (mkSearch q vis bs bp bt).

Fixpoint searchLoop (fuel : nat) (dropFuel : nat) (state : State)
    (strategy : string) (weights : Weights) (s : Search) : result Search :=
  match queue s with
  | [] => Ok s
  | node :: rest =>
      match fuel with
      | O => OutOfFuel
      | S fuel' =>
          s' <- searchStep dropFuel state strategy weights node
                  (mkSearch rest (visited s) (bestScore s) (bestPath s)
                            (bestTarget s)) ;;
          searchLoop fuel' dropFuel state strategy weights s'
      end
  end.

(** The switch to the survival evaluation above the danger height. *)
Definition effectiveStrategy (grid : Grid) (strategy : string) : result string :=
  if isWell strategy then
    heights <- getColumnHeights grid ;;
    Ok (if maxAbove heights DANGER_HEIGHT_THRESHOLD then "survival"%string
        else strategy)
  else Ok strategy.

Definition initialSearch (initialPiece : Piece) : Search :=
  mkSearch [mkNode initialPiece []] [getPieceKey initialPiece] PInf None None.

(** The search proper, from line 252 of [ai.js] on, with the strategy that
    every evaluation of the call uses. *)
Definition search (fuel : nat) (state : State) (strategy : string)
    (weights : Weights) (initialPiece : Piece) : result Search :=
  searchLoop fuel fuel state strategy weights (initialSearch initialPiece).

Definition moveOf (s : Search) : Move :=
  mkMove (match bestPath s with Some p => p | None => [hardD] end) (bestTarget s).

Definition findBestMove (fuel : nat) (state : State) (strategy : string)
    (weights : Weights) : result Move :=
  eff <- effectiveStrategy (grid state) strategy ;;
  match Block state with
  | None => Ok (mkMove [] None)
  | Some initialPiece =>
      s <- search fuel state eff weights initialPiece ;;
      Ok (moveOf s)
  end.

(** ** The search that knows the survival evaluation only

    The search as the claim about the danger height describes it: the same
    loops, written without a strategy, in which a board is scored by the
    survival formula and by nothing else.  [findBestMove] is compared with
    it. *)

(** The survival branch of [evaluateBoard] on its own. *)
Definition survivalEvaluation (grid : Grid) (clearedLines : Z) (weights : Weights)
    (holesBeforeClear : option Z) : result jsnum :=
  heights <- getColumnHeights grid ;;
  holes <- getHoles grid ;;
  Ok (survivalScore heights holes clearedLines weights holesBeforeClear).

Fixpoint survivalPlaceXLoop (fuel : nat) (grid : Grid) (type rot : nat)
    (weights : Weights) (xs : list Z) (tempY : option Z) (best : jsnum)
    : result jsnum :=
  match xs with
  | [] => Ok best
  | x :: rest =>
      c <- collidesTemp grid type rot x tempY ;;
      if c then survivalPlaceXLoop fuel grid type rot weights rest tempY best
      else
        y <- dropLoop fuel grid type rot x 0 ;;
        '(finalGrid, clearedCount, holesBeforeClear) <-
          lockAndClear grid (mkPiece type rot x y) ;;
        score <- survivalEvaluation finalGrid clearedCount weights
                   (Some holesBeforeClear) ;;
        survivalPlaceXLoop fuel grid type rot weights rest (Some y)
          (if jslt score best then score else best)
  end.

Fixpoint survivalPlaceRotLoop (fuel : nat) (grid : Grid) (type : nat)
    (weights : Weights) (rots : list nat) (best : jsnum) : result jsnum :=
  match rots with
  | [] => Ok best
  | rot :: rest =>
      b <- survivalPlaceXLoop fuel grid type rot weights placementXs None best ;;
      survivalPlaceRotLoop fuel grid type weights rest b
  end.

(** The best survival score over the placements of the next piece. *)
Definition survivalPlacements (fuel : nat) (grid : Grid) (piece : option nat)
    (weights : Weights) : result jsnum :=
  match piece with
  | None => Ok (ofZ 0)
  | Some type =>
      match nth_error blockCoords type with
      | None => TypeError
      | Some rots =>
          survivalPlaceRotLoop fuel grid type weights (seq 0 (length rots)) PInf
      end
  end.

(** The total of a terminal candidate: the survival score of its board plus
    the weighted best survival score of the next piece. *)
Definition survivalCandidate (fuel : nat) (state : State) (weights : Weights)
    (piece : Piece) : result jsnum :=
  '(gridAfterCurrentMove, clearedCount, holesBeforeClear) <-
    lockAndClear (grid state) piece ;;
  currentMoveScore <- survivalEvaluation gridAfterCurrentMove clearedCount weights
                        (Some holesBeforeClear) ;;
  nextPieceBestScore <- survivalPlacements fuel gridAfterCurrentMove (Next state)
                          weights ;;
  Ok (jsadd currentMoveScore
            (jsmul nextPieceBestScore (Num (lookaheadWeight weights)))).

Definition survivalStep (fuel : nat) (state : State) (weights : Weights)
    (node : Node) (s : Search) : result Search :=
  let piece := npiece node in
  let path := npath node in
  resting <- collidesWithGrid (grid state) piece 0 1 0 ;;
  '(bs, bp, bt) <-
    (if resting then
       totalScore <- survivalCandidate fuel state weights piece ;;
       if jslt totalScore (bestScore s)
       then Ok (totalScore, Some (path ++ [hardD]), Some piece)
       else Ok (bestScore s, bestPath s, bestTarget s)
     else Ok (bestScore s, bestPath s, bestTarget s)) ;;
  acts <- actions (grid state) piece ;;
  let '(q, vis) := enqueue path acts (queue s) (visited s) in
  Ok (mkSearch q vis bs bp bt).

Fixpoint survivalLoop (fuel : nat) (dropFuel : nat) (state : State)
    (weights : Weights) (s : Search) : result Search :=
  match queue s with
  | [] => Ok s
  | node :: rest =>
      match fuel with
      | O => OutOfFuel
      | S fuel' =>
          s' <- survivalStep dropFuel state weights node
                  (mkSearch rest (visited s) (bestScore s) (bestPath s)
                            (bestTarget s)) ;;
          survivalLoop fuel' dropFuel state weights s'
      end
  end.

(** The move of the survival search. *)
Definition survivalMove (fuel : nat) (state : State) (weights : Weights)
    : result Move :=
  match Block state with
  | None => Ok (mkMove [] None)
  | Some initialPiece =>
      s <- survivalLoop fuel fuel state weights (initialSearch initialPiece) ;;
      Ok (moveOf s)
  end.

(** A shape cell at [(x, y)] that makes [collidesWithGrid] answer [true]. *)
Definition cellCollides (g : Grid) (x y : Z) (coord : Z * Z) : Prop :=
  let col := x + fst coord in
  let row := y + snd coord in
  col < 0 \/ COLS <= col \/ GRID_HEIGHT <= row \/ (0 <= row /\ occupied g row col).

(** ** Well-formed tables and the region of the search

    What the proofs ask of the tables of [data.js]: every kind has four
    rotations and every shape has a cell; every kick table has an entry for
    each of the four rotation states; and a kick that moves the piece up has
    the horizontal offset of an earlier test of the same list. *)

Definition nonEmpty {A : Type} (l : list A) : bool :=
  match l with [] => false | _ :: _ => true end.

Definition shapesComplete : bool :=
  forallb (fun rots => Nat.eqb (length rots) 4 && forallb nonEmpty rots) blockCoords.

Fixpoint kicksTame (seen : list Z) (tests : list (Z * Z)) : bool :=
  match tests with
  | [] => true
  | (dx, dy) :: rest =>
      ((0 <=? dy) || existsb (Z.eqb dx) seen) && kicksTame (dx :: seen) rest
  end.

Definition kickTables : list (list (list (Z * Z))) :=
  [rotIleft; rotIright; rotJLTSZleft; rotJLTSZright].

Definition kickTableOk (table : list (list (Z * Z))) : bool :=
  (4 <=? length table)%nat && forallb (kicksTame []) table.

Definition tablesOk : bool := shapesComplete && forallb kickTableOk kickTables.

(** The largest coordinate of a shape cell, in absolute value. *)
Definition maxOffset : Z :=
  fold_right Z.max 0
    (map (fun c => Z.max (Z.abs (fst c)) (Z.abs (snd c)))
         (concat (concat blockCoords))).

(** The largest vertical kick, in absolute value. *)
Definition maxKick : Z :=
  fold_right Z.max 0
    (map (fun t => Z.abs (snd t)) (concat (concat kickTables))).

(** Iterations that a drop from row 0 cannot exceed. *)
Definition dropBound : nat := Z.to_nat (GRID_HEIGHT + maxOffset).

(** The lowest [y] that the search can reach from a piece at [y0]. *)
Definition yLow (y0 : Z) : Z := Z.min y0 (- (2 * maxKick + maxOffset)).

Definition zrange (lo : Z) (n : nat) : list Z :=
  map (fun i => lo + Z.of_nat i) (seq 0 n).

(** Every pose that the search from [initialPiece] can mark visited. *)
Definition region (initialPiece : Piece) : list PoseKey :=
  getPieceKey initialPiece ::
  flat_map (fun x =>
    flat_map (fun y => map (fun r => (x, y, r)) (seq 0 4))
      (zrange (yLow (py initialPiece))
              (Z.to_nat (GRID_HEIGHT + maxOffset - yLow (py initialPiece)))))
    (zrange (- maxOffset) (Z.to_nat (COLS + 2 * maxOffset))).

(** The poses of the region that are not visited yet, plus the queue: the
    quantity that every iteration of the search decreases. *)
Definition unvisited (initialPiece : Piece) (vis : list PoseKey) : nat :=
  length (filter (fun k => negb (visitedHas vis k)) (region initialPiece)).

Definition searchMeasure (initialPiece : Piece) (s : Search) : nat :=
  (unvisited initialPiece (visited s) + length (queue s))%nat.

(** The pose [(x, y, r)] of kind [type] does not collide with the grid. *)
Definition freePose (g : Grid) (type : nat) (k : PoseKey) : Prop :=
  let '(x, y, r) := k in
  collidesWithGrid g (mkPiece type r x y) 0 0 0 = Ok false.

(** A pose that an action of the search produces. *)
Definition goodPiece (g : Grid) (initialPiece : Piece) (p : Piece) : Prop :=
  ptype p = ptype initialPiece /\ (rotation p < 4)%nat /\
  yLow (py initialPiece) <= py p /\ freePose g (ptype initialPiece) (getPieceKey p).

(** A piece waiting in the queue. *)
Definition queued (initialPiece p : Piece) : Prop :=
  ptype p = ptype initialPiece /\ (rotation p < 4)%nat /\
  yLow (py initialPiece) <= py p.

(** A pose in the visited set: it lies in the region, and it is the
    starting pose or it does not collide. *)
Definition visitedOk (g : Grid) (initialPiece : Piece) (k : PoseKey) : Prop :=
  In k (region initialPiece) /\
  (k = getPieceKey initialPiece \/ freePose g (ptype initialPiece) k).

(** The invariant of the search loop. *)
Definition searchInv (g : Grid) (initialPiece : Piece) (s : Search) : Prop :=
  Forall (fun n => queued initialPiece (npiece n)) (queue s) /\
  NoDup (visited s) /\
  Forall (visitedOk g initialPiece) (visited s) /\
  (bestPath s = None -> bestTarget s = None).

(** A result that is a value with property [P], or a lack of fuel that
    [Starved] explains; never [TypeError]. *)
Definition okOr {A : Type} (P : A -> Prop) (Starved : Prop) (r : result A) : Prop :=
  (exists a, r = Ok a /\ P a) \/ (r = OutOfFuel /\ Starved).


(** * The game of [game.js]

    The state object of [createInitialState], without [dropTickStart]
    (a wall-clock stamp).  [gGrid], [gBlock], [gNext] and [gDrought] are the
    fields [grid], [Block], [Next] and [iPieceDrought]; [gBlock] is [None]
    when the block object has no [type], [gNext] is [None] when
    [Next.type] is [undefined].  [level] is the integer that the caller
    passes as [startLevel], plus the level-ups; [speed] is [None] when the
    gravity table has given [undefined]. *)

Record Game : Type := mkGame {
  pieceQueue : list nat;
  pieceQueueIndex : nat;
  gGrid : Grid;
  gNext : option nat;
  gBlock : option Piece;
  ghostPiece : option Piece;
  linesBeingCleared : option (list nat);
  gameOver : bool;
  score : Z;
  lines : Z;
  level : Z;
  speed : option Z;
  softDrop : Z;
  levelUp : Z;
  gDrought : Z
}.

Definition setPieceQueueIndex (g : Game) (v : nat) : Game :=
  mkGame (pieceQueue g) v (gGrid g) (gNext g) (gBlock g) (ghostPiece g) (linesBeingCleared g) (gameOver g) (score g) (lines g) (level g) (speed g) (softDrop g) (levelUp g) (gDrought g).

Definition setGrid (g : Game) (v : Grid) : Game :=
  mkGame (pieceQueue g) (pieceQueueIndex g) v (gNext g) (gBlock g) (ghostPiece g) (linesBeingCleared g) (gameOver g) (score g) (lines g) (level g) (speed g) (softDrop g) (levelUp g) (gDrought g).

Definition setNext (g : Game) (v : option nat) : Game :=
  mkGame (pieceQueue g) (pieceQueueIndex g) (gGrid g) v (gBlock g) (ghostPiece g) (linesBeingCleared g) (gameOver g) (score g) (lines g) (level g) (speed g) (softDrop g) (levelUp g) (gDrought g).

Definition setBlock (g : Game) (v : option Piece) : Game :=
  mkGame (pieceQueue g) (pieceQueueIndex g) (gGrid g) (gNext g) v (ghostPiece g) (linesBeingCleared g) (gameOver g) (score g) (lines g) (level g) (speed g) (softDrop g) (levelUp g) (gDrought g).

Definition setGhost (g : Game) (v : option Piece) : Game :=
  mkGame (pieceQueue g) (pieceQueueIndex g) (gGrid g) (gNext g) (gBlock g) v (linesBeingCleared g) (gameOver g) (score g) (lines g) (level g) (speed g) (softDrop g) (levelUp g) (gDrought g).

Definition setLinesBeingCleared (g : Game) (v : option (list nat)) : Game :=
  mkGame (pieceQueue g) (pieceQueueIndex g) (gGrid g) (gNext g) (gBlock g) (ghostPiece g) v (gameOver g) (score g) (lines g) (level g) (speed g) (softDrop g) (levelUp g) (gDrought g).

Definition setGameOver (g : Game) (v : bool) : Game :=
  mkGame (pieceQueue g) (pieceQueueIndex g) (gGrid g) (gNext g) (gBlock g) (ghostPiece g) (linesBeingCleared g) v (score g) (lines g) (level g) (speed g) (softDrop g) (levelUp g) (gDrought g).

Definition setScore (g : Game) (v : Z) : Game :=
  mkGame (pieceQueue g) (pieceQueueIndex g) (gGrid g) (gNext g) (gBlock g) (ghostPiece g) (linesBeingCleared g) (gameOver g) v (lines g) (level g) (speed g) (softDrop g) (levelUp g) (gDrought g).

Definition setLines (g : Game) (v : Z) : Game :=
  mkGame (pieceQueue g) (pieceQueueIndex g) (gGrid g) (gNext g) (gBlock g) (ghostPiece g) (linesBeingCleared g) (gameOver g) (score g) v (level g) (speed g) (softDrop g) (levelUp g) (gDrought g).

Definition setLevel (g : Game) (v : Z) : Game :=
  mkGame (pieceQueue g) (pieceQueueIndex g) (gGrid g) (gNext g) (gBlock g) (ghostPiece g) (linesBeingCleared g) (gameOver g) (score g) (lines g) v (speed g) (softDrop g) (levelUp g) (gDrought g).

Definition setSpeed (g : Game) (v : option Z) : Game :=
  mkGame (pieceQueue g) (pieceQueueIndex g) (gGrid g) (gNext g) (gBlock g) (ghostPiece g) (linesBeingCleared g) (gameOver g) (score g) (lines g) (level g) v (softDrop g) (levelUp g) (gDrought g).

Definition setSoftDrop (g : Game) (v : Z) : Game :=
  mkGame (pieceQueue g) (pieceQueueIndex g) (gGrid g) (gNext g) (gBlock g) (ghostPiece g) (linesBeingCleared g) (gameOver g) (score g) (lines g) (level g) (speed g) v (levelUp g) (gDrought g).

Definition setLevelUp (g : Game) (v : Z) : Game :=
  mkGame (pieceQueue g) (pieceQueueIndex g) (gGrid g) (gNext g) (gBlock g) (ghostPiece g) (linesBeingCleared g) (gameOver g) (score g) (lines g) (level g) (speed g) (softDrop g) v (gDrought g).

Definition setDrought (g : Game) (v : Z) : Game :=
  mkGame (pieceQueue g) (pieceQueueIndex g) (gGrid g) (gNext g) (gBlock g) (ghostPiece g) (linesBeingCleared g) (gameOver g) (score g) (lines g) (level g) (speed g) (softDrop g) (levelUp g) v.

(** What [findBestMove] reads of the game state. *)
Definition aiView (g : Game) : State :=
  mkState (gGrid g) (gBlock g) (gNext g) (gDrought g).

(** The active block does not collide where it stands. *)
Definition freePiece (grid : Grid) (p : Piece) : Prop :=
  collidesWithGrid grid p 0 0 0 = Ok false.

(** The tables and constants of [data.js] that only [game.js] reads: the
    square kind, the gravity table, and the kick entries [[x, y, r]] with
    their third component, the turn; [ai.js] reads the first two components
    of the same entries. *)
Variable BLOCK_O : nat.
Variable gravityAtLevel : list Z.
Variables rotIleftE rotIrightE rotJLTSZleftE rotJLTSZrightE
  : list (list (Z * Z * nat)).

(** The [[x, y]] part of a kick table. *)
Definition kickOffsets (table : list (list (Z * Z * nat))) : list (list (Z * Z)) :=
  map (map fst) table.

(** The loop of [calculateGhostPosition]. *)
Fixpoint ghostLoop (fuel : nat) (grid : Grid) (block : Piece) (ghostY : Z)
    : result Z :=
  match fuel with
  | O => OutOfFuel
  | S fuel' =>
      c <- collidesWithGrid grid
             (mkPiece (ptype block) (rotation block) (px block) (ghostY + 1)) 0 0 0 ;;
      if c then Ok ghostY else ghostLoop fuel' grid block (ghostY + 1)
  end.

Definition calculateGhostPosition (fuel : nat) (block : Piece) (grid : Grid)
    : result Z :=
  ghostLoop fuel grid block (py block).

Definition updateGhostPiece (fuel : nat) (g : Game) : result Game :=
  match gBlock g with
  | None => Ok (setGhost g None)
  | Some block =>
      ghostY <- calculateGhostPosition fuel block (gGrid g) ;;
      Ok (setGhost g (Some (mkPiece (ptype block) (rotation block) (px block) ghostY)))
  end.

(** [grid[row][col] = v] of [lockBlock], for [0 <= row]: a missing row
    raises; a negative [col] names a property outside the cells of the
    row, which stay as they are. *)
Definition gridWrite (grid : Grid) (row col : Z) (v : nat) : result Grid :=
  match nth_error grid (Z.to_nat row) with
  | None => TypeError
  | Some _ =>
      if col <? 0 then Ok grid
      else gridSet grid (Z.to_nat row) (Z.to_nat col) v
  end.

(** The loop of [lockBlock]: only [row >= 0] is tested. *)
Fixpoint lockBlockLoop (grid : Grid) (shape : Shape) (x y : Z) (type : nat)
    : result Grid :=
  match shape with
  | [] => Ok grid
  | coord :: rest =>
      let col := x + fst coord in
      let row := y + snd coord in
      if 0 <=? row then
        g <- gridWrite grid row col (S type) ;;
        lockBlockLoop g rest x y type
      else lockBlockLoop grid rest x y type
  end.

Definition lockBlock (g : Game) : result Game :=
  let g := setScore g (score g + softDrop g) in
  let g := setSoftDrop g 0 in
  let g := setDrought g (gDrought g + 1) in
  match gBlock g with
  | None => TypeError
  | Some block =>
      shape <- shapeOf (ptype block) (rotation block) ;;
      grid' <- lockBlockLoop (gGrid g) shape (px block) (py block) (ptype block) ;;
      Ok (setGrid g grid')
  end.

(** The loop [for (r = 0; r < GRID_HEIGHT; r++)] of [placePiece], collecting
    the indices of the full rows. *)
Fixpoint linesLoop (grid : Grid) (r : nat) (n : nat) (linesToClear : list nat)
    : result (list nat) :=
  match n with
  | O => Ok linesToClear
  | S n' =>
      row <- gridRow grid (Z.of_nat r) ;;
      linesLoop grid (S r) n'
        (if rowFull row then linesToClear ++ [r] else linesToClear)
  end.

Definition linesToClear (grid : Grid) : result (list nat) :=
  linesLoop grid 0 (Z.to_nat GRID_HEIGHT) [].

(** [gravityAtLevel[level]]: [undefined] outside the table, and so at a
    negative level. *)
Definition gravityAt (level : Z) : option Z :=
  if level <? 0 then None else nth_error gravityAtLevel (Z.to_nat level).

(** The [switch (clearedCount)] of [placePiece].  The level is the integer
    that [createInitialState] was given, raised by the level-ups: nothing
    keeps it from being negative. *)
Definition clearPoints (clearedCount : nat) (level : Z) : Z :=
  match clearedCount with
  | 1%nat => 40 * (level + 1)
  | 2%nat => 100 * (level + 1)
  | 3%nat => 300 * (level + 1)
  | 4%nat => 1200 * (level + 1)
  | _ => 0
  end.

Definition startX : Z := 3.
Definition startY : Z := 2.

Definition spawnBlock (fuel : nat) (g : Game) : result Game :=
  let index := S (pieceQueueIndex g) in
  let index := if (length (pieceQueue g) <=? index)%nat then 0%nat else index in
  let g := setPieceQueueIndex g index in
  let nextPieceType := nth_error (pieceQueue g) index in
  match gNext g with
  | None => TypeError
  | Some type =>
      c <- collidesWithGrid (gGrid g) (mkPiece type 0 startX startY) 0 0 0 ;;
      if c then
        updateGhostPiece fuel (setBlock (setGameOver g true) None)
      else
        updateGhostPiece fuel
          (setNext (setBlock g (Some (mkPiece type 0 startX startY))) nextPieceType)
  end.

Definition createInitialState (fuel : nat) (startLevel : Z) (queue : list nat)
    : result Game :=
  spawnBlock fuel
    (mkGame queue 0 createEmptyGrid (nth_error queue 0) None None None false
       0 0 startLevel
       (Some (match gravityAt startLevel with
              | Some v => if v =? 0 then 50 else v
              | None => 50
              end))
       0 (startLevel * 10 + 10) 0).

Definition placePiece (fuel : nat) (g : Game) : result Game :=
  g <- lockBlock g ;;
  ls <- linesToClear (gGrid g) ;;
  match ls with
  | [] => spawnBlock fuel g
  | _ :: _ =>
      let g :=
        match gBlock g with
        | Some block => if Nat.eqb (ptype block) BLOCK_I then setDrought g 0 else g
        | None => g
        end in
      let g := setLinesBeingCleared g (Some ls) in
      let clearedCount := length ls in
      let g := setScore g (score g + clearPoints clearedCount (level g)) in
      let g := setLines g (lines g + Z.of_nat clearedCount) in
      if levelUp g <=? lines g then
        let g := setLevel g (level g + 1) in
        let g := setLevelUp g (levelUp g + 10) in
        Ok (setSpeed g (if level g <? Z.of_nat (length gravityAtLevel)
                        then gravityAt (level g)
                        else Some 50))
      else Ok g
  end.

(** [sort((a, b) => b - a)]: descending order. *)
Fixpoint insertDescending (a : nat) (l : list nat) : list nat :=
  match l with
  | [] => [a]
  | b :: rest => if (b <? a)%nat then a :: l else b :: insertDescending a rest
  end.

Definition sortDescending (l : list nat) : list nat :=
  fold_right insertDescending [] l.

(** [grid.splice(rowIndex, 1)] *)
Definition splice1 (grid : Grid) (rowIndex : nat) : Grid :=
  firstn rowIndex grid ++ skipn (S rowIndex) grid.

(** The loop that unshifts one blank row per cleared line. *)
Fixpoint unshiftBlank (n : nat) (grid : Grid) : Grid :=
  match n with
  | O => grid
  | S n' => unshiftBlank n' (BLANK_ROW :: grid)
  end.

(** What [finishLineClear] does to the grid. *)
Definition removeLines (grid : Grid) (ls : list nat) : Grid :=
  unshiftBlank (length ls) (fold_left splice1 (sortDescending ls) grid).

Definition finishLineClear (fuel : nat) (g : Game) : result Game :=
  match linesBeingCleared g with
  | None => Ok g
  | Some ls =>
      spawnBlock fuel (setLinesBeingCleared (setGrid g (removeLines (gGrid g) ls)) None)
  end.

Definition applyGravity (fuel : nat) (g : Game) : result Game :=
  match gBlock g with
  | None => TypeError
  | Some block =>
      c <- collidesWithGrid (gGrid g) block 0 1 0 ;;
      if c then placePiece fuel g
      else Ok (setBlock g (Some (mkPiece (ptype block) (rotation block) (px block)
                                         (py block + 1))))
  end.

Definition moveLeft (fuel : nat) (g : Game) : result Game :=
  match gBlock g with
  | None => TypeError
  | Some block =>
      c <- collidesWithGrid (gGrid g) block (-1) 0 0 ;;
      if c then Ok g
      else updateGhostPiece fuel
             (setBlock g (Some (mkPiece (ptype block) (rotation block)
                                        (px block - 1) (py block))))
  end.

Definition moveRight (fuel : nat) (g : Game) : result Game :=
  match gBlock g with
  | None => TypeError
  | Some block =>
      c <- collidesWithGrid (gGrid g) block 1 0 0 ;;
      if c then Ok g
      else updateGhostPiece fuel
             (setBlock g (Some (mkPiece (ptype block) (rotation block)
                                        (px block + 1) (py block))))
  end.

Definition moveDown (g : Game) : result Game :=
  match gBlock g with
  | None => TypeError
  | Some block =>
      c <- collidesWithGrid (gGrid g) block 0 1 0 ;;
      if c then Ok g
      else Ok (setSoftDrop
                 (setBlock g (Some (mkPiece (ptype block) (rotation block) (px block)
                                            (py block + 1))))
                 (softDrop g + 1))
  end.

(** [rotate(state, srsArray)] on a state that has a block. *)
Fixpoint rotate (fuel : nat) (g : Game) (block : Piece)
    (srsArray : list (Z * Z * nat)) : result Game :=
  match srsArray with
  | [] => Ok g
  | (x, y, r) :: rest =>
      c <- collidesWithGrid (gGrid g) block x y r ;;
      if c then rotate fuel g block rest
      else updateGhostPiece fuel
             (setBlock g (Some (mkPiece (ptype block) ((rotation block + r) mod 4)%nat
                                        (px block + x) (py block + y))))
  end.

Definition rotateWith (fuel : nat) (g : Game)
    (srsI srsJLTSZ : list (list (Z * Z * nat))) : result Game :=
  match gBlock g with
  | None => Ok g
  | Some block =>
      if Nat.eqb (ptype block) BLOCK_O then Ok g
      else
        let srs := if Nat.eqb (ptype block) BLOCK_I then srsI else srsJLTSZ in
        match nth_error srs (rotation block) with
        | None => TypeError
        | Some srsArray => rotate fuel g block srsArray
        end
  end.

Definition rotateLeft (fuel : nat) (g : Game) : result Game :=
  rotateWith fuel g rotIleftE rotJLTSZleftE.

Definition rotateRight (fuel : nat) (g : Game) : result Game :=
  rotateWith fuel g rotIrightE rotJLTSZrightE.

Definition hardDrop (fuel : nat) (g : Game) : result Game :=
  match gBlock g with
  | None => Ok g
  | Some block =>
      ghostY <- calculateGhostPosition fuel block (gGrid g) ;;
      let cellsDropped := ghostY - py block in
      let g := setScore g (score g + cellsDropped * 2) in
      placePiece fuel
        (setBlock g (Some (mkPiece (ptype block) (rotation block) (px block) ghostY)))
  end.

(** [GameInstance.handleAiAction] *)
Definition handleAiAction (fuel : nat) (action : Action) (g : Game) : result Game :=
  match action with
  | moveL => moveLeft fuel g
  | moveR => moveRight fuel g
  | rotateL => rotateLeft fuel g
  | rotateR => rotateRight fuel g
  | softD => moveDown g
  | hardD => hardDrop fuel g
  end.

(** The indices of the full rows of [post], counted from [start]: what
    [linesToClear] collects. *)
Fixpoint fullRowsFrom (post : Grid) (start : nat) : list nat :=
  match post with
  | [] => []
  | row :: rest =>
      if rowFull row then start :: fullRowsFrom rest (S start)
      else fullRowsFrom rest (S start)
  end.

(** The largest vertical kick of the entries that [game.js] reads. *)
Definition maxKickE : Z :=
  fold_right Z.max 0
    (map (fun e => Z.abs (snd (fst e)))
         (concat (concat [rotIleftE; rotIrightE; rotJLTSZleftE; rotJLTSZrightE]))).

(** Every kick table of [game.js] has a list for each rotation state. *)
Definition kicksCompleteE : bool :=
  forallb (fun table : list (list (Z * Z * nat)) => (4 <=? length table)%nat)
          [rotIleftE; rotIrightE; rotJLTSZleftE; rotJLTSZrightE].

(** A block in play: of a known kind, in one of the four rotation states,
    and not colliding. *)
Definition liveBlock (grid : Grid) (p : Piece) : Prop :=
  (ptype p < length blockCoords)%nat /\ (rotation p < 4)%nat /\ freePiece grid p.

(** The state that the game keeps between two calls: a 24 x 10 grid, a
    queue of known kinds with the next piece read from it while the game
    runs, no block once the game is over, and either a live block or, while
    a line clear is pending, the list of the full rows. *)
Definition gameOk (g : Game) : Prop :=
  wf_grid (gGrid g) /\
  Forall (fun t => (t < length blockCoords)%nat) (pieceQueue g) /\
  (forall t, gNext g = Some t -> (t < length blockCoords)%nat) /\
  (gameOver g = false ->
   (pieceQueueIndex g < length (pieceQueue g))%nat /\
   gNext g = nth_error (pieceQueue g) (pieceQueueIndex g)) /\
  (gameOver g = true -> gBlock g = None) /\
  match linesBeingCleared g with
  | None => forall p, gBlock g = Some p -> liveBlock (gGrid g) p
  | Some ls => gameOver g = false /\ linesToClear (gGrid g) = Ok ls
  end.

(** Fuel that is enough for the ghost projections of one operation on a
    block standing at row [y]. *)
Definition gameFuel (y : Z) : nat :=
  Z.to_nat (GRID_HEIGHT + maxOffset + maxKickE - Z.min y 0).

(** What [spawnBlock] leaves of [g] in [g']: the grid as it was, and either
    the game over, without a block, because the piece shown as next collides
    at the start position, or that piece as the block, free at the start
    position, with the next kind read from the queue at the new index. *)
Definition spawned (g g' : Game) : Prop :=
  exists type : nat,
    gNext g = Some type /\
    gGrid g' = gGrid g /\
    ((gameOver g' = true /\ gBlock g' = None /\
      collidesWithGrid (gGrid g) (mkPiece type 0 startX startY) 0 0 0 = Ok true) \/
     (gameOver g' = gameOver g /\
      gBlock g' = Some (mkPiece type 0 startX startY) /\
      gNext g' = nth_error (pieceQueue g) (pieceQueueIndex g') /\
      collidesWithGrid (gGrid g) (mkPiece type 0 startX startY) 0 0 0 = Ok false)).

(** ** The plan of the search, run by the game

    The executing phase of [updateGame] shifts the actions of the path off
    [aiMoveQueue] and hands them to [handleAiAction] in their order. *)
Fixpoint replay (fuel : nat) (acts : list Action) (g : Game) : result Game :=
  match acts with
  | [] => Ok g
  | a :: rest => g' <- handleAiAction fuel a g ;; replay fuel rest g'
  end.

(** Every entry of a kick table has the turn [r] as its third component. *)
Definition turnIs (r : nat) (table : list (list (Z * Z * nat))) : Prop :=
  Forall (Forall (fun e : Z * Z * nat => snd e = r)) table.

(** What [ai.js] takes for granted of [data.js]: the square is kind 3, the
    kick tables it reads are those of [game.js], and the turn of an entry is
    1 in the tables to the right and 3 in the tables to the left, the values
    that [simulateRotation] writes out. *)
Definition tablesAgree : Prop :=
  BLOCK_O = 3%nat /\
  (rotIright = kickOffsets rotIrightE /\ rotIleft = kickOffsets rotIleftE /\
   rotJLTSZright = kickOffsets rotJLTSZrightE /\
   rotJLTSZleft = kickOffsets rotJLTSZleftE) /\
  (turnIs 1 rotIrightE /\ turnIs 1 rotJLTSZrightE) /\
  (turnIs 3 rotIleftE /\ turnIs 3 rotJLTSZleftE).

(** [tracks g p0 acts q]: the search, started at [p0], reaches the pose [q]
    along [acts], each action being one that the [actions] array of the
    pose before it allows. *)
Inductive tracks (g : Grid) (p0 : Piece) : list Action -> Piece -> Prop :=
| tracks_nil : tracks g p0 [] p0
| tracks_snoc (acts : list Action) (p : Piece) (a : Action) (q : Piece)
    (arr : list (Action * option Piece)) :
    tracks g p0 acts p ->
    actions g p = Ok arr ->
    In (a, Some q) arr ->
    tracks g p0 (acts ++ [a]) q.

(** The paths that the search holds are tracks, and the best target rests
    at the end of the best path without its final [hardD]. *)
Definition pathInv (g : Grid) (p0 : Piece) (s : Search) : Prop :=
  Forall (fun n => tracks g p0 (npath n) (npiece n)) (queue s) /\
  match bestTarget s with
  | None => True
  | Some t =>
      exists acts, bestPath s = Some (acts ++ [hardD]) /\
                   tracks g p0 acts t /\
                   collidesWithGrid g t 0 1 0 = Ok true
  end.

(** ** What the finished search knows

    [poseDone]: the search has taken the pose [q] off the queue: the poses
    that the [actions] array of [q] allows are visited, and if [q] rests its
    score was compared with the best score, which it does not beat. *)
Definition poseDone (fuel : nat) (state : State) (strategy : string)
    (weights : Weights) (s : Search) (q : Piece) : Prop :=
  (forall arr a q', actions (grid state) q = Ok arr -> In (a, Some q') arr ->
     In (getPieceKey q') (visited s)) /\
  (forall sc, collidesWithGrid (grid state) q 0 1 0 = Ok true ->
     scoreCandidate fuel state strategy weights q = Ok sc ->
     jslt sc (bestScore s) = false).

(** The start pose is visited; every visited pose of the kind of the block
    waits in the queue or is done; and the best score is the score of the
    best target, [Infinity] while there is none. *)
Definition bestInv (fuel : nat) (state : State) (strategy : string)
    (weights : Weights) (p0 : Piece) (s : Search) : Prop :=
  In (getPieceKey p0) (visited s) /\
  Forall (fun n => ptype (npiece n) = ptype p0) (queue s) /\
  (forall q, ptype q = ptype p0 -> In (getPieceKey q) (visited s) ->
     (exists n, In n (queue s) /\ npiece n = q) \/
     poseDone fuel state strategy weights s q) /\
  match bestTarget s with
  | None => bestScore s = PInf
  | Some t => collidesWithGrid (grid state) t 0 1 0 = Ok true /\
              scoreCandidate fuel state strategy weights t = Ok (bestScore s) /\
              jslt (bestScore s) PInf = true
  end.

(** ** Counting cells

    The cells of column [c] from the top row down, as truth values, and the
    number of occupied cells of the ten columns. *)
Definition columnCells (g : Grid) (c : Z) : list bool :=
  map (fun row => rowCell row c) g.

Definition filledInColumn (g : Grid) (c : Z) : Z :=
  Z.of_nat (length (filter (fun b : bool => b) (columnCells g c))).

Definition filledCells (g : Grid) : Z :=
  fold_left (fun sum c => sum + filledInColumn g c) columns 0.

(** ** Weight vectors with the keys of the well evaluation *)

(** No row of the grid passes the test of the line clear. *)
Definition noFullRow (g : Grid) : bool :=
  forallb (fun row => negb (rowFull row)) g.

(** Every row of the grid has an empty cell. *)
Definition rowsOpen (g : Grid) : Prop :=
  forall row, In row g -> In 0%nat row.

(** ** A sample instance of the tables of [game.js], and sample games *)

Definition sampleBLOCK_O : nat := 3.

Definition sampleGravityAtLevel : list Z := [48; 43; 38; 33; 28; 23; 18; 13; 8; 6].

(** The kick entries [[x, y, r]] of a table whose turn is [r] throughout. *)
Definition withTurn (r : nat) (table : list (list (Z * Z)))
    : list (list (Z * Z * nat)) :=
  map (map (fun c : Z * Z => (c, r))) table.

Definition sampleRotIrightE : list (list (Z * Z * nat)) := withTurn 1 sampleRotIright.
Definition sampleRotIleftE : list (list (Z * Z * nat)) := withTurn 3 sampleRotIleft.
Definition sampleRotJLTSZrightE : list (list (Z * Z * nat)) :=
  withTurn 1 sampleRotJLTSZright.
Definition sampleRotJLTSZleftE : list (list (Z * Z * nat)) :=
  withTurn 3 sampleRotJLTSZleft.

Definition sampleQueue : list nat := [5; 0; 1; 2; 3; 4; 6]%nat.

(** The game that [createInitialState] makes of [sampleQueue] at level 0:
    a T piece at the start position over the empty grid. *)
Definition sampleGame : Game :=
  mkGame sampleQueue 1 createEmptyGrid (Some 0%nat) (Some spawnedT)
         (Some (mkPiece 5 0 3 22)) None false 0 0 0 (Some 48) 0 10 0.

(** A game whose bottom row lacks its four cells on the right, with a flat
    I piece in column [x] of row 2. *)
Definition sampleLineGrid : Grid := gridOfHeights [1; 1; 1; 1; 1; 1; 0; 0; 0; 0].

Definition sampleLineGameAt (x : Z) : Game :=
  mkGame sampleQueue 1 sampleLineGrid (Some 0%nat) (Some (mkPiece 0 0 x 2))
         None None false 0 0 0 (Some 48) 0 10 0.

(** The game after that piece has come to rest in column 6, before its lock:
    the gravity tick that follows locks it and fills the bottom row. *)
Definition sampleRestingGame : Game :=
  mkGame sampleQueue 1 sampleLineGrid (Some 0%nat) (Some (mkPiece 0 0 6 22))
         (Some (mkPiece 0 0 6 22)) None false 0 0 0 (Some 48) 0 10 0.

(** A game between the lock that filled the bottom row and the end of the
    clear animation. *)
Definition samplePendingGame : Game :=
  mkGame sampleQueue 1 oneLineGrid (Some 0%nat) (Some (mkPiece 0 0 6 22))
         (Some (mkPiece 0 0 6 22)) (Some [23%nat]) false 40 1 0 (Some 48) 0 10 0.

(** A board with one hole: three full rows at the bottom, the middle one
    lacking its second cell. *)
Definition sampleHoleGrid : Grid :=
  firstn 22 (gridOfHeights [3; 3; 3; 3; 3; 3; 3; 3; 3; 0])
  ++ [[1; 0; 1; 1; 1; 1; 1; 1; 1; 0]%nat]
  ++ skipn 23 (gridOfHeights [3; 3; 3; 3; 3; 3; 3; 3; 3; 0]).

(** ** The breadth-first order of the search *)

(** [acts] is a track to [q] and no track to [q] is shorter. *)
Definition shortestTrack (g : Grid) (p0 : Piece) (acts : list Action) (q : Piece)
    : Prop :=
  tracks g p0 acts q /\
  forall acts', tracks g p0 acts' q -> (length acts <= length acts')%nat.

(** The poses that the [actions] array of [q] allows are visited. *)
Definition successorsVisited (g : Grid) (vis : list PoseKey) (q : Piece) : Prop :=
  forall arr a q', actions g q = Ok arr -> In (a, Some q') arr ->
    In (getPieceKey q') vis.

(** The queue at level [L]: paths of length [L] and then paths of length
    [L + 1], each a shortest track to its pose; the poses within [L] actions
    of the start are visited, those within less than [L] are done; and the
    best path, without its [hardD], is a shortest track to the best
    target. *)
Definition bfsInv (g : Grid) (p0 : Piece) (L : nat) (s : Search) : Prop :=
  In (getPieceKey p0) (visited s) /\
  (exists A B, queue s = A ++ B /\
               Forall (fun n => length (npath n) = L) A /\
               Forall (fun n => length (npath n) = S L) B) /\
  Forall (fun n => shortestTrack g p0 (npath n) (npiece n) /\
                   In (getPieceKey (npiece n)) (visited s)) (queue s) /\
  (forall q, ptype q = ptype p0 -> In (getPieceKey q) (visited s) ->
     (exists n, In n (queue s) /\ npiece n = q) \/
     successorsVisited g (visited s) q) /\
  (forall acts q, tracks g p0 acts q -> (length acts < L)%nat ->
     successorsVisited g (visited s) q) /\
  (forall acts q, tracks g p0 acts q -> (length acts <= L)%nat ->
     In (getPieceKey q) (visited s)) /\
  match bestTarget s with
  | None => True
  | Some t => exists acts, bestPath s = Some (acts ++ [hardD]) /\
                           shortestTrack g p0 acts t
  end.

(** * The player of [index.tsx]

    A [GameInstance] without its canvas and its clocks.  [updateGame]
    compares [Date.now()] with [clearStartTime] and with
    [aiNextActionTime]; the outcome of the two comparisons is an input of
    the tick: [clearElapsed] says that the clear delay is over, [ready] that
    the time of the next action has come. *)

Inductive AiState : Type := PLANNING | EXECUTING.

Record GameInstance : Type := mkInstance {
  gstate : Game;
  istrategy : string;
  iweights : Weights;
  isClearing : bool;
  aiState : AiState;
  aiMoveQueue : list Action;
  aiTargetPiece : option Piece;
  aiActionInProgress : bool;
  aiCurrentActionType : option Action;
  aiCurrentActionCount : Z
}.

Definition resetAiExecutionState (game : GameInstance) : GameInstance :=
  mkInstance (gstate game) (istrategy game) (iweights game) (isClearing game)
             PLANNING [] None false None 0.

Definition actionEqb (a b : Action) : bool :=
  match a, b with
  | moveL, moveL | moveR, moveR | softD, softD
  | rotateR, rotateR | rotateL, rotateL | hardD, hardD => true
  | _, _ => false
  end.

(** [nextMove === 'moveL' || nextMove === 'moveR'] *)
Definition isShift (a : Action) : bool :=
  match a with moveL | moveR => true | _ => false end.

(** The loop [while (aiMoveQueue.length > 0 && aiMoveQueue[0] === nextMove)]:
    the queue that is left and the count. *)
Fixpoint shiftSame (nextMove : Action) (moveQueue : list Action) (moveCount : Z)
    : list Action * Z :=
  match moveQueue with
  | a :: rest =>
      if actionEqb a nextMove then shiftSame nextMove rest (moveCount + 1)
      else (moveQueue, moveCount)
  | [] => (moveQueue, moveCount)
  end.

(** [game.handleAiAction(game.aiCurrentActionType)]: no case of the switch
    matches [null]. *)
Definition handleCurrent (fuel : nat) (type : option Action) (g : Game)
    : result Game :=
  match type with
  | Some a => handleAiAction fuel a g
  | None => Ok g
  end.

Definition updateGame (fuel : nat) (clearElapsed ready : bool) (game : GameInstance)
    : result GameInstance :=
  let '(mkInstance st strat w clearing phase moves tgt prog type count) := game in
  if clearing then
    if clearElapsed then
      st' <- finishLineClear fuel st ;;
      Ok (resetAiExecutionState
            (mkInstance st' strat w false phase moves tgt prog type count))
    else Ok game
  else
    match linesBeingCleared st with
    | Some _ => Ok (mkInstance st strat w true phase [] None prog type count)
    | None =>
        if gameOver st then Ok game
        else if negb ready then Ok game
        else
          match phase with
          | PLANNING =>
              mv <- findBestMove fuel (aiView st) strat w ;;
              Ok (mkInstance st strat w clearing EXECUTING (path mv) (target mv)
                             prog type count)
          | EXECUTING =>
              if prog then
                st' <- handleCurrent fuel type st ;;
                let count' := count - 1 in
                if 0 <? count'
                then Ok (mkInstance st' strat w clearing phase moves tgt prog type
                                    count')
                else Ok (mkInstance st' strat w clearing phase moves tgt false type
                                    count')
              else
                match moves with
                | [] => Ok (mkInstance st strat w clearing PLANNING moves tgt prog
                                       type count)
                | nextMove :: rest =>
                    if isShift nextMove then
                      let '(rest', moveCount) := shiftSame nextMove rest 1 in
                      st' <- handleAiAction fuel nextMove st ;;
                      if 1 <? moveCount
                      then Ok (mkInstance st' strat w clearing phase rest' tgt true
                                          (Some nextMove) (moveCount - 1))
                      else Ok (mkInstance st' strat w clearing phase rest' tgt prog
                                          type count)
                    else
                      st' <- handleAiAction fuel nextMove st ;;
                      Ok (mkInstance st' strat w clearing
                                     (if actionEqb nextMove hardD then PLANNING
                                      else phase)
                                     rest tgt prog type count)
                end
          end
    end.

(** The actions that the player still has to hand to the game: the
    repetitions left of the move in progress, then the queue. *)
Definition pending (game : GameInstance) : list Action :=
  (if aiActionInProgress game then
     match aiCurrentActionType game with
     | Some a => repeat a (Z.to_nat (aiCurrentActionCount game))
     | None => []
     end
   else []) ++ aiMoveQueue game.

(** A move in progress has a type and at least one repetition left. *)
Definition counting (game : GameInstance) : Prop :=
  aiActionInProgress game = true ->
  aiCurrentActionType game <> None /\ 1 <= aiCurrentActionCount game.

(** The player is carrying out a plan on a running game. *)
Definition executing (game : GameInstance) : Prop :=
  isClearing game = false /\ linesBeingCleared (gstate game) = None /\
  gameOver (gstate game) = false /\ aiState game = EXECUTING.

(** Ticks of [updateGame], each from an executing player. *)
Inductive runs (fuel : nat) : GameInstance -> GameInstance -> Prop :=
| runs_refl (game : GameInstance) : runs fuel game game
| runs_tick (game game1 game2 : GameInstance) (clearElapsed ready : bool) :
    executing game ->
    updateGame fuel clearElapsed ready game = Ok game1 ->
    runs fuel game1 game2 ->
    runs fuel game game2.

(** A player that has planned two moves to the left, a soft drop and the
    hard drop for [sampleGame]. *)
Definition samplePlayer : GameInstance :=
  mkInstance sampleGame "survival" BASE_SURVIVAL_WEIGHTS false EXECUTING
             [moveL; moveL; softD; hardD] None false None 0.

(** * The choice of the next baseline in training ([animate])

    What the loop over [games] reads of a game: [state.score],
    [state.lines] and [weights]. *)
Record Trainee : Type := mkTrainee {
  tScore : Z;
  tLines : Z;
  tWeights : Weights
}.

(** [game.state.lines > 0 ? game.state.score / game.state.lines : -1] *)
Definition performance (game : Trainee) : Q :=
  if 0 <? tLines game then inject_Z (tScore game) / inject_Z (tLines game)
  else (- (1))%Q.

(** The loop [for (const game of games)] with [bestGame] and
    [bestPerformance]. *)
Fixpoint bestLoop (games : list Trainee) (bestGame : option Trainee)
    (bestPerformance : Q) : option Trainee * Q :=
  match games with
  | [] => (bestGame, bestPerformance)
  | game :: rest =>
      if Qltb bestPerformance (performance game)
      then bestLoop rest (Some game) (performance game)
      else bestLoop rest bestGame bestPerformance
  end.

(** [baselineWeights] after the training session. *)
Definition newBaseline (games : list Trainee) (baselineWeights : Weights) : Weights :=
  match bestLoop games None (- (1))%Q with
  | (Some bestGame, bestPerformance) =>
      if Qltb (- (1))%Q bestPerformance then tWeights bestGame else baselineWeights
  | (None, _) => baselineWeights
  end.

Definition sampleTrainees : list Trainee :=
  [ mkTrainee 400 0 BASE_SURVIVAL_WEIGHTS;
    mkTrainee 1200 10 BASE_WELL_WEIGHTS;
    mkTrainee 900 5 (setWeight BASE_WELL_WEIGHTS "holes" 5);
    mkTrainee 1800 10 BASE_SURVIVAL_WEIGHTS ].
(** * Properties *)

(** ** Collision test *)

Lemma gridCell_in_range (g : Grid) (row col : Z) :
  length g = Z.to_nat GRID_HEIGHT -> 0 <= row < GRID_HEIGHT ->
  exists r, nth_error g (Z.to_nat row) = Some r /\
            gridCell g row col = Ok (rowCell r col).
Proof.
  intros Hlen Hrow.
  destruct (nth_error g (Z.to_nat row)) as [r|] eqn:E.
  - exists r. split; [reflexivity|].
    unfold gridCell, gridRow.
    destruct (row <? 0) eqn:Hneg; [apply Z.ltb_lt in Hneg; lia|].
    rewrite E. reflexivity.
  - apply nth_error_None in E. unfold GRID_HEIGHT in *. lia.
Qed.

Lemma rowCell_occupied (g : Grid) (r : list nat) (row col : Z) :
  0 <= row -> 0 <= col -> nth_error g (Z.to_nat row) = Some r ->
  rowCell r col = true <-> occupied g row col.
Proof.
  intros Hrow Hcol Hr. unfold rowCell, occupied.
  destruct (col <? 0) eqn:Hneg; [apply Z.ltb_lt in Hneg; lia|].
  split.
  - intros H. apply negb_true_iff, Nat.eqb_neq in H.
    destruct (nth_error r (Z.to_nat col)) as [v|] eqn:E.
    + exists r, v. repeat split; auto.
      rewrite (nth_error_nth _ _ _ E) in H. exact H.
    + apply nth_error_None in E. rewrite nth_overflow in H by exact E.
      congruence.
  - intros (r' & v & Hr' & Hv & Hnz).
    rewrite Hr in Hr'. injection Hr' as <-.
    rewrite (nth_error_nth _ _ _ Hv).
    apply negb_true_iff, Nat.eqb_neq. exact Hnz.
Qed.

Lemma collidesLoop_spec (g : Grid) (shape : Shape) (x y : Z) :
  length g = Z.to_nat GRID_HEIGHT ->
  exists b, collidesLoop g shape x y = Ok b /\
            (b = true <-> Exists (cellCollides g x y) shape).
Proof.
  intros Hlen. induction shape as [|coord rest IH].
  - exists false. split; [reflexivity|]. split; [discriminate|].
    intros H. inversion H.
  - destruct IH as (b & Hb & Hiff). cbn [collidesLoop].
    destruct ((x + fst coord <? 0) || (COLS <=? x + fst coord)
              || (GRID_HEIGHT <=? y + snd coord)) eqn:Hout.
    + exists true. split; [reflexivity|]. split; [|reflexivity].
      intros _. apply Exists_cons_hd. unfold cellCollides. cbn zeta.
      rewrite !orb_true_iff in Hout.
      destruct Hout as [[H|H]|H];
        [apply Z.ltb_lt in H | apply Z.leb_le in H | apply Z.leb_le in H]; lia.
    + rewrite !orb_false_iff in Hout. destruct Hout as [[H1 H2] H3].
      apply Z.ltb_ge in H1. apply Z.leb_gt in H2. apply Z.leb_gt in H3.
      destruct (0 <=? y + snd coord) eqn:Hrow.
      * apply Z.leb_le in Hrow.
        destruct (gridCell_in_range g (y + snd coord) (x + fst coord) Hlen)
          as (r & Hr & Hcell); [lia|].
        rewrite Hcell. cbn [bind].
        pose proof (rowCell_occupied g r _ _ Hrow H1 Hr) as Hocc.
        destruct (rowCell r (x + fst coord)) eqn:Hc.
        -- exists true. split; [reflexivity|]. split; [|reflexivity].
           intros _. apply Exists_cons_hd. unfold cellCollides. cbn zeta.
           right. right. right. split; [lia|]. apply Hocc. reflexivity.
        -- exists b. split; [exact Hb|]. rewrite Hiff. split.
           ++ intros H. apply Exists_cons_tl. exact H.
           ++ intros H. inversion H as [? ? Hhd|? ? Htl]; subst; [|exact Htl].
              unfold cellCollides in Hhd. cbn zeta in Hhd.
              destruct Hhd as [Hh|[Hh|[Hh|[_ Hh]]]]; try lia.
              apply Hocc in Hh. discriminate.
      * apply Z.leb_gt in Hrow.
        exists b. split; [exact Hb|]. rewrite Hiff. split.
        -- intros H. apply Exists_cons_tl. exact H.
        -- intros H. inversion H as [? ? Hhd|? ? Htl]; subst; [|exact Htl].
           unfold cellCollides in Hhd. cbn zeta in Hhd.
           destruct Hhd as [Hh|[Hh|[Hh|[Hh _]]]]; lia.
Qed.

Lemma collidesLoop_hidden (g : Grid) (shape : Shape) (x y : Z) :
  Forall (fun coord => 0 <= x + fst coord < COLS /\ y + snd coord < 0) shape ->
  collidesLoop g shape x y = Ok false.
Proof.
  induction 1 as [|coord rest [Hc Hr] _ IH]; [reflexivity|].
  cbn [collidesLoop]. unfold COLS, GRID_HEIGHT in *.
  destruct (x + fst coord <? 0) eqn:E1; [apply Z.ltb_lt in E1; lia|].
  destruct (10 <=? x + fst coord) eqn:E2; [apply Z.leb_le in E2; lia|].
  destruct (24 <=? y + snd coord) eqn:E3; [apply Z.leb_le in E3; lia|].
  destruct (0 <=? y + snd coord) eqn:E4; [apply Z.leb_le in E4; lia|].
  exact IH.
Qed.

(** C8. On a 24-row grid, [collidesWithGrid] answers [true] exactly when
    some cell of the shape at rotation [(rotation + drot) mod 4], moved by
    [(dx, dy)], has its column outside [0, 10), or its row at 24 or below,
    or lies on an occupied cell at a row >= 0; and whatever the grid holds,
    a piece whose cells all sit in bounds above row 0 does not collide. *)
Theorem collidesWithGrid_iff (g : Grid) (piece : Piece) (dx dy : Z) (drot : nat)
    (shape : Shape) :
  length g = 24%nat ->
  shapeOf (ptype piece) ((rotation piece + drot) mod 4)%nat = Ok shape ->
  (exists b, collidesWithGrid g piece dx dy drot = Ok b /\
     (b = true <->
      Exists (fun coord =>
                let col := px piece + dx + fst coord in
                let row := py piece + dy + snd coord in
                col < 0 \/ 10 <= col \/ 24 <= row \/
                (0 <= row /\ occupied g row col)) shape)) /\
  (forall g' : Grid,
     Forall (fun coord =>
               0 <= px piece + dx + fst coord < 10 /\
               py piece + dy + snd coord < 0) shape ->
     collidesWithGrid g' piece dx dy drot = Ok false).
Proof.
  intros Hlen Hshape. unfold collidesWithGrid. rewrite Hshape. cbn [bind].
  split.
  - exact (collidesLoop_spec g shape _ _ Hlen).
  - intros g' H. apply collidesLoop_hidden. exact H.
Qed.

(** ** Line clearing *)

Lemma gridRow_nth (g : Grid) (r : nat) (row : list nat) :
  nth_error g r = Some row -> gridRow g (Z.of_nat r) = Ok row.
Proof.
  intros H. unfold gridRow.
  destruct (Z.of_nat r <? 0) eqn:E; [apply Z.ltb_lt in E; lia|].
  rewrite Nat2Z.id, H. reflexivity.
Qed.

Lemma firstn_snoc (g : Grid) (r : nat) (row : list nat) :
  nth_error g r = Some row -> firstn (S r) g = firstn r g ++ [row].
Proof.
  revert g. induction r as [|r IH]; intros [|a g] H; try discriminate.
  - cbn in H. injection H as ->. reflexivity.
  - cbn in H.
    change (firstn (S (S r)) (a :: g)) with (a :: firstn (S r) g).
    rewrite (IH g H). reflexivity.
Qed.

Lemma clearLoop_filter (g : Grid) (n : nat) (acc : Grid) (c : Z) :
  (n <= length g)%nat ->
  clearLoop g n acc c =
    Ok (filter (fun r => negb (rowFull r)) (firstn n g) ++ acc,
        c + Z.of_nat (length (filter rowFull (firstn n g)))).
Proof.
  revert acc c. induction n as [|r IH]; intros acc c Hn.
  - cbn. f_equal. f_equal. lia.
  - destruct (nth_error g r) as [row|] eqn:E.
    2:{ apply nth_error_None in E. lia. }
    cbn [clearLoop]. rewrite (gridRow_nth _ _ _ E). cbn [bind].
    rewrite (firstn_snoc _ _ _ E), !filter_app. cbn [filter].
    destruct (rowFull row) eqn:F; cbn [negb]; rewrite IH by lia.
    + rewrite app_nil_r, length_app. cbn [length]. f_equal. f_equal. lia.
    + rewrite <- app_assoc, app_nil_r. reflexivity.
Qed.

Lemma padLoop_repeat (m : nat) (g : Grid) :
  padLoop m g = repeat BLANK_ROW m ++ g.
Proof.
  revert g. induction m as [|m IH]; intros g; [reflexivity|].
  cbn [padLoop]. rewrite IH. change (BLANK_ROW :: g) with ([BLANK_ROW] ++ g).
  rewrite app_assoc, <- repeat_cons. reflexivity.
Qed.

Lemma filter_split_length {A : Type} (f : A -> bool) (l : list A) :
  (length (filter f l) + length (filter (fun x => negb (f x)) l) = length l)%nat.
Proof.
  induction l as [|a l IH]; [reflexivity|].
  cbn [filter]. destruct (f a); cbn [negb length]; lia.
Qed.

Lemma filter_all {A : Type} (f : A -> bool) (l : list A) :
  forallb f l = true -> filter f l = l.
Proof.
  induction l as [|a l IH]; [reflexivity|].
  cbn. intros H. apply andb_true_iff in H as [Ha Hl].
  rewrite Ha, (IH Hl). reflexivity.
Qed.

Lemma filter_none {A : Type} (f : A -> bool) (l : list A) :
  forallb (fun x => negb (f x)) l = true -> filter f l = [].
Proof.
  induction l as [|a l IH]; [reflexivity|].
  cbn. intros H. apply andb_true_iff in H as [Ha Hl].
  apply negb_true_iff in Ha. rewrite Ha. exact (IH Hl).
Qed.

Lemma simulateLineClearing_eq (g : Grid) :
  length g = Z.to_nat GRID_HEIGHT ->
  simulateLineClearing g =
    Ok (repeat BLANK_ROW (length (filter rowFull g))
          ++ filter (fun r => negb (rowFull r)) g,
        Z.of_nat (length (filter rowFull g))).
Proof.
  intros Hlen. unfold simulateLineClearing.
  rewrite clearLoop_filter by lia. cbn [bind].
  rewrite <- Hlen, firstn_all, app_nil_r, padLoop_repeat.
  pose proof (filter_split_length rowFull g) as Hs.
  replace (length g - length (filter (fun r => negb (rowFull r)) g))%nat
    with (length (filter rowFull g)) by lia.
  reflexivity.
Qed.

(** The test of the code, [row.every(cell => cell !== 0)], read on the
    cells: it fails exactly on a row with an empty cell. *)
Lemma rowFull_cells (row : list nat) :
  rowFull row = negb (existsb (Nat.eqb 0%nat) row).
Proof.
  unfold rowFull. induction row as [|c row IH]; [reflexivity|].
  cbn [forallb existsb]. rewrite IH, negb_orb. f_equal.
  destruct c; reflexivity.
Qed.

Lemma rowFull_In (row : list nat) : rowFull row = false <-> In 0%nat row.
Proof.
  rewrite rowFull_cells, negb_false_iff, existsb_exists. split.
  - intros (c & Hin & Hc). apply Nat.eqb_eq in Hc. subst c. exact Hin.
  - intros Hin. exists 0%nat. split; [exact Hin | reflexivity].
Qed.

Lemma filter_ext_eq {A : Type} (f h : A -> bool) (l : list A) :
  (forall x, f x = h x) -> filter f l = filter h l.
Proof.
  intros E. induction l as [|a l IH]; [reflexivity|].
  cbn [filter]. rewrite E, IH. reflexivity.
Qed.

(** C7. On a 24-row grid [simulateLineClearing] returns 24 rows: as many
    blank rows as the grid has rows without an empty cell, which is the
    count it returns, and under them the rows that have an empty cell (a
    cell equal to 0), in their original order; and on a grid in which every
    row has an empty cell it returns the grid itself with a count of 0. *)
Theorem simulateLineClearing_rows (g : Grid) :
  length g = 24%nat ->
  (exists (g' : Grid) (clearedCount : Z),
     simulateLineClearing g = Ok (g', clearedCount) /\
     length g' = 24%nat /\
     clearedCount =
       Z.of_nat (length (filter (fun row => negb (existsb (Nat.eqb 0%nat) row)) g)) /\
     g' = repeat BLANK_ROW (Z.to_nat clearedCount)
            ++ filter (fun row => existsb (Nat.eqb 0%nat) row) g) /\
  ((forall row, In row g -> In 0%nat row) ->
   simulateLineClearing g = Ok (g, 0)).
Proof.
  intros Hlen.
  assert (Hfull : filter rowFull g
                  = filter (fun row => negb (existsb (Nat.eqb 0%nat) row)) g).
  { apply filter_ext_eq, rowFull_cells. }
  assert (Hkept : filter (fun r => negb (rowFull r)) g
                  = filter (fun row => existsb (Nat.eqb 0%nat) row) g).
  { apply filter_ext_eq. intros row. rewrite rowFull_cells. apply negb_involutive. }
  split.
  - eexists _, _. split; [apply simulateLineClearing_eq; exact Hlen|].
    split; [|split].
    + rewrite length_app, repeat_length, filter_split_length. exact Hlen.
    + rewrite Hfull. reflexivity.
    + rewrite Nat2Z.id, Hkept. reflexivity.
  - intros Hopen. rewrite simulateLineClearing_eq by exact Hlen.
    assert (Hnone : forallb (fun r => negb (rowFull r)) g = true).
    { apply forallb_forall. intros row Hin. apply negb_true_iff, rowFull_In.
      exact (Hopen row Hin). }
    rewrite (filter_none _ _ Hnone), (filter_all _ _ Hnone). reflexivity.
Qed.

(** ** The metrics never raise on a 24-row grid *)

Lemma gridCell_ok (g : Grid) (row col : Z) :
  length g = Z.to_nat GRID_HEIGHT -> 0 <= row < GRID_HEIGHT ->
  exists b, gridCell g row col = Ok b.
Proof.
  intros Hlen Hrow.
  destruct (gridCell_in_range g row col Hlen Hrow) as (r & _ & H).
  eauto.
Qed.

Lemma columnHeightFrom_ok (g : Grid) (c r : Z) (n : nat) :
  length g = Z.to_nat GRID_HEIGHT -> 0 <= r -> r + Z.of_nat n <= GRID_HEIGHT ->
  exists h, columnHeightFrom g c r n = Ok h /\ 0 <= h <= GRID_HEIGHT.
Proof.
  intros Hlen. revert r. induction n as [|n IH]; intros r Hr Hn.
  - exists 0. split; [reflexivity|]. unfold GRID_HEIGHT. lia.
  - cbn [columnHeightFrom].
    destruct (gridCell_ok g r c Hlen) as [b Hb]; [lia|].
    rewrite Hb. cbn [bind]. destruct b.
    + eexists. split; [reflexivity|]. lia.
    + apply IH; lia.
Qed.

Lemma mapM_ok {A B : Type} (f : A -> result B) (P : B -> Prop) (l : list A) :
  (forall a, In a l -> exists b, f a = Ok b /\ P b) ->
  exists bs, mapM f l = Ok bs /\ length bs = length l /\ Forall P bs.
Proof.
  induction l as [|a l IH]; intros H.
  - exists []. repeat split. constructor.
  - destruct (H a (or_introl eq_refl)) as (b & Hb & Pb).
    destruct IH as (bs & Hbs & Hlen & HP).
    { intros a' Ha'. apply H. right. exact Ha'. }
    exists (b :: bs). cbn [mapM]. rewrite Hb. cbn [bind].
    change ((fix go (l0 : list A) : result (list B) :=
               match l0 with
               | [] => Ok []
               | a0 :: rest => b0 <- f a0 ;; bs0 <- go rest ;; Ok (b0 :: bs0)
               end) l) with (mapM f l).
    rewrite Hbs. cbn [bind]. repeat split.
    + cbn. lia.
    + constructor; assumption.
Qed.

Lemma getColumnHeights_ok (g : Grid) :
  length g = Z.to_nat GRID_HEIGHT ->
  exists heights, getColumnHeights g = Ok heights /\
                  length heights = 10%nat /\
                  Forall (fun h => 0 <= h <= GRID_HEIGHT) heights.
Proof.
  intros Hlen. unfold getColumnHeights.
  apply (mapM_ok _ (fun h => 0 <= h <= GRID_HEIGHT) columns).
  intros c _. apply columnHeightFrom_ok; [exact Hlen|lia|].
  rewrite Z2Nat.id; unfold GRID_HEIGHT; lia.
Qed.

Lemma holesFrom_ok (g : Grid) (c r : Z) (n : nat) (found : bool) (holes : Z) :
  length g = Z.to_nat GRID_HEIGHT -> 0 <= r -> r + Z.of_nat n <= GRID_HEIGHT ->
  exists h, holesFrom g c r n found holes = Ok h.
Proof.
  intros Hlen. revert r found holes.
  induction n as [|n IH]; intros r found holes Hr Hn.
  - eexists. reflexivity.
  - cbn [holesFrom].
    destruct (gridCell_ok g r c Hlen) as [b Hb]; [lia|].
    rewrite Hb. cbn [bind]. destruct b; [|destruct found]; apply IH; lia.
Qed.

Lemma holesColumns_ok (g : Grid) (cs : list Z) (holes : Z) :
  length g = Z.to_nat GRID_HEIGHT -> exists h, holesColumns g cs holes = Ok h.
Proof.
  intros Hlen. revert holes. induction cs as [|c cs IH]; intros holes.
  - eexists. reflexivity.
  - cbn [holesColumns].
    destruct (holesFrom_ok g c 0 (Z.to_nat GRID_HEIGHT) false holes Hlen)
      as [h Hh]; [lia|rewrite Z2Nat.id; unfold GRID_HEIGHT; lia|].
    rewrite Hh. cbn [bind]. apply IH.
Qed.

Lemma getHoles_ok (g : Grid) :
  length g = Z.to_nat GRID_HEIGHT -> exists holes, getHoles g = Ok holes.
Proof. intros Hlen. apply holesColumns_ok. exact Hlen. Qed.

Lemma evaluateBoard_ok (g : Grid) (clearedLines : Z) (strategy : string)
    (w : Weights) (drought : Z) (before : option Z) :
  length g = Z.to_nat GRID_HEIGHT ->
  exists score, evaluateBoard g clearedLines strategy w drought before = Ok score.
Proof.
  intros Hlen. unfold evaluateBoard.
  destruct (getColumnHeights_ok g Hlen) as (hs & -> & _).
  destruct (getHoles_ok g Hlen) as (holes & ->).
  cbn [bind]. destruct (isWell strategy); eauto.
Qed.

(** ** Missing weight keys *)

Lemma getWeight_removeWeight_same (w : Weights) (k : string) :
  getWeight (removeWeight w k) k = None.
Proof.
  induction w as [|[k' v] w IH]; [reflexivity|].
  cbn [removeWeight]. destruct (String.eqb k' k) eqn:E; [exact IH|].
  cbn [getWeight]. rewrite E. exact IH.
Qed.

Lemma getWeight_setWeight_same (w : Weights) (k : string) (v : Q) :
  getWeight (setWeight w k v) k = Some v.
Proof.
  induction w as [|[k' u] w IH].
  - cbn. rewrite String.eqb_refl. reflexivity.
  - cbn [setWeight]. destruct (String.eqb k' k) eqn:E;
      cbn [getWeight]; rewrite E; [reflexivity|exact IH].
Qed.

Lemma getWeight_removeWeight_other (w : Weights) (k k' : string) :
  k <> k' -> getWeight (removeWeight w k) k' = getWeight w k'.
Proof.
  intros Hne. induction w as [|[k0 v] w IH]; [reflexivity|].
  cbn [removeWeight]. destruct (String.eqb k0 k) eqn:E.
  - apply String.eqb_eq in E. subst k0. cbn [getWeight].
    destruct (String.eqb k k') eqn:E'; [apply String.eqb_eq in E'; contradiction|].
    exact IH.
  - cbn [getWeight]. rewrite IH. reflexivity.
Qed.

Lemma getWeight_setWeight_other (w : Weights) (k k' : string) (v : Q) :
  k <> k' -> getWeight (setWeight w k v) k' = getWeight w k'.
Proof.
  intros Hne. induction w as [|[k0 u] w IH].
  - cbn. destruct (String.eqb k k') eqn:E'; [apply String.eqb_eq in E'; contradiction|].
    reflexivity.
  - cbn [setWeight]. destruct (String.eqb k0 k) eqn:E.
    + apply String.eqb_eq in E. subst k0. cbn [getWeight].
      destruct (String.eqb k k') eqn:E'; [apply String.eqb_eq in E'; contradiction|].
      reflexivity.
    + cbn [getWeight]. rewrite IH. reflexivity.
Qed.

(** In the survival branch every coefficient is read through [|| 0]: an
    absent key and a key set to 0 are the same coefficient. *)
Lemma weightOr_missing_is_zero (w : Weights) (k k' : string) :
  weightOr (removeWeight w k) k' 0 = weightOr (setWeight w k 0) k' 0.
Proof.
  unfold weightOr. destruct (string_dec k k') as [<-|Hne].
  - rewrite getWeight_removeWeight_same, getWeight_setWeight_same. reflexivity.
  - rewrite getWeight_removeWeight_other, getWeight_setWeight_other by exact Hne.
    reflexivity.
Qed.

Lemma survivalScore_missing_key (heights : list Z) (holes clearedLines : Z)
    (w : Weights) (k : string) (before : option Z) :
  survivalScore heights holes clearedLines (removeWeight w k) before =
  survivalScore heights holes clearedLines (setWeight w k 0) before.
Proof.
  unfold survivalScore. rewrite !weightOr_missing_is_zero. reflexivity.
Qed.

Lemma survivalScore_finite (heights : list Z) (holes clearedLines : Z)
    (w : Weights) (before : option Z) :
  exists q, survivalScore heights holes clearedLines w before = Num q.
Proof.
  unfold survivalScore. cbn [jsmul jsadd ofZ].
  destruct before as [b|];
    repeat match goal with |- context [if ?c then _ else _] => destruct c end;
    cbn [jsmul jsadd ofZ]; eexists; reflexivity.
Qed.

(** The part of C1 that the code keeps: outside the two well strategies an
    absent key scores exactly like the key set to 0, and the score is a
    finite number. *)
Lemma evaluateBoard_survival_missing_key (g : Grid) (clearedLines : Z)
    (strategy : string) (w : Weights) (k : string) (drought : Z)
    (before : option Z) :
  isWell strategy = false ->
  length g = Z.to_nat GRID_HEIGHT ->
  evaluateBoard g clearedLines strategy (removeWeight w k) drought before =
  evaluateBoard g clearedLines strategy (setWeight w k 0) drought before /\
  exists q, evaluateBoard g clearedLines strategy (removeWeight w k) drought before
            = Ok (Num q).
Proof.
  intros Hs Hlen. unfold evaluateBoard.
  destruct (getColumnHeights_ok g Hlen) as (hs & -> & _).
  destruct (getHoles_ok g Hlen) as (holes & ->).
  cbn [bind]. rewrite Hs. rewrite survivalScore_missing_key. split; [reflexivity|].
  destruct (survivalScore_finite hs holes clearedLines (setWeight w k 0) before)
    as [q ->].
  eauto.
Qed.

(** C1, at the inputs where it fails.  In the well branch the coefficients
    are read without [|| 0].  On the empty board, under either well
    strategy, the preset survival weights (which have no [wellClogs],
    [lineClearBonus] or [droughtPenalty]) score NaN, and so do the preset
    well weights once [wellClogs] is absent; with the absent keys set to 0
    the score is the number 0. *)
Theorem evaluateBoard_well_missing_key_NaN :
  evaluateBoard createEmptyGrid 0 "rightWell" BASE_SURVIVAL_WEIGHTS 0 None = Ok NaN /\
  evaluateBoard createEmptyGrid 0 "leftWell" BASE_SURVIVAL_WEIGHTS 0 None = Ok NaN /\
  (exists q, evaluateBoard createEmptyGrid 0 "rightWell"
               (setWeight (setWeight (setWeight BASE_SURVIVAL_WEIGHTS
                  "wellClogs" 0) "lineClearBonus" 0) "droughtPenalty" 0) 0 None
             = Ok (Num q) /\ (q == 0)%Q) /\
  evaluateBoard createEmptyGrid 0 "rightWell"
    (removeWeight BASE_WELL_WEIGHTS "wellClogs") 0 None = Ok NaN /\
  evaluateBoard createEmptyGrid 0 "leftWell"
    (removeWeight BASE_WELL_WEIGHTS "wellClogs") 0 None = Ok NaN /\
  (exists q, evaluateBoard createEmptyGrid 0 "rightWell"
               (setWeight BASE_WELL_WEIGHTS "wellClogs" 0) 0 None = Ok (Num q)
             /\ (q == 0)%Q).
Proof.
  split; [vm_compute; reflexivity|].
  split; [vm_compute; reflexivity|].
  split; [eexists; split; [vm_compute; reflexivity|reflexivity]|].
  split; [vm_compute; reflexivity|].
  split; [vm_compute; reflexivity|].
  eexists. split; [vm_compute; reflexivity|]. reflexivity.
Qed.

(** ** The well branch: drought penalty and bumpiness *)

Lemma evaluateBoard_well (g : Grid) (clearedLines : Z) (strategy : string)
    (w : Weights) (drought : Z) (before : option Z) (heights : list Z) (holes : Z) :
  isWell strategy = true ->
  getColumnHeights g = Ok heights -> getHoles g = Ok holes ->
  evaluateBoard g clearedLines strategy w drought before =
    Ok (jsadd (wellBase strategy heights holes clearedLines w)
              (droughtPenalty strategy heights w drought)).
Proof.
  intros Hs Hh Hn. unfold evaluateBoard. rewrite Hh, Hn. cbn [bind].
  rewrite Hs. reflexivity.
Qed.

Lemma wellDepth_columns (strategy : string) (heights : list Z) :
  isWell strategy = true ->
  (strategy = "rightWell"%string /\
   wellDepth strategy heights = hget heights 8 - hget heights 9) \/
  (strategy = "leftWell"%string /\
   wellDepth strategy heights = hget heights 1 - hget heights 0).
Proof.
  unfold isWell, wellDepth, neighborColumn, wellColumn. intros H.
  destruct (String.eqb strategy "rightWell") eqn:E.
  - left. apply String.eqb_eq in E. auto.
  - right. cbn in H. apply String.eqb_eq in H. auto.
Qed.

(** C3. In well mode the score is the five other terms plus the drought
    penalty; the penalty is the literal 0 unless [droughtCount > 12] and
    [height[neighbor] - height[well] > 3], where it is
    [(droughtCount - 12) * (height[neighbor] - height[well]) * w.droughtPenalty];
    so it is 0 whenever the difference is at most 3, negative differences
    included.  The neighbor/well columns are 8/9 on the right, 1/0 on the
    left. *)
Theorem droughtPenalty_well_mode (g : Grid) (clearedLines : Z) (strategy : string)
    (w : Weights) (droughtCount : Z) (before : option Z) :
  isWell strategy = true ->
  length g = 24%nat ->
  exists (heights : list Z) (holes : Z),
    getColumnHeights g = Ok heights /\
    evaluateBoard g clearedLines strategy w droughtCount before =
      Ok (jsadd (wellBase strategy heights holes clearedLines w)
                (droughtPenalty strategy heights w droughtCount)) /\
    ((strategy = "rightWell"%string /\
      wellDepth strategy heights = hget heights 8 - hget heights 9) \/
     (strategy = "leftWell"%string /\
      wellDepth strategy heights = hget heights 1 - hget heights 0)) /\
    (~ (droughtCount > 12 /\ wellDepth strategy heights > 3) ->
     droughtPenalty strategy heights w droughtCount = ofZ 0) /\
    (droughtCount > 12 -> wellDepth strategy heights > 3 ->
     droughtPenalty strategy heights w droughtCount =
       jsmul (ofZ ((droughtCount - 12) * wellDepth strategy heights))
             (weightNum w "droughtPenalty")) /\
    (wellDepth strategy heights <= 3 ->
     droughtPenalty strategy heights w droughtCount = ofZ 0).
Proof.
  intros Hs Hlen.
  destruct (getColumnHeights_ok g Hlen) as (hs & Hh & _).
  destruct (getHoles_ok g Hlen) as (holes & Hn).
  exists hs, holes. split; [exact Hh|].
  split; [apply evaluateBoard_well; assumption|].
  split; [apply wellDepth_columns; exact Hs|].
  unfold droughtPenalty, DROUGHT_THRESHOLD.
  repeat split.
  - intros Hnot.
    destruct (12 <? droughtCount) eqn:E1; [|reflexivity].
    destruct (3 <? wellDepth strategy hs) eqn:E2; [|reflexivity].
    apply Z.ltb_lt in E1, E2. exfalso. apply Hnot. lia.
  - intros Hd Hw.
    destruct (12 <? droughtCount) eqn:E1; [|apply Z.ltb_ge in E1; lia].
    destruct (3 <? wellDepth strategy hs) eqn:E2; [|apply Z.ltb_ge in E2; lia].
    reflexivity.
  - intros Hw.
    destruct (12 <? droughtCount) eqn:E1; [|reflexivity].
    destruct (3 <? wellDepth strategy hs) eqn:E2; [|reflexivity].
    apply Z.ltb_lt in E2. lia.
Qed.

Lemma list_of_length_10 {A : Type} (l : list A) :
  length l = 10%nat ->
  exists a0 a1 a2 a3 a4 a5 a6 a7 a8 a9, l = [a0; a1; a2; a3; a4; a5; a6; a7; a8; a9].
Proof.
  intros H.
  do 10 (destruct l as [|? l]; [discriminate|]).
  destruct l; [|discriminate].
  repeat eexists.
Qed.

(** Evaluates the closed indices and the closed tests of an unrolled loop
    over the heights. *)
Ltac closed_indices :=
  unfold hget, wellColumn;
  repeat match goal with
         | |- context [Z.to_nat ?i] =>
             let v := eval vm_compute in (Z.to_nat i) in
             progress change (Z.to_nat i) with v
         | |- context [(?s =? ?a)%string && (?i =? ?j)] =>
             let v := eval vm_compute in ((s =? a)%string && (i =? j)) in
             change ((s =? a)%string && (i =? j)) with v
         end;
  cbn [orb nth].

(** C4. On every 24-row grid the well branch of [evaluateBoard] returns the
    sum of its six terms in which the bumpiness weight multiplies the sum of
    the height differences over the adjacent pairs other than the one that
    touches the well: pairs (0,1) .. (7,8) for a right well, (1,2) .. (8,9)
    for a left well, where [getBumpiness] takes all nine.  So the right-well
    board with heights [5,5,5,5,5,5,5,5,5,0] and the same board with the
    well filled to 9 are both scored with a bumpiness of 0, although their
    full bumpiness is 5 and 4. *)
Theorem stackBumpiness_skips_well_pair :
  (forall g : Grid, length g = 24%nat ->
     exists h0 h1 h2 h3 h4 h5 h6 h7 h8 h9 holes : Z,
       let heights := [h0; h1; h2; h3; h4; h5; h6; h7; h8; h9] in
       let total (strategy : string) (w : Weights) (clearedLines drought : Z)
                 (bumpiness clog : Z) :=
         jsadd (jsadd (jsadd (jsadd (jsadd
           (jsmul (weightNum w "holes") (ofZ holes))
           (jsmul (weightNum w "bumpiness") (ofZ bumpiness)))
           (jsmul (weightNum w "aggregateHeight") (ofZ (getAggregateHeight heights))))
           (jsmul (weightNum w "wellClogs") (ofZ clog)))
           (jsmul (weightNum w "lineClearBonus") (ofZ (clearedLines * clearedLines))))
           (droughtPenalty strategy heights w drought) in
       getColumnHeights g = Ok heights /\
       getHoles g = Ok holes /\
       (forall (clearedLines : Z) (w : Weights) (drought : Z) (before : option Z),
          evaluateBoard g clearedLines "rightWell" w drought before =
            Ok (total "rightWell"%string w clearedLines drought
                  (Z.abs (h0 - h1) + Z.abs (h1 - h2) + Z.abs (h2 - h3)
                   + Z.abs (h3 - h4) + Z.abs (h4 - h5) + Z.abs (h5 - h6)
                   + Z.abs (h6 - h7) + Z.abs (h7 - h8))
                  h9)) /\
       (forall (clearedLines : Z) (w : Weights) (drought : Z) (before : option Z),
          evaluateBoard g clearedLines "leftWell" w drought before =
            Ok (total "leftWell"%string w clearedLines drought
                  (Z.abs (h1 - h2) + Z.abs (h2 - h3) + Z.abs (h3 - h4)
                   + Z.abs (h4 - h5) + Z.abs (h5 - h6) + Z.abs (h6 - h7)
                   + Z.abs (h7 - h8) + Z.abs (h8 - h9))
                  h0)) /\
       getBumpiness heights =
         Z.abs (h0 - h1) + Z.abs (h1 - h2) + Z.abs (h2 - h3) + Z.abs (h3 - h4)
         + Z.abs (h4 - h5) + Z.abs (h5 - h6) + Z.abs (h6 - h7) + Z.abs (h7 - h8)
         + Z.abs (h8 - h9)) /\
  getColumnHeights rightWellGrid = Ok [5; 5; 5; 5; 5; 5; 5; 5; 5; 0] /\
  getColumnHeights rightWellGridFilled = Ok [5; 5; 5; 5; 5; 5; 5; 5; 5; 9] /\
  getBumpiness [5; 5; 5; 5; 5; 5; 5; 5; 5; 0] = 5 /\
  getBumpiness [5; 5; 5; 5; 5; 5; 5; 5; 5; 9] = 4 /\
  (forall (clearedLines : Z) (w : Weights) (drought : Z) (before : option Z),
     let total (heights : list Z) (bumpiness aggregateHeight clog : Z) :=
       jsadd (jsadd (jsadd (jsadd (jsadd
         (jsmul (weightNum w "holes") (ofZ 0))
         (jsmul (weightNum w "bumpiness") (ofZ bumpiness)))
         (jsmul (weightNum w "aggregateHeight") (ofZ aggregateHeight)))
         (jsmul (weightNum w "wellClogs") (ofZ clog)))
         (jsmul (weightNum w "lineClearBonus") (ofZ (clearedLines * clearedLines))))
         (droughtPenalty "rightWell" heights w drought) in
     evaluateBoard rightWellGrid clearedLines "rightWell" w drought before =
       Ok (total [5; 5; 5; 5; 5; 5; 5; 5; 5; 0] 0 45 0) /\
     evaluateBoard rightWellGridFilled clearedLines "rightWell" w drought before =
       Ok (total [5; 5; 5; 5; 5; 5; 5; 5; 5; 9] 0 54 9)).
Proof.
  split; [|split; [vm_compute; reflexivity
          |split; [vm_compute; reflexivity
          |split; [reflexivity|split; [reflexivity|]]]]].
  - intros g Hlen.
    destruct (getColumnHeights_ok g Hlen) as (hs & Hh & Hl & _).
    destruct (getHoles_ok g Hlen) as (holes & Hn).
    destruct (list_of_length_10 hs Hl)
      as (h0 & h1 & h2 & h3 & h4 & h5 & h6 & h7 & h8 & h9 & ->).
    exists h0, h1, h2, h3, h4, h5, h6, h7, h8, h9, holes. cbn zeta.
    split; [exact Hh|]. split; [exact Hn|].
    assert (Hr : stackBumpiness "rightWell" [h0; h1; h2; h3; h4; h5; h6; h7; h8; h9]
                 = Z.abs (h0 - h1) + Z.abs (h1 - h2) + Z.abs (h2 - h3)
                   + Z.abs (h3 - h4) + Z.abs (h4 - h5) + Z.abs (h5 - h6)
                   + Z.abs (h6 - h7) + Z.abs (h7 - h8)).
    { unfold stackBumpiness. change (Z.to_nat (COLS - 1)) with 9%nat.
      cbn [stackBumpLoop]. closed_indices. lia. }
    assert (Hl' : stackBumpiness "leftWell" [h0; h1; h2; h3; h4; h5; h6; h7; h8; h9]
                  = Z.abs (h1 - h2) + Z.abs (h2 - h3) + Z.abs (h3 - h4)
                    + Z.abs (h4 - h5) + Z.abs (h5 - h6) + Z.abs (h6 - h7)
                    + Z.abs (h7 - h8) + Z.abs (h8 - h9)).
    { unfold stackBumpiness. change (Z.to_nat (COLS - 1)) with 9%nat.
      cbn [stackBumpLoop]. closed_indices. lia. }
    split; [|split].
    + intros cl w d before.
      rewrite (evaluateBoard_well g cl "rightWell" w d before _ holes eq_refl Hh Hn).
      unfold wellBase, bumpinessPenalty. rewrite Hr. reflexivity.
    + intros cl w d before.
      rewrite (evaluateBoard_well g cl "leftWell" w d before _ holes eq_refl Hh Hn).
      unfold wellBase, bumpinessPenalty. rewrite Hl'. reflexivity.
    + unfold getBumpiness. cbn [length Nat.sub bumpLoop]. closed_indices. lia.
  - intros cl w d before. cbn zeta. split.
    + rewrite (evaluateBoard_well rightWellGrid cl "rightWell" w d before
                 [5; 5; 5; 5; 5; 5; 5; 5; 5; 0] 0 eq_refl);
        [reflexivity | vm_compute; reflexivity | vm_compute; reflexivity].
    + rewrite (evaluateBoard_well rightWellGridFilled cl "rightWell" w d before
                 [5; 5; 5; 5; 5; 5; 5; 5; 5; 9] 0 eq_refl);
        [reflexivity | vm_compute; reflexivity | vm_compute; reflexivity].
Qed.

(** ** Weight mutation *)

Lemma dOfZ_0 : dOfZ 0 = S754_zero false.
Proof. reflexivity. Qed.

(** [x === 0] holds of the two zeros and of nothing else. *)
Lemma deq_0_sign (x : double) : deq x (dOfZ 0) = true <-> dsign x = SignZero.
Proof.
  rewrite dOfZ_0. destruct x as [s|s| |s m e]; cbn; try destruct s; cbn;
    split; intros H; try reflexivity; discriminate.
Qed.

(** A rounded value has the sign that the rounding was given, whether it
    comes out as a zero, a finite number or an infinity. *)
Lemma binary_round_aux_shape (s : bool) (m e : Z) (l : location) :
  let r := binary_round_aux dprec demax s m e l in
  r = S754_nan \/ r = S754_zero s \/ r = S754_infinity s \/
  exists m' e', r = S754_finite s m' e'.
Proof.
  cbv zeta. unfold binary_round_aux.
  destruct (shr_fexp dprec demax m e l) as [mrs' e'].
  destruct (shr_fexp dprec demax _ e' loc_Exact) as [mrs'' e''].
  destruct (shr_m mrs'') as [|m'|m']; [auto| |auto].
  destruct (e'' <=? demax - dprec); [do 3 right; eauto | do 2 right; left; reflexivity].
Qed.

(** The test of the loop, read on the signs: when the double product of two
    numbers is neither a zero nor NaN, it is below 0 exactly when the two
    have opposite signs. *)
Lemma dmul_sign (a b : double) :
  productVanishes a b = false ->
  (dlt (dmul a b) (dOfZ 0) = true -> dsign a <> dsign b) /\
  (dlt (dmul a b) (dOfZ 0) = false -> dsign a = dsign b).
Proof.
  unfold productVanishes. rewrite dOfZ_0.
  destruct a as [sa|sa| |sa ma ea], b as [sb|sb| |sb mb eb];
    cbn [dmul SFmul]; try discriminate;
    try (destruct sa, sb; cbn; intros _; split; intros H;
         first [discriminate | reflexivity]).
  destruct (binary_round_aux_shape (xorb sa sb) (Zpos (ma * mb)) (ea + eb) loc_Exact)
    as [E | [E | [E | (m' & e' & E)]]];
    cbv zeta in E; rewrite E; try discriminate;
    destruct sa, sb; cbn; intros _; split; intros H;
    first [discriminate | reflexivity].
Qed.

(** The value that the loop stores keeps the sign of the base value as soon
    as the product that the loop tests is neither a zero nor NaN. *)
Lemma mutateValue_sign (v mf draw : double) :
  productVanishes v (newValueOf v mf draw) = false ->
  dsign (mutateValue v mf draw) = dsign v.
Proof.
  intros Hp. unfold mutateValue. cbv zeta.
  destruct (dmul_sign _ _ Hp) as [_ Hkeep].
  destruct (dlt (dmul v (newValueOf v mf draw)) (dOfZ 0)); [reflexivity|].
  symmetry. apply Hkeep. reflexivity.
Qed.

(** What [mutated[key]] holds after the loop, for a key of the base vector:
    the base value itself when it is 0, its mutation by some draw otherwise. *)
Lemma mutateLoop_lookup (entries : DoubleWeights) (mf : double)
    (random : nat -> double) (i : nat) (k : string) (v : double) :
  getDoubleWeight entries k = Some v ->
  exists v', getDoubleWeight (mutateLoop entries mf random i) k = Some v' /\
    ((deq v (dOfZ 0) = true /\ v' = v) \/
     (deq v (dOfZ 0) = false /\ exists j, v' = mutateValue v mf (random j))).
Proof.
  revert i. induction entries as [|[k0 v0] rest IH]; intros i H; [discriminate|].
  cbn [getDoubleWeight] in H. cbn [mutateLoop].
  destruct (deq v0 (dOfZ 0)) eqn:Z0; cbn [getDoubleWeight];
    destruct (String.eqb k0 k) eqn:E.
  - injection H as <-. exists v0. auto.
  - apply IH. exact H.
  - injection H as <-. eexists. split; [reflexivity|]. right. eauto.
  - apply IH. exact H.
Qed.

(** C6, as the code has it, on the doubles that it computes with.  Whatever
    the mutation factor and the draws: a coefficient that is 0 stays the
    very same 0; a coefficient that is not 0 becomes either itself or
    [baseValue * (1 + change)] for the draw of its turn, and it keeps its
    sign whenever the product [baseValue * newValue] that the loop tests is
    neither a zero nor NaN. *)
Theorem mutateWeights_sign (baseWeights : DoubleWeights) (mutationFactor : double)
    (random : nat -> double) (k : string) (v : double) :
  getDoubleWeight baseWeights k = Some v ->
  exists v',
    getDoubleWeight (mutateWeights baseWeights mutationFactor random) k = Some v' /\
    (dsign v = SignZero -> v' = v) /\
    (dsign v <> SignZero ->
     exists j : nat,
       let newValue := newValueOf v mutationFactor (random j) in
       v' = mutateValue v mutationFactor (random j) /\
       (v' = v \/ v' = newValue) /\
       (productVanishes v newValue = false -> dsign v' = dsign v)).
Proof.
  intros H. unfold mutateWeights.
  destruct (mutateLoop_lookup _ mutationFactor random 0%nat _ _ H)
    as (v' & Hv' & [[Hz ->] | [Hnz [j ->]]]).
  - exists v. split; [exact Hv'|]. split; [auto|].
    intros Hs. apply deq_0_sign in Hz. contradiction.
  - eexists. split; [exact Hv'|]. split.
    + intros Hs. apply deq_0_sign in Hs. congruence.
    + intros _. exists j. cbv zeta. split; [reflexivity|]. split.
      * unfold mutateValue. cbv zeta.
        destruct (dlt _ (dOfZ 0)); [left|right]; reflexivity.
      * apply mutateValue_sign.
Qed.

(** ** The danger switch of the search *)

Lemma fold_left_max_gt (l : list Z) (a t : Z) :
  t < fold_left Z.max l a <-> t < a \/ Exists (fun h => t < h) l.
Proof.
  revert a. induction l as [|h l IH]; intros a; cbn [fold_left].
  - split; [auto|]. intros [H|H]; [exact H|inversion H].
  - rewrite IH. split.
    + intros [H|H]; [|right; apply Exists_cons_tl; exact H].
      destruct (Z.max_spec a h) as [[_ E]|[_ E]]; rewrite E in H;
        [right; apply Exists_cons_hd; exact H|left; exact H].
    + intros [H|H]; [left; lia|].
      inversion H as [? ? Hh|? ? Ht]; subst; [left; lia|right; exact Ht].
Qed.

Lemma maxAbove_Exists (l : list Z) (t : Z) :
  maxAbove l t = true <-> Exists (fun h => t < h) l.
Proof.
  unfold maxAbove, mathMax. destruct l as [|h l].
  - split; [discriminate|]. intros H. inversion H.
  - rewrite Z.ltb_lt, fold_left_max_gt. split.
    + intros [H|H]; [apply Exists_cons_hd|apply Exists_cons_tl]; exact H.
    + intros H. inversion H; subst; auto.
Qed.

(** Under the strategy ["survival"] every loop of the search is the loop
    of the survival search. *)
Lemma evaluateBoard_survival (g : Grid) (clearedLines : Z) (w : Weights)
    (drought : Z) (before : option Z) :
  evaluateBoard g clearedLines "survival" w drought before =
  survivalEvaluation g clearedLines w before.
Proof. reflexivity. Qed.

Lemma placeXLoop_survival (fuel : nat) (g : Grid) (type rot : nat) (w : Weights)
    (drought : Z) (xs : list Z) (tempY : option Z) (best : jsnum) :
  placeXLoop fuel g type rot "survival" w drought xs tempY best =
  survivalPlaceXLoop fuel g type rot w xs tempY best.
Proof.
  revert tempY best. induction xs as [|x xs IH]; intros tempY best; [reflexivity|].
  cbn [placeXLoop survivalPlaceXLoop].
  destruct (collidesTemp g type rot x tempY) as [[|]| |]; cbn [bind];
    try reflexivity; [apply IH|].
  destruct (dropLoop fuel g type rot x 0) as [y| |]; cbn [bind]; try reflexivity.
  destruct (lockAndClear g (mkPiece type rot x y)) as [[[fg cc] hb]| |];
    cbn [bind]; try reflexivity.
  rewrite evaluateBoard_survival.
  destruct (survivalEvaluation fg cc w (Some hb)) as [sc| |]; cbn [bind];
    try reflexivity.
  apply IH.
Qed.

Lemma placeRotLoop_survival (fuel : nat) (g : Grid) (type : nat) (w : Weights)
    (drought : Z) (rots : list nat) (best : jsnum) :
  placeRotLoop fuel g type "survival" w drought rots best =
  survivalPlaceRotLoop fuel g type w rots best.
Proof.
  revert best. induction rots as [|rot rots IH]; intros best; [reflexivity|].
  cbn [placeRotLoop survivalPlaceRotLoop]. rewrite placeXLoop_survival.
  destruct (survivalPlaceXLoop fuel g type rot w placementXs None best);
    cbn [bind]; try reflexivity.
  apply IH.
Qed.

Lemma evaluateAllPossiblePlacements_survival (fuel : nat) (g : Grid)
    (next : option nat) (w : Weights) (drought : Z) :
  evaluateAllPossiblePlacements fuel g next "survival" w drought =
  survivalPlacements fuel g next w.
Proof.
  unfold evaluateAllPossiblePlacements, survivalPlacements.
  destruct next as [type|]; [|reflexivity].
  destruct (nth_error blockCoords type); [|reflexivity].
  apply placeRotLoop_survival.
Qed.

Lemma scoreCandidate_survival (fuel : nat) (state : State) (w : Weights)
    (piece : Piece) :
  scoreCandidate fuel state "survival" w piece =
  survivalCandidate fuel state w piece.
Proof.
  unfold scoreCandidate, survivalCandidate.
  destruct (lockAndClear (grid state) piece) as [[[fg cc] hb]| |]; cbn [bind];
    try reflexivity.
  rewrite evaluateBoard_survival.
  destruct (survivalEvaluation fg cc w (Some hb)); cbn [bind]; try reflexivity.
  rewrite evaluateAllPossiblePlacements_survival. reflexivity.
Qed.

Lemma searchStep_survival (fuel : nat) (state : State) (w : Weights)
    (node : Node) (s : Search) :
  searchStep fuel state "survival" w node s = survivalStep fuel state w node s.
Proof.
  unfold searchStep, survivalStep. rewrite scoreCandidate_survival. reflexivity.
Qed.

Lemma searchLoop_survival (fuel dropFuel : nat) (state : State) (w : Weights)
    (s : Search) :
  searchLoop fuel dropFuel state "survival" w s =
  survivalLoop fuel dropFuel state w s.
Proof.
  revert s. induction fuel as [|fuel IH]; intros s.
  - destruct s as [[|n q] vis bs bp bt]; reflexivity.
  - destruct s as [[|n q] vis bs bp bt]; [reflexivity|].
    cbn [searchLoop survivalLoop queue visited bestScore bestPath bestTarget].
    rewrite searchStep_survival.
    destruct (survivalStep dropFuel state w n (mkSearch q vis bs bp bt));
      cbn [bind]; try reflexivity.
    apply IH.
Qed.

(** C2. When the strategy is one of the two wells and some column of the
    input grid is higher than 18, the call switches to ["survival"] and is
    the survival search: it returns what the search returns in which every
    terminal candidate is scored by the survival formula on its board plus
    the weighted best survival score of the next piece, and in which every
    lookahead placement is scored by the survival formula; the well formula
    takes no part in it.  Terminal candidate by terminal candidate and
    lookahead by lookahead, the scores of the call are those of the survival
    search. *)
Theorem findBestMove_danger_is_survival (fuel : nat) (state : State)
    (strategy : string) (w : Weights) (heights : list Z) :
  isWell strategy = true ->
  getColumnHeights (grid state) = Ok heights ->
  Exists (fun h => h > 18) heights ->
  effectiveStrategy (grid state) strategy = Ok "survival"%string /\
  findBestMove fuel state strategy w = survivalMove fuel state w /\
  (forall piece, Block state = Some piece ->
     findBestMove fuel state strategy w =
       (s <- search fuel state "survival" w piece ;; Ok (moveOf s))) /\
  (forall (node : Node) (s : Search),
     searchStep fuel state "survival" w node s = survivalStep fuel state w node s) /\
  (forall candidate : Piece,
     scoreCandidate fuel state "survival" w candidate =
       ('(gridAfterCurrentMove, clearedCount, holesBeforeClear) <-
          lockAndClear (grid state) candidate ;;
        heights' <- getColumnHeights gridAfterCurrentMove ;;
        holes <- getHoles gridAfterCurrentMove ;;
        nextPieceBestScore <- survivalPlacements fuel gridAfterCurrentMove
                                (Next state) w ;;
        Ok (jsadd (survivalScore heights' holes clearedCount w
                     (Some holesBeforeClear))
                  (jsmul nextPieceBestScore (Num (lookaheadWeight w)))))) /\
  (forall (g : Grid) (next : option nat),
     evaluateAllPossiblePlacements fuel g next "survival" w (iPieceDrought state) =
       survivalPlacements fuel g next w) /\
  (forall (g : Grid) (type rot : nat) (x : Z) (rest : list Z) (tempY : option Z)
          (best : jsnum),
     placeXLoop fuel g type rot "survival" w (iPieceDrought state) (x :: rest)
       tempY best =
       (c <- collidesTemp g type rot x tempY ;;
        if c then survivalPlaceXLoop fuel g type rot w rest tempY best
        else
          y <- dropLoop fuel g type rot x 0 ;;
          '(finalGrid, clearedCount, holesBeforeClear) <-
            lockAndClear g (mkPiece type rot x y) ;;
          heights' <- getColumnHeights finalGrid ;;
          holes <- getHoles finalGrid ;;
          let score := survivalScore heights' holes clearedCount w
                         (Some holesBeforeClear) in
          survivalPlaceXLoop fuel g type rot w rest (Some y)
            (if jslt score best then score else best))).
Proof.
  intros Hs Hh Hex.
  assert (Heff : effectiveStrategy (grid state) strategy = Ok "survival"%string).
  { unfold effectiveStrategy. rewrite Hs, Hh. cbn [bind].
    assert (Hm : maxAbove heights DANGER_HEIGHT_THRESHOLD = true).
    { apply maxAbove_Exists. unfold DANGER_HEIGHT_THRESHOLD.
      eapply Exists_impl; [|exact Hex]. cbn. intros; lia. }
    rewrite Hm. reflexivity. }
  split; [exact Heff|]. split; [|split; [|split; [|split; [|split]]]].
  - unfold findBestMove, survivalMove. rewrite Heff. cbn [bind].
    destruct (Block state); [|reflexivity].
    unfold search. rewrite searchLoop_survival. reflexivity.
  - intros piece Hb. unfold findBestMove. rewrite Heff, Hb. reflexivity.
  - intros node s. apply searchStep_survival.
  - intros candidate. rewrite scoreCandidate_survival.
    unfold survivalCandidate, survivalEvaluation.
    destruct (lockAndClear (grid state) candidate) as [[[fg cc] hb]| |];
      cbn [bind]; try reflexivity.
    destruct (getColumnHeights fg); cbn [bind]; try reflexivity.
    destruct (getHoles fg); cbn [bind]; reflexivity.
  - intros g next. apply evaluateAllPossiblePlacements_survival.
  - intros g type rot x rest tempY best.
    rewrite placeXLoop_survival. cbn [survivalPlaceXLoop].
    destruct (collidesTemp g type rot x tempY) as [[|]| |]; cbn [bind];
      try reflexivity.
    destruct (dropLoop fuel g type rot x 0) as [y| |]; cbn [bind]; try reflexivity.
    destruct (lockAndClear g (mkPiece type rot x y)) as [[[fg cc] hb]| |];
      cbn [bind]; try reflexivity.
    unfold survivalEvaluation.
    destruct (getColumnHeights fg); cbn [bind]; try reflexivity.
    destruct (getHoles fg); cbn [bind]; reflexivity.
Qed.

(** ** The search depends on the weights through the evaluator and the
       lookahead weight only *)

Section SameWeights.

Variables w1 w2 : Weights.
Hypothesis sameEval : forall g c s d h,
  evaluateBoard g c s w1 d h = evaluateBoard g c s w2 d h.
Hypothesis sameLookahead : lookaheadWeight w1 = lookaheadWeight w2.

Lemma placeXLoop_same fuel g type rot s d xs tempY best :
  placeXLoop fuel g type rot s w1 d xs tempY best =
  placeXLoop fuel g type rot s w2 d xs tempY best.
Proof.
  revert tempY best. induction xs as [|x xs IH]; intros tempY best; [reflexivity|].
  cbn [placeXLoop].
  destruct (collidesTemp g type rot x tempY) as [[|]| |]; cbn [bind]; auto.
  destruct (dropLoop fuel g type rot x 0) as [y| |]; cbn [bind]; auto.
  destruct (lockAndClear g _) as [[[g' c] h]| |]; cbn [bind]; auto.
  rewrite sameEval.
  destruct (evaluateBoard g' c s w2 d (Some h)) as [score| |]; cbn [bind]; auto.
Qed.

Lemma placeRotLoop_same fuel g type s d rots best :
  placeRotLoop fuel g type s w1 d rots best =
  placeRotLoop fuel g type s w2 d rots best.
Proof.
  revert best. induction rots as [|r rots IH]; intros best; [reflexivity|].
  cbn [placeRotLoop]. rewrite placeXLoop_same.
  destruct (placeXLoop _ _ _ _ _ w2 _ _ _ _) as [b| |]; cbn [bind]; auto.
Qed.

Lemma scoreCandidate_same fuel state s piece :
  scoreCandidate fuel state s w1 piece = scoreCandidate fuel state s w2 piece.
Proof.
  unfold scoreCandidate.
  destruct (lockAndClear _ _) as [[[g' c] h]| |]; cbn [bind]; auto.
  rewrite sameEval.
  destruct (evaluateBoard g' c s w2 _ _) as [cur| |]; cbn [bind]; auto.
  unfold evaluateAllPossiblePlacements.
  destruct (Next state) as [t|]; cbn [bind].
  - destruct (nth_error blockCoords t) as [rots|]; cbn [bind]; auto.
    rewrite placeRotLoop_same, sameLookahead. reflexivity.
  - rewrite sameLookahead. reflexivity.
Qed.

Lemma searchStep_same fuel state s node st :
  searchStep fuel state s w1 node st = searchStep fuel state s w2 node st.
Proof. unfold searchStep. rewrite scoreCandidate_same. reflexivity. Qed.

Lemma searchLoop_same fuel dropFuel state s st :
  searchLoop fuel dropFuel state s w1 st = searchLoop fuel dropFuel state s w2 st.
Proof.
  revert st. induction fuel as [|fuel IH]; intros st; cbn [searchLoop].
  - reflexivity.
  - destruct (queue st) as [|node rest]; [reflexivity|].
    rewrite searchStep_same.
    destruct (searchStep dropFuel state s w2 node _) as [st'| |]; cbn [bind]; auto.
Qed.

Lemma findBestMove_same fuel state s :
  findBestMove fuel state s w1 = findBestMove fuel state s w2.
Proof.
  unfold findBestMove, search.
  destruct (effectiveStrategy _ _) as [eff| |]; cbn [bind]; auto.
  destruct (Block state) as [p|]; auto.
  rewrite searchLoop_same. reflexivity.
Qed.

End SameWeights.

(** ** The lookahead weight *)

Lemma weightNum_setWeight_other (w : Weights) (k k' : string) (v : Q) :
  k <> k' -> weightNum (setWeight w k v) k' = weightNum w k'.
Proof.
  intros H. unfold weightNum. rewrite getWeight_setWeight_other by exact H.
  reflexivity.
Qed.

Lemma weightOr_setWeight_other (w : Weights) (k k' : string) (v d : Q) :
  k <> k' -> weightOr (setWeight w k v) k' d = weightOr w k' d.
Proof.
  intros H. unfold weightOr. rewrite getWeight_setWeight_other by exact H.
  reflexivity.
Qed.

(** The evaluator never reads [lookaheadScore]. *)
Lemma evaluateBoard_ignores_lookaheadScore (w : Weights) (v : Q) g c s d h :
  evaluateBoard g c s w d h =
  evaluateBoard g c s (setWeight w "lookaheadScore" v) d h.
Proof.
  unfold evaluateBoard, wellScore, wellBase, bumpinessPenalty, droughtPenalty,
    survivalScore.
  rewrite !weightNum_setWeight_other, !weightOr_setWeight_other by discriminate.
  reflexivity.
Qed.

(** C10. A weight vector that holds [lookaheadScore] with value 0 gets the
    lookahead weight 0.8: every candidate is scored as
    [currentMoveScore + nextPieceBestScore * 0.8], and the call returns what
    it returns with [lookaheadScore] set to 0.8. *)
Theorem lookaheadScore_zero_is_default (fuel : nat) (state : State)
    (strategy : string) (w : Weights) (v : Q) :
  getWeight w "lookaheadScore" = Some v -> (v == 0)%Q ->
  lookaheadWeight w = (8 # 10)%Q /\
  (forall piece,
     scoreCandidate fuel state strategy w piece =
       ('(g, c, h) <- lockAndClear (grid state) piece ;;
        currentMoveScore <- evaluateBoard g c strategy w (iPieceDrought state)
                              (Some h) ;;
        nextPieceBestScore <- evaluateAllPossiblePlacements fuel g (Next state)
                                strategy w (iPieceDrought state) ;;
        Ok (jsadd currentMoveScore (jsmul nextPieceBestScore (Num (8 # 10)))))) /\
  findBestMove fuel state strategy w =
  findBestMove fuel state strategy (setWeight w "lookaheadScore" (8 # 10)).
Proof.
  intros Hget Hz.
  assert (Hl : lookaheadWeight w = (8 # 10)%Q).
  { unfold lookaheadWeight, weightOr. rewrite Hget.
    apply Qeq_bool_iff in Hz. rewrite Hz. reflexivity. }
  split; [exact Hl|]. split.
  - intros piece. unfold scoreCandidate. rewrite Hl. reflexivity.
  - apply findBestMove_same.
    + intros. apply evaluateBoard_ignores_lookaheadScore.
    + rewrite Hl. unfold lookaheadWeight, weightOr.
      rewrite getWeight_setWeight_same. reflexivity.
Qed.

(** ** The search neither raises nor runs forever *)

Lemma fold_right_max_ge (l : list Z) (z : Z) :
  In z l -> z <= fold_right Z.max 0 l.
Proof.
  induction l as [|a l IH]; intros H; [destruct H|].
  cbn [fold_right]. destruct H as [->|H]; [lia|]. specialize (IH H). lia.
Qed.

Lemma fold_right_max_nonneg (l : list Z) : 0 <= fold_right Z.max 0 l.
Proof. induction l as [|a l IH]; cbn [fold_right]; lia. Qed.

Lemma maxOffset_nonneg : 0 <= maxOffset.
Proof. apply fold_right_max_nonneg. Qed.

Lemma maxKick_nonneg : 0 <= maxKick.
Proof. apply fold_right_max_nonneg. Qed.

Lemma okOr_bind {A B : Type} (P : A -> Prop) (Q : B -> Prop) (S : Prop)
    (m : result A) (k : A -> result B) :
  okOr P S m -> (forall a, P a -> okOr Q S (k a)) -> okOr Q S (bind m k).
Proof.
  intros [(a & -> & Pa)|[-> HS]] Hk.
  - apply Hk. exact Pa.
  - right. split; [reflexivity|exact HS].
Qed.

Lemma okOr_ok {A : Type} (P : A -> Prop) (S : Prop) (a : A) :
  P a -> okOr P S (Ok a).
Proof. intros H. left. eauto. Qed.

Lemma okOr_weaken {A : Type} (P Q : A -> Prop) (S T : Prop) (r : result A) :
  okOr P S r -> (forall a, P a -> Q a) -> (S -> T) -> okOr Q T r.
Proof.
  intros [(a & -> & Pa)|[-> HS]] HPQ HST; [left; eauto|right; auto].
Qed.

Section Search.

Hypothesis Htables : tablesOk = true.

Lemma shapes_complete (type : nat) (rots : list Shape) :
  nth_error blockCoords type = Some rots ->
  length rots = 4%nat /\ forallb nonEmpty rots = true.
Proof.
  intros H. apply nth_error_In in H.
  unfold tablesOk in Htables. apply andb_true_iff in Htables as [Hs _].
  unfold shapesComplete in Hs. rewrite forallb_forall in Hs.
  specialize (Hs rots H). apply andb_true_iff in Hs as [H4 Hne].
  apply Nat.eqb_eq in H4. auto.
Qed.

Lemma shapeOf_ok (type r : nat) :
  (type < length blockCoords)%nat -> (r < 4)%nat ->
  exists shape, shapeOf type r = Ok shape /\ shape <> [] /\
    Forall (fun c => Z.abs (fst c) <= maxOffset /\ Z.abs (snd c) <= maxOffset) shape.
Proof.
  intros Ht Hr. unfold shapeOf.
  destruct (nth_error blockCoords type) as [rots|] eqn:E.
  2:{ apply nth_error_None in E. lia. }
  destruct (shapes_complete _ _ E) as [H4 Hne].
  destruct (nth_error rots r) as [shape|] eqn:E'.
  2:{ apply nth_error_None in E'. lia. }
  exists shape. split; [reflexivity|].
  apply nth_error_In in E, E'. split.
  - rewrite forallb_forall in Hne. specialize (Hne shape E').
    destruct shape; [discriminate|congruence].
  - apply Forall_forall. intros c Hc.
    pose (f := fun c : Z * Z => Z.max (Z.abs (fst c)) (Z.abs (snd c))).
    assert (Hin : In (f c) (map f (concat (concat blockCoords)))).
    { apply in_map. apply in_concat. exists shape. split; [|exact Hc].
      apply in_concat. exists rots. auto. }
    apply fold_right_max_ge in Hin. subst f. cbv beta in Hin.
    unfold maxOffset. lia.
Qed.

Lemma kick_table_ok (table : list (list (Z * Z))) (r : nat) :
  In table kickTables -> (r < 4)%nat ->
  exists tests, nth_error table r = Some tests /\ kicksTame [] tests = true /\
                Forall (fun t => Z.abs (snd t) <= maxKick) tests.
Proof.
  intros Hin Hr.
  unfold tablesOk in Htables. apply andb_true_iff in Htables as [_ Hk].
  rewrite forallb_forall in Hk. specialize (Hk table Hin).
  apply andb_true_iff in Hk as [H4 Htame]. apply Nat.leb_le in H4.
  destruct (nth_error table r) as [tests|] eqn:E.
  2:{ apply nth_error_None in E. lia. }
  exists tests. split; [reflexivity|]. apply nth_error_In in E. split.
  - rewrite forallb_forall in Htame. apply Htame. exact E.
  - apply Forall_forall. intros t Ht.
    pose (f := fun t : Z * Z => Z.abs (snd t)).
    assert (H : In (f t) (map f (concat (concat kickTables)))).
    { apply in_map. apply in_concat. exists tests. split; [|exact Ht].
      apply in_concat. exists table. auto. }
    apply fold_right_max_ge in H. exact H.
Qed.

Lemma collides_ok (g' : Grid) (p : Piece) (dx dy : Z) (r : nat) :
  length g' = Z.to_nat GRID_HEIGHT -> (ptype p < length blockCoords)%nat ->
  exists b, collidesWithGrid g' p dx dy r = Ok b.
Proof.
  intros Hg' Ht. unfold collidesWithGrid.
  destruct (shapeOf_ok (ptype p) ((rotation p + r) mod 4)) as (shape & -> & _);
    [exact Ht|apply Nat.mod_upper_bound; lia|].
  cbn [bind]. destruct (collidesLoop_spec g' shape (px p + dx) (py p + dy) Hg')
    as (b & Hb & _).
  eauto.
Qed.

(** A pose that does not collide lies in a box around the grid. *)
Lemma free_bounds (g' : Grid) (p : Piece) (dx dy : Z) (r : nat) :
  length g' = Z.to_nat GRID_HEIGHT -> (ptype p < length blockCoords)%nat ->
  collidesWithGrid g' p dx dy r = Ok false ->
  - maxOffset <= px p + dx < COLS + maxOffset /\ py p + dy < GRID_HEIGHT + maxOffset.
Proof.
  intros Hg' Ht. unfold collidesWithGrid.
  destruct (shapeOf_ok (ptype p) ((rotation p + r) mod 4))
    as (shape & -> & Hne & Hb);
    [exact Ht|apply Nat.mod_upper_bound; lia|].
  cbn [bind]. intros Hc.
  destruct (collidesLoop_spec g' shape (px p + dx) (py p + dy) Hg')
    as (b & Hb' & Hiff).
  rewrite Hc in Hb'. injection Hb' as <-.
  destruct shape as [|c rest]; [congruence|].
  inversion Hb as [|? ? [Hx Hy] _]; subst.
  assert (Hn : ~ cellCollides g' (px p + dx) (py p + dy) c).
  { intros H. assert (false = true) by (apply Hiff; apply Exists_cons_hd; exact H).
    discriminate. }
  unfold cellCollides in Hn. cbn zeta in Hn. unfold COLS, GRID_HEIGHT in *. lia.
Qed.

(** A translation and a rotation of the test are a test of the moved pose. *)
Lemma collides_moved (g' : Grid) (p : Piece) (dx dy : Z) (r : nat) :
  collidesWithGrid g' p dx dy r =
  collidesWithGrid g'
    (mkPiece (ptype p) ((rotation p + r) mod 4)%nat (px p + dx) (py p + dy)) 0 0 0.
Proof.
  unfold collidesWithGrid. cbn [ptype rotation px py].
  rewrite Nat.add_0_r, Nat.Div0.mod_mod, !Z.add_0_r. reflexivity.
Qed.

Lemma collidesLoop_high (g' : Grid) (shape : Shape) (x y : Z) :
  Forall (fun c => y + snd c < 0) shape ->
  collidesLoop g' shape x y = Ok (collidesNoRow shape x).
Proof.
  induction 1 as [|c rest Hc _ IH]; [reflexivity|].
  cbn [collidesLoop collidesNoRow existsb].
  assert (E3 : (GRID_HEIGHT <=? y + snd c) = false)
    by (apply Z.leb_gt; unfold GRID_HEIGHT; lia).
  assert (E4 : (0 <=? y + snd c) = false) by (apply Z.leb_gt; lia).
  rewrite E3, E4, orb_false_r.
  destruct ((x + fst c <? 0) || (COLS <=? x + fst c)); [reflexivity|].
  rewrite IH. reflexivity.
Qed.

Lemma gridSet_ok (g' : Grid) (row col v : nat) :
  (row < length g')%nat ->
  exists g'', gridSet g' row col v = Ok g'' /\ length g'' = length g'.
Proof.
  revert row. induction g' as [|r rest IH]; intros row H; [cbn in H; lia|].
  destruct row as [|n]; cbn [gridSet].
  - eexists. split; reflexivity.
  - destruct (IH n) as (g'' & -> & Hl); [cbn in H; lia|].
    cbn [bind]. eexists. split; [reflexivity|]. cbn. lia.
Qed.

Lemma lockLoop_ok (g' : Grid) (shape : Shape) (x y : Z) (type : nat) :
  length g' = Z.to_nat GRID_HEIGHT ->
  exists g'', lockLoop g' shape x y type = Ok g'' /\
              length g'' = Z.to_nat GRID_HEIGHT.
Proof.
  revert g'. induction shape as [|c rest IH]; intros g' Hg';
    [exists g'; split; [reflexivity|exact Hg']|].
  cbn [lockLoop].
  destruct ((0 <=? y + snd c) && (y + snd c <? GRID_HEIGHT) && (0 <=? x + fst c)
            && (x + fst c <? COLS)) eqn:E; [|apply IH; exact Hg'].
  rewrite !andb_true_iff in E. destruct E as [[[E1 E2] _] _].
  apply Z.leb_le in E1. apply Z.ltb_lt in E2.
  destruct (gridSet_ok g' (Z.to_nat (y + snd c)) (Z.to_nat (x + fst c)) (S type))
    as (g'' & -> & Hl); [rewrite Hg'; unfold GRID_HEIGHT in *; lia|].
  cbn [bind]. apply IH. congruence.
Qed.

Lemma lockAndClear_ok (g' : Grid) (p : Piece) :
  length g' = Z.to_nat GRID_HEIGHT ->
  (ptype p < length blockCoords)%nat -> (rotation p < 4)%nat ->
  exists g'' c h, lockAndClear g' p = Ok (g'', c, h) /\
                  length g'' = Z.to_nat GRID_HEIGHT.
Proof.
  intros Hg' Ht Hr. unfold lockAndClear.
  destruct (shapeOf_ok _ _ Ht Hr) as (shape & -> & _). cbn [bind].
  destruct (lockLoop_ok g' shape (px p) (py p) (ptype p) Hg') as (t & -> & Hl).
  cbn [bind]. destruct (getHoles_ok t Hl) as (h & ->). cbn [bind].
  rewrite (simulateLineClearing_eq t Hl). cbn [bind].
  eexists _, _, _. split; [reflexivity|].
  rewrite length_app, repeat_length, filter_split_length. exact Hl.
Qed.

(** The drop loop stops before the piece leaves the box around the grid. *)
Lemma dropLoop_okOr (fuel : nat) (g' : Grid) (type rot : nat) (x y : Z) :
  length g' = Z.to_nat GRID_HEIGHT -> (type < length blockCoords)%nat ->
  okOr (fun _ => True)
       (Z.of_nat fuel <= Z.max 0 (GRID_HEIGHT + maxOffset - 1 - y))
       (dropLoop fuel g' type rot x y).
Proof.
  intros Hg' Ht. revert y. induction fuel as [|fuel IH]; intros y.
  - right. split; [reflexivity|]. cbn. lia.
  - cbn [dropLoop].
    destruct (collides_ok g' (mkPiece type rot x (y + 1)) 0 0 0 Hg' Ht) as [b Hb].
    rewrite Hb. cbn [bind]. destruct b; [apply okOr_ok; exact I|].
    apply (free_bounds g' (mkPiece type rot x (y + 1)) 0 0 0%nat Hg' Ht) in Hb.
    cbn [px py] in Hb.
    eapply okOr_weaken; [apply IH|auto|]. lia.
Qed.

Lemma dropLoop_from_top (fuel : nat) (g' : Grid) (type rot : nat) (x : Z) :
  length g' = Z.to_nat GRID_HEIGHT -> (type < length blockCoords)%nat ->
  okOr (fun _ => True) (fuel < dropBound)%nat (dropLoop fuel g' type rot x 0).
Proof.
  intros Hg' Ht. eapply okOr_weaken; [apply dropLoop_okOr; assumption|auto|].
  pose proof maxOffset_nonneg. unfold dropBound, GRID_HEIGHT. lia.
Qed.

Lemma collidesTemp_ok (g' : Grid) (type rot : nat) (x : Z) (tempY : option Z) :
  length g' = Z.to_nat GRID_HEIGHT -> (type < length blockCoords)%nat ->
  (rot < 4)%nat -> exists b, collidesTemp g' type rot x tempY = Ok b.
Proof.
  intros Hg' Ht Hr. unfold collidesTemp. destruct tempY as [y|].
  - apply collides_ok; assumption.
  - rewrite Nat.mod_small by exact Hr.
    destruct (shapeOf_ok _ _ Ht Hr) as (shape & -> & _). cbn [bind]. eauto.
Qed.

Lemma placeXLoop_okOr (fuel : nat) (g' : Grid) (type rot : nat) (s : string)
    (w : Weights) (d : Z) (xs : list Z) (tempY : option Z) (best : jsnum) :
  length g' = Z.to_nat GRID_HEIGHT -> (type < length blockCoords)%nat ->
  (rot < 4)%nat ->
  okOr (fun _ => True) (fuel < dropBound)%nat
       (placeXLoop fuel g' type rot s w d xs tempY best).
Proof.
  intros Hg' Ht Hr. revert tempY best.
  induction xs as [|x xs IH]; intros tempY best; [apply okOr_ok; exact I|].
  cbn [placeXLoop].
  destruct (collidesTemp_ok g' type rot x tempY Hg' Ht Hr) as [b ->].
  cbn [bind]. destruct b; [apply IH|].
  eapply okOr_bind; [apply dropLoop_from_top; assumption|].
  intros y _.
  destruct (lockAndClear_ok g' (mkPiece type rot x y) Hg' Ht Hr)
    as (g'' & c & h & -> & Hg'').
  cbn [bind].
  destruct (evaluateBoard_ok g'' c s w d (Some h) Hg'') as [score ->].
  cbn [bind]. apply IH.
Qed.

Lemma placeRotLoop_okOr (fuel : nat) (g' : Grid) (type : nat) (s : string)
    (w : Weights) (d : Z) (rots : list nat) (best : jsnum) :
  length g' = Z.to_nat GRID_HEIGHT -> (type < length blockCoords)%nat ->
  Forall (fun r => (r < 4)%nat) rots ->
  okOr (fun _ => True) (fuel < dropBound)%nat
       (placeRotLoop fuel g' type s w d rots best).
Proof.
  intros Hg' Ht Hr. revert best.
  induction Hr as [|r rots Hr _ IH]; intros best; [apply okOr_ok; exact I|].
  cbn [placeRotLoop].
  eapply okOr_bind; [apply placeXLoop_okOr; assumption|].
  intros b _. apply IH.
Qed.

Lemma evaluateAllPossiblePlacements_okOr (fuel : nat) (g' : Grid)
    (next : option nat) (s : string) (w : Weights) (d : Z) :
  length g' = Z.to_nat GRID_HEIGHT ->
  (forall t, next = Some t -> (t < length blockCoords)%nat) ->
  okOr (fun _ => True) (fuel < dropBound)%nat
       (evaluateAllPossiblePlacements fuel g' next s w d).
Proof.
  intros Hg' Hn. unfold evaluateAllPossiblePlacements.
  destruct next as [t|]; [|apply okOr_ok; exact I].
  specialize (Hn t eq_refl).
  destruct (nth_error blockCoords t) as [rots|] eqn:E.
  2:{ apply nth_error_None in E. lia. }
  destruct (shapes_complete _ _ E) as [-> _].
  apply placeRotLoop_okOr; [assumption|assumption|].
  apply Forall_forall. intros r Hr. apply in_seq in Hr. lia.
Qed.

Lemma scoreCandidate_okOr (fuel : nat) (state : State) (s : string)
    (w : Weights) (p : Piece) :
  length (grid state) = Z.to_nat GRID_HEIGHT ->
  (forall t, Next state = Some t -> (t < length blockCoords)%nat) ->
  (ptype p < length blockCoords)%nat -> (rotation p < 4)%nat ->
  okOr (fun _ => True) (fuel < dropBound)%nat (scoreCandidate fuel state s w p).
Proof.
  intros Hgs Hn Ht Hr. unfold scoreCandidate.
  destruct (lockAndClear_ok (grid state) p Hgs Ht Hr) as (g' & c & h & -> & Hg').
  cbn [bind].
  destruct (evaluateBoard_ok g' c s w (iPieceDrought state) (Some h) Hg')
    as [cur ->].
  cbn [bind].
  eapply okOr_bind; [apply evaluateAllPossiblePlacements_okOr; assumption|].
  intros nb _. apply okOr_ok. exact I.
Qed.

Variable state : State.
Variable p0 : Piece.
Hypothesis Hgrid : length (grid state) = Z.to_nat GRID_HEIGHT.
Hypothesis Hnext : forall t, Next state = Some t -> (t < length blockCoords)%nat.
Hypothesis Htype : (ptype p0 < length blockCoords)%nat.

Lemma kickLoop_ok (p : Piece) (r : nat) (tests : list (Z * Z)) :
  ptype p = ptype p0 ->
  exists o, kickLoop (grid state) p r tests = Ok o /\
    forall np, o = Some np ->
      exists dx dy, In (dx, dy) tests /\
        np = mkPiece (ptype p) ((rotation p + r) mod 4)%nat (px p + dx) (py p + dy) /\
        collidesWithGrid (grid state) p dx dy r = Ok false.
Proof.
  intros Hp. induction tests as [|[dx dy] rest IH].
  - exists None. split; [reflexivity|discriminate].
  - cbn [kickLoop].
    destruct (collides_ok (grid state) p dx dy r Hgrid) as [b Hb];
      [rewrite Hp; exact Htype|].
    rewrite Hb. cbn [bind]. destruct b.
    + destruct IH as (o & Ho & Hnp). exists o. split; [exact Ho|].
      intros np Hnp'. destruct (Hnp np Hnp') as (dx' & dy' & Hin & Heq & Hc).
      exists dx', dy'. split; [right; exact Hin|auto].
    + eexists. split; [reflexivity|]. intros np Hnp. injection Hnp as <-.
      exists dx, dy. split; [left; reflexivity|auto].
Qed.

(** High above the grid only the walls can block a kick, and a tame list
    has tried the same column offset before any upward kick. *)
Lemma kickLoop_high (p : Piece) (r : nat) (shape : Shape)
    (seen : list Z) (tests : list (Z * Z)) (np : Piece) :
  shapeOf (ptype p) ((rotation p + r) mod 4)%nat = Ok shape ->
  Forall (fun c => Z.abs (snd c) <= maxOffset) shape ->
  py p + maxKick + maxOffset < 0 ->
  Forall (fun t => Z.abs (snd t) <= maxKick) tests ->
  kicksTame seen tests = true ->
  (forall dx, In dx seen -> collidesNoRow shape (px p + dx) = true) ->
  kickLoop (grid state) p r tests = Ok (Some np) ->
  py p <= py np.
Proof.
  intros Hshape Hoff Hhigh Hk. revert seen.
  induction Hk as [|[dx dy] rest Hdy _ IH]; intros seen Htame Hseen Hrun;
    [discriminate|].
  cbn [kickLoop] in Hrun. cbn [kicksTame] in Htame.
  apply andb_true_iff in Htame as [Hup Hrest]. cbn [snd] in Hdy.
  assert (Hc : collidesWithGrid (grid state) p dx dy r
               = Ok (collidesNoRow shape (px p + dx))).
  { unfold collidesWithGrid. rewrite Hshape. cbn [bind].
    apply collidesLoop_high. eapply Forall_impl; [|exact Hoff].
    cbn beta. intros c Hcy. lia. }
  rewrite Hc in Hrun. cbn [bind] in Hrun.
  destruct (collidesNoRow shape (px p + dx)) eqn:Hwall.
  - apply (IH (dx :: seen)); [exact Hrest| |exact Hrun].
    intros dx' [<-|Hin]; [exact Hwall|apply Hseen; exact Hin].
  - injection Hrun as <-. cbn [py].
    apply orb_true_iff in Hup as [Hup|Hup]; [apply Z.leb_le in Hup; lia|].
    apply existsb_exists in Hup as (dx' & Hin & Heq).
    apply Z.eqb_eq in Heq. subst dx'.
    rewrite (Hseen dx Hin) in Hwall. discriminate.
Qed.

Lemma simulateRotation_good (p : Piece) (dir : Direction) :
  queued p0 p ->
  exists o, simulateRotation (grid state) p dir = Ok o /\
            forall np, o = Some np -> goodPiece (grid state) p0 np.
Proof.
  intros (Hp & Hr & Hy). unfold simulateRotation.
  destruct (Nat.eqb (ptype p) 3); [exists None; split; [reflexivity|discriminate]|].
  set (r := match dir with DirR => 1%nat | DirL => 3%nat end).
  set (srsData := if Nat.eqb (ptype p) BLOCK_I then _ else _).
  assert (Hin : In srsData kickTables).
  { unfold srsData, kickTables.
    destruct (Nat.eqb (ptype p) BLOCK_I), dir; cbn; auto. }
  destruct (kick_table_ok srsData (rotation p) Hin Hr) as (tests & -> & Htame & Hk).
  destruct (kickLoop_ok p r tests Hp) as (o & Ho & Hnp).
  exists o. split; [exact Ho|].
  intros np ->. destruct (Hnp np eq_refl) as (dx & dy & Hin' & -> & Hfree).
  assert (Hrot : ((rotation p + r) mod 4 < 4)%nat)
    by (apply Nat.mod_upper_bound; lia).
  unfold goodPiece. cbn [ptype rotation px py getPieceKey freePose].
  split; [exact Hp|]. split; [exact Hrot|]. split.
  - pose proof (proj1 (Forall_forall _ _) Hk _ Hin') as Hdy. cbn [snd] in Hdy.
    destruct (Z_lt_dec (py p + maxKick + maxOffset) 0) as [Hhigh|Hlow].
    + destruct (shapeOf_ok (ptype p) ((rotation p + r) mod 4))
        as (shape & Hshape & _ & Hoff); [rewrite Hp; exact Htype|exact Hrot|].
      assert (Hle : py p <= py (mkPiece (ptype p) ((rotation p + r) mod 4)%nat
                                        (px p + dx) (py p + dy))).
      { apply (kickLoop_high p r shape [] tests); try assumption.
        - eapply Forall_impl; [|exact Hoff]. cbn beta. intros c [_ H]. exact H.
        - intros ? []. }
      cbn [py] in Hle. lia.
    + unfold yLow in *. lia.
  - rewrite <- Hp. rewrite <- collides_moved. exact Hfree.
Qed.

Lemma translation_good (p : Piece) (dx dy : Z) :
  queued p0 p -> 0 <= dy ->
  collidesWithGrid (grid state) p dx dy 0 = Ok false ->
  goodPiece (grid state) p0 (mkPiece (ptype p) (rotation p) (px p + dx) (py p + dy)).
Proof.
  intros (Hp & Hr & Hy) Hdy Hc. unfold goodPiece.
  cbn [ptype rotation px py getPieceKey freePose].
  split; [exact Hp|]. split; [exact Hr|]. split; [lia|].
  rewrite collides_moved in Hc.
  rewrite Nat.add_0_r, Nat.mod_small in Hc by exact Hr.
  rewrite <- Hp. exact Hc.
Qed.

Lemma actions_good (p : Piece) :
  queued p0 p ->
  exists acts, actions (grid state) p = Ok acts /\
    Forall (fun a => forall np, snd a = Some np -> goodPiece (grid state) p0 np) acts.
Proof.
  intros Hq. pose proof Hq as (Hp & Hr & Hy). unfold actions.
  assert (Ht : (ptype p < length blockCoords)%nat) by (rewrite Hp; exact Htype).
  destruct (collides_ok (grid state) p (-1) 0 0 Hgrid Ht) as [cL HL].
  destruct (collides_ok (grid state) p 1 0 0 Hgrid Ht) as [cR HR].
  destruct (collides_ok (grid state) p 0 1 0 Hgrid Ht) as [cD HD].
  destruct (simulateRotation_good p DirR Hq) as (rR & HrR & HgR).
  destruct (simulateRotation_good p DirL Hq) as (rL & HrL & HgL).
  rewrite HL, HR, HD, HrR, HrL. cbn [bind].
  eexists. split; [reflexivity|].
  apply Forall_cons; [|apply Forall_cons; [|apply Forall_cons;
    [|apply Forall_cons; [|apply Forall_cons; [|apply Forall_nil]]]]];
    cbn [snd]; intros np Hnp.
  - destruct cL; [discriminate|]. injection Hnp as <-.
    pose proof (translation_good p (-1) 0 Hq (Z.le_refl 0) HL) as H.
    replace (px p + -1) with (px p - 1) in H by lia.
    rewrite Z.add_0_r in H. exact H.
  - destruct cR; [discriminate|]. injection Hnp as <-.
    pose proof (translation_good p 1 0 Hq (Z.le_refl 0) HR) as H.
    rewrite Z.add_0_r in H. exact H.
  - destruct cD; [discriminate|]. injection Hnp as <-.
    pose proof (translation_good p 0 1 Hq ltac:(lia) HD) as H.
    rewrite Z.add_0_r in H. exact H.
  - apply HgR. exact Hnp.
  - apply HgL. exact Hnp.
Qed.

(** *** The visited set and the measure *)

Lemma keyEqb_eq (a b : PoseKey) : keyEqb a b = true <-> a = b.
Proof.
  destruct a as [[ax ay] ar], b as [[bx by_] br]. unfold keyEqb.
  rewrite !andb_true_iff, !Z.eqb_eq, Nat.eqb_eq. split.
  - intros [[-> ->] ->]. reflexivity.
  - intros H. injection H as -> -> ->. auto.
Qed.

Lemma visitedHas_In (vis : list PoseKey) (k : PoseKey) :
  visitedHas vis k = true <-> In k vis.
Proof.
  unfold visitedHas. rewrite existsb_exists. split.
  - intros (x & Hin & Heq). apply keyEqb_eq in Heq. subst. exact Hin.
  - intros H. exists k. split; [exact H|]. apply keyEqb_eq. reflexivity.
Qed.

Lemma unvisited_cons_le (L vis : list PoseKey) (k : PoseKey) :
  visitedHas vis k = false ->
  (length (filter (fun x => negb (visitedHas (k :: vis) x)) L)
   + (if existsb (keyEqb k) L then 1 else 0)
   <= length (filter (fun x => negb (visitedHas vis x)) L))%nat.
Proof.
  intros Hk. induction L as [|a L IH]; [cbn; lia|].
  cbn [filter existsb]. unfold visitedHas at 1. cbn [existsb].
  fold (visitedHas vis a).
  destruct (keyEqb a k) eqn:E.
  - apply keyEqb_eq in E. subst a.
    assert (Ekk : keyEqb k k = true) by (apply keyEqb_eq; reflexivity).
    rewrite Ekk, Hk. cbn [orb negb length].
    destruct (existsb (keyEqb k) L); lia.
  - assert (E' : keyEqb k a = false).
    { destruct (keyEqb k a) eqn:E'; [|reflexivity].
      apply keyEqb_eq in E'. subst a.
      assert (keyEqb k k = true) by (apply keyEqb_eq; reflexivity). congruence. }
    rewrite E'. cbn [orb].
    destruct (visitedHas vis a); cbn [negb length]; lia.
Qed.

Lemma unvisited_cons (vis : list PoseKey) (k : PoseKey) :
  In k (region p0) -> visitedHas vis k = false ->
  (unvisited p0 (k :: vis) < unvisited p0 vis)%nat.
Proof.
  intros Hin Hk. unfold unvisited.
  pose proof (unvisited_cons_le (region p0) vis k Hk) as H.
  assert (E : existsb (keyEqb k) (region p0) = true).
  { apply existsb_exists. exists k. split; [exact Hin|].
    apply keyEqb_eq. reflexivity. }
  rewrite E in H. lia.
Qed.

Lemma in_zrange (lo z : Z) (n : nat) :
  lo <= z < lo + Z.of_nat n -> In z (zrange lo n).
Proof.
  intros H. unfold zrange. apply in_map_iff.
  exists (Z.to_nat (z - lo)). split; [lia|]. apply in_seq. lia.
Qed.

Lemma good_in_region (np : Piece) :
  goodPiece (grid state) p0 np -> In (getPieceKey np) (region p0).
Proof.
  intros (Hp & Hr & Hy & Hfree). unfold getPieceKey, freePose in *.
  apply (free_bounds (grid state)
           (mkPiece (ptype p0) (rotation np) (px np) (py np)) 0 0 0%nat Hgrid Htype)
    in Hfree.
  cbn [px py] in Hfree. pose proof maxOffset_nonneg as HM.
  unfold region. right. apply in_flat_map. exists (px np). split.
  - apply in_zrange. unfold COLS in *. lia.
  - apply in_flat_map. exists (py np). split.
    + apply in_zrange. unfold GRID_HEIGHT in *. lia.
    + apply in_map_iff. exists (rotation np). split; [reflexivity|].
      apply in_seq. lia.
Qed.

Lemma enqueue_inv (path : list Action) (acts : list (Action * option Piece))
    (q : list Node) (vis : list PoseKey) :
  Forall (fun a => forall np, snd a = Some np -> goodPiece (grid state) p0 np) acts ->
  Forall (fun n => queued p0 (npiece n)) q -> NoDup vis -> Forall (visitedOk (grid state) p0) vis ->
  Forall (fun n => queued p0 (npiece n)) (fst (enqueue path acts q vis)) /\
  NoDup (snd (enqueue path acts q vis)) /\
  Forall (visitedOk (grid state) p0) (snd (enqueue path acts q vis)) /\
  (unvisited p0 (snd (enqueue path acts q vis))
   + length (fst (enqueue path acts q vis))
   <= unvisited p0 vis + length q)%nat.
Proof.
  intros Hacts. revert q vis.
  induction Hacts as [|[name [np|]] acts Hgood _ IH]; intros q vis Hq Hnd Hvis.
  - cbn. auto.
  - cbn [enqueue]. specialize (Hgood np eq_refl).
    destruct (visitedHas vis (getPieceKey np)) eqn:E; [apply IH; assumption|].
    pose proof (good_in_region np Hgood) as Hin.
    pose proof (unvisited_cons vis _ Hin E) as Hlt.
    destruct (IH (q ++ [mkNode np (path ++ [name])]) (getPieceKey np :: vis))
      as (H1 & H2 & H3 & H4).
    + apply Forall_app. split; [exact Hq|]. constructor; [|constructor].
      destruct Hgood as (Ha & Hb & Hc & _). cbn [npiece]. unfold queued. auto.
    + constructor; [|exact Hnd]. intros Hc. apply visitedHas_In in Hc. congruence.
    + constructor; [|exact Hvis]. split; [exact Hin|]. right.
      destruct Hgood as (_ & _ & _ & Hf). exact Hf.
    + repeat split; try assumption.
      rewrite length_app in H4. cbn [length] in H4. lia.
  - cbn [enqueue]. apply IH; assumption.
Qed.

Lemma searchStep_inv (dropFuel : nat) (eff : string) (w : Weights)
    (node : Node) (s : Search) :
  queued p0 (npiece node) -> searchInv (grid state) p0 s ->
  okOr (fun s' => searchInv (grid state) p0 s' /\
                  (searchMeasure p0 s' <= searchMeasure p0 s)%nat)
       (dropFuel < dropBound)%nat
       (searchStep dropFuel state eff w node s).
Proof.
  intros Hq (Hqs & Hnd & Hvis & Hbest). unfold searchStep.
  pose proof Hq as (Hp & Hr & Hy).
  assert (Ht : (ptype (npiece node) < length blockCoords)%nat)
    by (rewrite Hp; exact Htype).
  destruct (collides_ok (grid state) (npiece node) 0 1 0 Hgrid Ht) as [resting ->].
  cbn [bind].
  apply okOr_bind with
    (P := fun t : jsnum * option (list Action) * option Piece =>
            snd (fst t) = None -> snd t = None).
  - destruct resting; [|apply okOr_ok; exact Hbest].
    eapply okOr_bind;
      [apply (scoreCandidate_okOr dropFuel state eff w (npiece node)); assumption|].
    intros total _.
    destruct (jslt total (bestScore s)); apply okOr_ok; cbn; [discriminate|exact Hbest].
  - intros [[bs bp] bt] Hb. cbn [fst snd] in Hb.
    destruct (actions_good (npiece node) Hq) as (acts & -> & Hacts).
    cbn [bind].
    pose proof (enqueue_inv (npath node) acts (queue s) (visited s) Hacts Hqs Hnd
                            Hvis) as Henq.
    destruct (enqueue (npath node) acts (queue s) (visited s)) as [q vis].
    cbn [fst snd] in Henq.
    destruct Henq as (H1 & H2 & H3 & H4).
    apply okOr_ok. split.
    + unfold searchInv. cbn [queue visited bestPath bestTarget]. auto.
    + unfold searchMeasure. cbn [queue visited]. exact H4.
Qed.

Lemma searchLoop_inv (dropFuel : nat) (eff : string) (w : Weights)
    (fuel : nat) (s : Search) :
  searchInv (grid state) p0 s ->
  okOr (fun s' => searchInv (grid state) p0 s' /\ queue s' = [])
       ((fuel < searchMeasure p0 s)%nat \/ (dropFuel < dropBound)%nat)
       (searchLoop fuel dropFuel state eff w s).
Proof.
  revert s. induction fuel as [|fuel IH]; intros s Hinv.
  - cbn [searchLoop]. destruct (queue s) as [|node rest] eqn:E.
    + apply okOr_ok. auto.
    + right. split; [reflexivity|]. left. unfold searchMeasure. rewrite E. cbn. lia.
  - cbn [searchLoop]. destruct (queue s) as [|node rest] eqn:E.
    + apply okOr_ok. auto.
    + destruct Hinv as (Hqs & Hnd & Hvis & Hbest). rewrite E in Hqs.
      inversion Hqs as [|? ? Hnode Hrest]; subst.
      set (s0 := mkSearch rest (visited s) (bestScore s) (bestPath s) (bestTarget s)).
      assert (Hinv0 : searchInv (grid state) p0 s0) by (unfold searchInv; cbn; auto).
      assert (Hm : searchMeasure p0 s = S (searchMeasure p0 s0)).
      { unfold searchMeasure, s0. cbn [queue visited]. rewrite E. cbn. lia. }
      eapply okOr_bind.
      * eapply okOr_weaken;
          [apply (searchStep_inv dropFuel eff w node s0 Hnode Hinv0)
          |intros a Ha; exact Ha|intros H; right; exact H].
      * intros s' [Hinv' Hle]. cbn beta.
        eapply okOr_weaken; [apply IH; exact Hinv'|auto|].
        intros [H|H]; [left; lia|right; exact H].
Qed.

Hypothesis Hrot0 : (rotation p0 < 4)%nat.

Lemma initialSearch_inv : searchInv (grid state) p0 (initialSearch p0).
Proof.
  unfold searchInv, initialSearch. cbn [queue visited bestPath bestTarget].
  split; [|split; [|split]].
  - constructor; [|constructor]. cbn [npiece]. unfold queued, yLow.
    split; [reflexivity|]. split; [exact Hrot0|]. lia.
  - constructor; [intros []|constructor].
  - constructor; [|constructor]. split; [left; reflexivity|left; reflexivity].
  - reflexivity.
Qed.

Lemma initialSearch_measure :
  (searchMeasure p0 (initialSearch p0) <= S (length (region p0)))%nat.
Proof.
  unfold searchMeasure, unvisited, initialSearch. cbn [queue visited length].
  pose proof (filter_length_le
                (fun k => negb (visitedHas [getPieceKey p0] k)) (region p0)).
  lia.
Qed.

(** The search from [p0] raises no error; with enough fuel it empties the
    queue, having visited each pose once, inside the region. *)
Lemma search_okOr (fuel : nat) (eff : string) (w : Weights) :
  okOr (fun s => searchInv (grid state) p0 s /\ queue s = [])
       (fuel < Nat.max (S (length (region p0))) dropBound)%nat
       (search fuel state eff w p0).
Proof.
  unfold search.
  eapply okOr_weaken; [apply searchLoop_inv; apply initialSearch_inv|auto|].
  pose proof initialSearch_measure. lia.
Qed.

End Search.

Lemma effectiveStrategy_ok (g : Grid) (strategy : string) :
  length g = Z.to_nat GRID_HEIGHT ->
  exists eff, effectiveStrategy g strategy = Ok eff.
Proof.
  intros Hg. unfold effectiveStrategy. destruct (isWell strategy); [|eauto].
  destruct (getColumnHeights_ok g Hg) as (hs & -> & _). cbn [bind]. eauto.
Qed.

(** C5. On a grid of 24 rows of 10 cells, with a block and a next piece of kinds that the
    tables know, [findBestMove] never raises, whatever the fuel.  Without an
    active block it returns the empty path and no target.  When the search
    ends with no candidate recorded it returns the path [hardD] and no
    target. *)
Theorem findBestMove_fallbacks (fuel : nat) (state : State) (strategy : string)
    (w : Weights) :
  tablesOk = true ->
  wf_grid (grid state) ->
  (forall p, Block state = Some p ->
     (ptype p < length blockCoords)%nat /\ (rotation p < 4)%nat) ->
  (forall t, Next state = Some t -> (t < length blockCoords)%nat) ->
  findBestMove fuel state strategy w <> TypeError /\
  (Block state = None -> findBestMove fuel state strategy w = Ok (mkMove [] None)) /\
  (forall p eff s,
     Block state = Some p ->
     effectiveStrategy (grid state) strategy = Ok eff ->
     search fuel state eff w p = Ok s ->
     bestPath s = None ->
     findBestMove fuel state strategy w = Ok (mkMove [hardD] None)).
Proof.
  intros Htab [Hg _] Hblock Hnext.
  destruct (effectiveStrategy_ok (grid state) strategy Hg) as [eff Heff].
  unfold findBestMove. rewrite Heff. cbn [bind].
  split; [|split].
  - destruct (Block state) as [p|] eqn:EB; [|discriminate].
    destruct (Hblock p eq_refl) as [Ht Hr].
    destruct (search_okOr Htab state p Hg Hnext Ht Hr fuel eff w)
      as [(s & -> & _)|[-> _]]; cbn [bind]; discriminate.
  - intros ->. reflexivity.
  - intros p eff' s EB Heff' Hs Hbp. rewrite EB.
    assert (eff' = eff) by congruence. subst eff'.
    rewrite Hs. cbn [bind].
    destruct (Hblock p EB) as [Ht Hr].
    destruct (search_okOr Htab state p Hg Hnext Ht Hr fuel eff w)
      as [(s' & Hs' & (_ & _ & _ & Hbest) & _)|[Hs' _]]; [|congruence].
    assert (s' = s) by congruence. subst s'.
    unfold moveOf. rewrite Hbp, (Hbest Hbp). reflexivity.
Qed.

(** C9. On a grid of 24 rows of 10 cells, with a block and a next piece of kinds that the
    tables know, [findBestMove] terminates: some amount of fuel is enough,
    and with it the call returns a move.  The search then ends with an empty
    queue; no pose was marked visited twice; every visited pose lies in the
    finite region around the grid and, the starting pose apart, does not
    collide. *)
Theorem findBestMove_terminates (state : State) (strategy : string) (w : Weights) :
  tablesOk = true ->
  wf_grid (grid state) ->
  (forall p, Block state = Some p ->
     (ptype p < length blockCoords)%nat /\ (rotation p < 4)%nat) ->
  (forall t, Next state = Some t -> (t < length blockCoords)%nat) ->
  exists fuel0 : nat, forall fuel : nat, (fuel0 <= fuel)%nat ->
    exists move : Move,
      findBestMove fuel state strategy w = Ok move /\
      (forall p, Block state = Some p ->
         exists eff s,
           effectiveStrategy (grid state) strategy = Ok eff /\
           search fuel state eff w p = Ok s /\
           move = moveOf s /\
           queue s = [] /\
           NoDup (visited s) /\
           Forall (fun k => In k (region p) /\
                            (k = getPieceKey p \/
                             freePose (grid state) (ptype p) k)) (visited s)).
Proof.
  intros Htab [Hg _] Hblock Hnext.
  destruct (effectiveStrategy_ok (grid state) strategy Hg) as [eff Heff].
  unfold findBestMove. rewrite Heff. cbn [bind].
  destruct (Block state) as [p|] eqn:EB.
  - destruct (Hblock p eq_refl) as [Ht Hr].
    exists (Nat.max (S (length (region p))) dropBound). intros fuel Hfuel.
    destruct (search_okOr Htab state p Hg Hnext Ht Hr fuel eff w)
      as [(s & Hs & (_ & Hnd & Hvis & _) & Hq)|[_ Hstarved]]; [|lia].
    exists (moveOf s). rewrite Hs. cbn [bind]. split; [reflexivity|].
    intros p' Hp'. injection Hp' as <-. exists eff, s. auto 10.
  - exists 0%nat. intros fuel _. exists (mkMove [] None).
    split; [reflexivity|]. intros p Hp. discriminate.
Qed.


(** * Further properties of [game.js] and [ai.js] *)

Section Shapes.

Hypothesis Hshapes : shapesComplete = true.

Lemma shapeOf_complete (type r : nat) :
  (type < length blockCoords)%nat -> (r < 4)%nat ->
  exists shape, shapeOf type r = Ok shape /\ shape <> [] /\
    Forall (fun c => Z.abs (fst c) <= maxOffset /\ Z.abs (snd c) <= maxOffset) shape.
Proof.
  intros Ht Hr. unfold shapeOf.
  destruct (nth_error blockCoords type) as [rots|] eqn:E.
  2:{ apply nth_error_None in E. lia. }
  apply nth_error_In in E.
  unfold shapesComplete in Hshapes. rewrite forallb_forall in Hshapes.
  destruct (proj1 (andb_true_iff _ _) (Hshapes rots E)) as [H4 Hne].
  apply Nat.eqb_eq in H4.
  destruct (nth_error rots r) as [shape|] eqn:E'.
  2:{ apply nth_error_None in E'. unfold Shape in *. lia. }
  exists shape. split; [reflexivity|]. apply nth_error_In in E'. split.
  - rewrite forallb_forall in Hne. specialize (Hne shape E').
    destruct shape; [discriminate|congruence].
  - apply Forall_forall. intros c Hc.
    pose (f := fun c : Z * Z => Z.max (Z.abs (fst c)) (Z.abs (snd c))).
    assert (Hin : In (f c) (map f (concat (concat blockCoords)))).
    { apply in_map. apply in_concat. exists shape. split; [|exact Hc].
      apply in_concat. exists rots. auto. }
    apply fold_right_max_ge in Hin. subst f. cbv beta in Hin.
    unfold maxOffset. lia.
Qed.

Lemma collides_complete (grid : Grid) (p : Piece) (dx dy : Z) (r : nat) :
  length grid = 24%nat -> (ptype p < length blockCoords)%nat ->
  exists b, collidesWithGrid grid p dx dy r = Ok b.
Proof.
  intros Hg Ht. unfold collidesWithGrid.
  destruct (shapeOf_complete (ptype p) ((rotation p + r) mod 4)) as (shape & -> & _);
    [exact Ht|apply Nat.mod_upper_bound; lia|].
  cbn [bind]. destruct (collidesLoop_spec grid shape (px p + dx) (py p + dy) Hg)
    as (b & Hb & _).
  eauto.
Qed.

(** In bounds: what a pose that does not collide says of every cell. *)
Lemma collidesLoop_false_bounds (grid : Grid) (shape : Shape) (x y : Z) :
  collidesLoop grid shape x y = Ok false ->
  Forall (fun c => 0 <= x + fst c < COLS /\ y + snd c < GRID_HEIGHT) shape.
Proof.
  induction shape as [|c rest IH]; intros H; [constructor|].
  cbn [collidesLoop] in H.
  destruct ((x + fst c <? 0) || (COLS <=? x + fst c) || (GRID_HEIGHT <=? y + snd c))
    eqn:Hout; [discriminate|].
  rewrite !orb_false_iff in Hout. destruct Hout as [[H1 H2] H3].
  apply Z.ltb_ge in H1. apply Z.leb_gt in H2. apply Z.leb_gt in H3.
  assert (Hrest : collidesLoop grid rest x y = Ok false).
  { destruct (0 <=? y + snd c); [|exact H].
    destruct (gridCell grid (y + snd c) (x + fst c)) as [[|]| |];
      cbn [bind] in H; try discriminate. exact H. }
  constructor; [lia|apply IH; exact Hrest].
Qed.

Lemma free_box (grid : Grid) (p : Piece) (dx dy : Z) (r : nat) :
  (ptype p < length blockCoords)%nat ->
  collidesWithGrid grid p dx dy r = Ok false ->
  - maxOffset <= px p + dx < COLS + maxOffset /\ py p + dy < GRID_HEIGHT + maxOffset.
Proof.
  intros Ht. unfold collidesWithGrid.
  destruct (shapeOf_complete (ptype p) ((rotation p + r) mod 4))
    as (shape & -> & Hne & Hb);
    [exact Ht|apply Nat.mod_upper_bound; lia|].
  cbn [bind]. intros Hc. apply collidesLoop_false_bounds in Hc.
  destruct shape as [|c rest]; [congruence|].
  inversion Hb as [|? ? [Hx Hy] _]; subst.
  inversion Hc as [|? ? [Hcx Hcy] _]; subst.
  unfold COLS, GRID_HEIGHT in *. lia.
Qed.

(** *** [calculateGhostPosition] *)

Lemma ghostLoop_okOr (fuel : nat) (grid : Grid) (block : Piece) (y : Z) :
  length grid = 24%nat -> (ptype block < length blockCoords)%nat ->
  okOr (fun _ => True)
       (Z.of_nat fuel <= Z.max 0 (GRID_HEIGHT + maxOffset - 1 - y))
       (ghostLoop fuel grid block y).
Proof.
  intros Hg Ht. revert y. induction fuel as [|fuel IH]; intros y.
  - right. split; [reflexivity|]. cbn. lia.
  - cbn [ghostLoop].
    destruct (collides_complete grid
                (mkPiece (ptype block) (rotation block) (px block) (y + 1)) 0 0 0 Hg Ht)
      as [b Hb].
    rewrite Hb. cbn [bind]. destruct b; [left; eauto|].
    apply (free_box grid (mkPiece (ptype block) (rotation block) (px block) (y + 1))
             0 0 0%nat Ht) in Hb.
    cbn [px py] in Hb.
    destruct (IH (y + 1)) as [(a & Ha & _)|[Ho Hs]]; [left; eauto|].
    right. split; [exact Ho|]. lia.
Qed.

End Shapes.

Lemma ghostLoop_more_fuel (fuel : nat) (grid : Grid) (block : Piece) (y gy : Z) :
  ghostLoop fuel grid block y = Ok gy ->
  forall fuel', (fuel <= fuel')%nat -> ghostLoop fuel' grid block y = Ok gy.
Proof.
  revert y. induction fuel as [|fuel IH]; intros y H fuel' Hle; [discriminate|].
  destruct fuel' as [|fuel']; [lia|].
  cbn [ghostLoop] in *.
  destruct (collidesWithGrid grid _ 0 0 0) as [[|]| |]; cbn [bind] in *;
    try discriminate; [exact H|].
  apply IH; [exact H|lia].
Qed.

Lemma collides_down_is_next (grid : Grid) (p : Piece) :
  collidesWithGrid grid p 0 1 0 =
  collidesWithGrid grid (mkPiece (ptype p) (rotation p) (px p) (py p + 1)) 0 0 0.
Proof.
  unfold collidesWithGrid. cbn [ptype rotation px py].
  rewrite !Z.add_0_r. reflexivity.
Qed.

Lemma ghostLoop_rests (fuel : nat) (grid : Grid) (block : Piece) (y gy : Z) :
  ghostLoop fuel grid block y = Ok gy ->
  y <= gy /\
  collidesWithGrid grid (mkPiece (ptype block) (rotation block) (px block) gy) 0 1 0
    = Ok true /\
  (collidesWithGrid grid (mkPiece (ptype block) (rotation block) (px block) y) 0 0 0
     = Ok false ->
   collidesWithGrid grid (mkPiece (ptype block) (rotation block) (px block) gy) 0 0 0
     = Ok false).
Proof.
  revert y. induction fuel as [|fuel IH]; intros y H; [discriminate|].
  cbn [ghostLoop] in H.
  destruct (collidesWithGrid grid
              (mkPiece (ptype block) (rotation block) (px block) (y + 1)) 0 0 0)
    as [[|]| |] eqn:E; cbn [bind] in H; try discriminate.
  - injection H as <-. split; [lia|]. split; [|auto].
    rewrite collides_down_is_next. exact E.
  - destruct (IH (y + 1) H) as (Hle & Hrest & Hfree).
    split; [lia|]. split; [exact Hrest|]. intros _. apply Hfree. exact E.
Qed.

(** X1. [calculateGhostPosition] on a 24-row grid, for a block of a known
    kind: with fuel above [24 + maxOffset - y] it returns a row [ghostY],
    the same for any larger fuel; [ghostY] is at or below the block's row;
    the block moved there cannot go one row further down; it is free there
    if it was free where it stood; and projecting the projected block again
    gives [ghostY] again. *)
Theorem calculateGhostPosition_rests (block : Piece) (grid : Grid) :
  shapesComplete = true ->
  length grid = 24%nat ->
  (ptype block < length blockCoords)%nat ->
  exists ghostY : Z,
    (forall fuel : nat,
       (Z.to_nat (GRID_HEIGHT + maxOffset - py block) < fuel)%nat ->
       calculateGhostPosition fuel block grid = Ok ghostY) /\
    py block <= ghostY /\
    collidesWithGrid grid
      (mkPiece (ptype block) (rotation block) (px block) ghostY) 0 1 0 = Ok true /\
    (freePiece grid block ->
     freePiece grid (mkPiece (ptype block) (rotation block) (px block) ghostY)) /\
    (forall fuel : nat,
       calculateGhostPosition (S fuel)
         (mkPiece (ptype block) (rotation block) (px block) ghostY) grid = Ok ghostY).
Proof.
  intros Hs Hg Ht.
  set (fuel0 := S (Z.to_nat (GRID_HEIGHT + maxOffset - py block))).
  destruct (ghostLoop_okOr Hs fuel0 grid block (py block) Hg Ht)
    as [(gy & Hgy & _)|[_ Hstarved]].
  2:{ exfalso. unfold fuel0 in Hstarved. lia. }
  exists gy. destruct (ghostLoop_rests _ _ _ _ _ Hgy) as (Hle & Hrest & Hfree).
  split; [|split; [exact Hle|split; [exact Hrest|split]]].
  - intros fuel Hfuel. unfold calculateGhostPosition.
    apply (ghostLoop_more_fuel fuel0); [exact Hgy|unfold fuel0; lia].
  - unfold freePiece. destruct block as [t r x y]. cbn [ptype rotation px py] in *.
    exact Hfree.
  - intros fuel. unfold calculateGhostPosition. cbn [ghostLoop ptype rotation px py].
    rewrite collides_down_is_next in Hrest. cbn [ptype rotation px py] in Hrest.
    rewrite Hrest. reflexivity.
Qed.

(** *** [lockBlock] against the lock of the search *)

Lemma gridSet_missing_row (grid : Grid) (row col v : nat) :
  nth_error grid row = None -> gridSet grid row col v = TypeError.
Proof.
  revert row. induction grid as [|r rest IH]; intros row H.
  - destruct row; reflexivity.
  - destruct row as [|n]; [discriminate|]. cbn [gridSet].
    cbn in H. rewrite (IH n H). reflexivity.
Qed.

Lemma gridWrite_gridSet (grid : Grid) (row col : Z) (v : nat) :
  0 <= col ->
  gridWrite grid row col v = gridSet grid (Z.to_nat row) (Z.to_nat col) v.
Proof.
  intros Hc. unfold gridWrite.
  destruct (nth_error grid (Z.to_nat row)) eqn:E.
  - destruct (col <? 0) eqn:E'; [apply Z.ltb_lt in E'; lia|reflexivity].
  - symmetry. apply gridSet_missing_row. exact E.
Qed.

Lemma lockBlockLoop_lockLoop (grid : Grid) (shape : Shape) (x y : Z) (type : nat) :
  Forall (fun c => 0 <= x + fst c < COLS /\ y + snd c < GRID_HEIGHT) shape ->
  lockBlockLoop grid shape x y type = lockLoop grid shape x y type.
Proof.
  intros H. revert grid. induction H as [|c rest [Hx Hy] _ IH]; intros grid;
    [reflexivity|].
  cbn [lockBlockLoop lockLoop].
  assert (E2 : (y + snd c <? GRID_HEIGHT) = true) by (apply Z.ltb_lt; lia).
  assert (E3 : (0 <=? x + fst c) = true) by (apply Z.leb_le; lia).
  assert (E4 : (x + fst c <? COLS) = true) by (apply Z.ltb_lt; lia).
  rewrite E2, E3, E4, !andb_true_r.
  destruct (0 <=? y + snd c); [|apply IH].
  rewrite gridWrite_gridSet by lia.
  destruct (gridSet grid _ _ _) as [g'| |]; cbn [bind]; auto.
Qed.

(** X2. For a block that does not collide where it stands, [lockBlock] of
    the game writes the grid that the search writes when it locks the same
    pose ([lockLoop], which also tests the columns and the floor). *)
Theorem lockBlock_as_search_lock (g : Game) (block : Piece) (shape : Shape) :
  gBlock g = Some block ->
  (rotation block < 4)%nat ->
  shapeOf (ptype block) (rotation block) = Ok shape ->
  freePiece (gGrid g) block ->
  (g' <- lockBlock g ;; Ok (gGrid g')) =
  lockLoop (gGrid g) shape (px block) (py block) (ptype block).
Proof.
  intros Hb Hr Hshape Hfree. unfold lockBlock.
  cbn [gBlock setScore setSoftDrop setDrought gGrid]. rewrite Hb, Hshape.
  cbn [bind].
  unfold freePiece, collidesWithGrid in Hfree.
  rewrite Nat.add_0_r, Nat.mod_small, Hshape in Hfree by exact Hr.
  cbn [bind] in Hfree. rewrite !Z.add_0_r in Hfree.
  apply collidesLoop_false_bounds in Hfree.
  rewrite (lockBlockLoop_lockLoop _ _ _ _ _ Hfree).
  destruct (lockLoop _ _ _ _ _) as [g'| |]; reflexivity.
Qed.

(** *** The line clear of the game against [simulateLineClearing] *)

Lemma linesLoop_fullRows (grid : Grid) (pre post : Grid) (acc : list nat) :
  grid = pre ++ post ->
  linesLoop grid (length pre) (length post) acc =
    Ok (acc ++ fullRowsFrom post (length pre)).
Proof.
  revert pre acc. induction post as [|row post IH]; intros pre acc Hg.
  - cbn. rewrite app_nil_r. reflexivity.
  - cbn [length linesLoop fullRowsFrom].
    assert (Hrow : gridRow grid (Z.of_nat (length pre)) = Ok row).
    { apply gridRow_nth. rewrite Hg, nth_error_app2 by lia.
      rewrite Nat.sub_diag. reflexivity. }
    rewrite Hrow. cbn [bind].
    replace (S (length pre)) with (length (pre ++ [row]))
      by (rewrite length_app; cbn; lia).
    rewrite (IH (pre ++ [row])) by (rewrite <- app_assoc; exact Hg).
    destruct (rowFull row); [rewrite <- app_assoc|]; reflexivity.
Qed.

Lemma linesToClear_fullRows (grid : Grid) :
  length grid = 24%nat -> linesToClear grid = Ok (fullRowsFrom grid 0).
Proof.
  intros Hg. unfold linesToClear.
  change (Z.to_nat GRID_HEIGHT) with 24%nat. rewrite <- Hg.
  apply (linesLoop_fullRows grid [] grid []). reflexivity.
Qed.

Lemma fullRowsFrom_bounds (post : Grid) (start : nat) :
  Forall (fun i => (start <= i)%nat) (fullRowsFrom post start).
Proof.
  revert start. induction post as [|row post IH]; intros start; [constructor|].
  cbn [fullRowsFrom].
  assert (H : Forall (fun i => (start <= i)%nat) (fullRowsFrom post (S start))).
  { eapply Forall_impl; [|apply IH]. cbn beta. intros; lia. }
  destruct (rowFull row); [constructor; [lia|exact H]|exact H].
Qed.

Lemma insertDescending_smallest (a : nat) (l : list nat) :
  Forall (fun b => (a < b)%nat) l -> insertDescending a l = l ++ [a].
Proof.
  induction 1 as [|b l Hb _ IH]; [reflexivity|].
  cbn [insertDescending].
  destruct (b <? a)%nat eqn:E; [apply Nat.ltb_lt in E; lia|].
  rewrite IH. reflexivity.
Qed.

Lemma sortDescending_fullRows (post : Grid) (start : nat) :
  sortDescending (fullRowsFrom post start) = rev (fullRowsFrom post start).
Proof.
  revert start. induction post as [|row post IH]; intros start; [reflexivity|].
  cbn [fullRowsFrom]. destruct (rowFull row); [|apply IH].
  unfold sortDescending in *. cbn [fold_right rev]. rewrite IH.
  apply insertDescending_smallest.
  apply Forall_rev. eapply Forall_impl; [|apply (fullRowsFrom_bounds post (S start))].
  cbn beta. intros; lia.
Qed.

Lemma splice_fullRows (pre post : Grid) :
  fold_right (fun i acc => splice1 acc i) (pre ++ post)
             (fullRowsFrom post (length pre))
  = pre ++ filter (fun r => negb (rowFull r)) post.
Proof.
  revert pre. induction post as [|row post IH]; intros pre; [reflexivity|].
  cbn [fullRowsFrom filter].
  assert (Hrest :
    fold_right (fun i acc => splice1 acc i) (pre ++ row :: post)
               (fullRowsFrom post (S (length pre)))
    = (pre ++ [row]) ++ filter (fun r => negb (rowFull r)) post).
  { replace (S (length pre)) with (length (pre ++ [row]))
      by (rewrite length_app; cbn; lia).
    rewrite <- IH, <- app_assoc. reflexivity. }
  destruct (rowFull row); cbn [negb].
  - cbn [fold_right]. rewrite Hrest. unfold splice1.
    rewrite <- app_assoc. cbn [app].
    rewrite firstn_app, firstn_all, Nat.sub_diag. cbn [firstn].
    rewrite app_nil_r.
    replace (S (length pre)) with (length pre + 1)%nat by lia.
    rewrite skipn_app, skipn_all2 by lia.
    replace (length pre + 1 - length pre)%nat with 1%nat by lia.
    reflexivity.
  - rewrite Hrest, <- app_assoc. reflexivity.
Qed.

Lemma fold_left_rev {A B : Type} (f : A -> B -> A) (l : list B) (a : A) :
  fold_left f (rev l) a = fold_right (fun i acc => f acc i) a l.
Proof.
  induction l as [|b l IH]; [reflexivity|].
  cbn [rev fold_right]. rewrite fold_left_app, IH. reflexivity.
Qed.

Lemma unshiftBlank_repeat (n : nat) (grid : Grid) :
  unshiftBlank n grid = repeat BLANK_ROW n ++ grid.
Proof.
  revert grid. induction n as [|n IH]; intros grid; [reflexivity|].
  cbn [unshiftBlank]. rewrite IH.
  change (BLANK_ROW :: grid) with ([BLANK_ROW] ++ grid).
  rewrite app_assoc, <- repeat_cons. reflexivity.
Qed.

Lemma fullRowsFrom_length (post : Grid) (start : nat) :
  length (fullRowsFrom post start) = length (filter rowFull post).
Proof.
  revert start. induction post as [|row post IH]; intros start; [reflexivity|].
  cbn [fullRowsFrom filter]. destruct (rowFull row); cbn [length]; rewrite IH;
    reflexivity.
Qed.

Lemma removeLines_simulated (grid : Grid) :
  length grid = 24%nat ->
  exists ls : list nat,
    linesToClear grid = Ok ls /\
    simulateLineClearing grid = Ok (removeLines grid ls, Z.of_nat (length ls)).
Proof.
  intros Hg. exists (fullRowsFrom grid 0).
  split; [apply linesToClear_fullRows; exact Hg|].
  rewrite (simulateLineClearing_eq grid Hg).
  unfold removeLines.
  rewrite sortDescending_fullRows, fold_left_rev.
  pose proof (splice_fullRows [] grid) as Hsp. cbn [app length] in Hsp.
  rewrite Hsp, unshiftBlank_repeat, fullRowsFrom_length. reflexivity.
Qed.

(** X3. On a 24-row grid the line clear of the game is the one the search
    simulates: [placePiece] collects the full rows, and removing them the
    way [finishLineClear] does (splice in descending order, then one blank
    row unshifted per line) gives the grid and the count of
    [simulateLineClearing]. *)
Theorem finishLineClear_as_simulated (grid : Grid) :
  length grid = 24%nat ->
  exists ls : list nat,
    linesToClear grid = Ok ls /\
    simulateLineClearing grid = Ok (removeLines grid ls, Z.of_nat (length ls)).
Proof. exact (removeLines_simulated grid). Qed.

(** *** The invariant of the game *)

Lemma rowSet_length (r : list nat) (col v : nat) :
  (col < length r)%nat -> length (rowSet r col v) = length r.
Proof.
  revert col. induction r as [|a r IH]; intros col H; [cbn in H; lia|].
  destruct col as [|c]; cbn [rowSet length]; [reflexivity|].
  rewrite IH; [reflexivity|cbn in H; lia].
Qed.

Lemma gridSet_wf (grid : Grid) (row col v : nat) :
  Forall (fun r => length r = Z.to_nat COLS) grid ->
  (row < length grid)%nat -> (col < Z.to_nat COLS)%nat ->
  exists g', gridSet grid row col v = Ok g' /\ length g' = length grid /\
             Forall (fun r => length r = Z.to_nat COLS) g'.
Proof.
  intros Hw. revert row. induction Hw as [|r rest Hr Hrest IH]; intros row H Hc;
    [cbn in H; lia|].
  destruct row as [|n]; cbn [gridSet].
  - eexists. split; [reflexivity|]. split; [reflexivity|].
    constructor; [|exact Hrest]. rewrite rowSet_length; [exact Hr|lia].
  - destruct (IH n) as (g' & -> & Hl & Hw'); [cbn in H; lia|exact Hc|].
    cbn [bind]. eexists. split; [reflexivity|]. split; [cbn; lia|].
    constructor; assumption.
Qed.

Lemma lockLoop_wf (grid : Grid) (shape : Shape) (x y : Z) (type : nat) :
  wf_grid grid ->
  exists g', lockLoop grid shape x y type = Ok g' /\ wf_grid g'.
Proof.
  revert grid. induction shape as [|c rest IH]; intros grid Hw;
    [exists grid; split; [reflexivity|exact Hw]|].
  cbn [lockLoop].
  destruct ((0 <=? y + snd c) && (y + snd c <? GRID_HEIGHT) && (0 <=? x + fst c)
            && (x + fst c <? COLS)) eqn:E; [|apply IH; exact Hw].
  rewrite !andb_true_iff in E. destruct E as [[[E1 E2] E3] E4].
  apply Z.leb_le in E1, E3. apply Z.ltb_lt in E2, E4.
  destruct Hw as [Hl Hw].
  destruct (gridSet_wf grid (Z.to_nat (y + snd c)) (Z.to_nat (x + fst c)) (S type) Hw)
    as (g' & -> & Hl' & Hw'); [rewrite Hl; lia|lia|].
  cbn [bind]. apply IH. split; [congruence|exact Hw'].
Qed.

Lemma simulateLineClearing_wf (grid : Grid) :
  wf_grid grid ->
  exists g' c, simulateLineClearing grid = Ok (g', c) /\ wf_grid g'.
Proof.
  intros [Hl Hw]. rewrite (simulateLineClearing_eq grid Hl).
  eexists _, _. split; [reflexivity|]. split.
  - rewrite length_app, repeat_length, filter_split_length. exact Hl.
  - apply Forall_app. split.
    + apply Forall_forall. intros r Hr. apply repeat_spec in Hr. subst r. reflexivity.
    + apply Forall_forall. intros r Hr. apply filter_In in Hr as [Hr _].
      rewrite Forall_forall in Hw. apply Hw. exact Hr.
Qed.

Ltac game_fields :=
  cbn [setGrid setBlock setNext setGhost setLinesBeingCleared setGameOver setScore
       setLines setLevel setSpeed setSoftDrop setLevelUp setDrought
       setPieceQueueIndex gGrid pieceQueue gNext gameOver pieceQueueIndex gBlock
       linesBeingCleared ghostPiece score lines level speed softDrop levelUp
       gDrought] in *.

Section GameInvariant.

Hypothesis Hshapes : shapesComplete = true.
Hypothesis HkicksE : kicksCompleteE = true.

Lemma maxKickE_nonneg : 0 <= maxKickE.
Proof. apply fold_right_max_nonneg. Qed.

Lemma ghost_starved (fuel : nat) (y y' : Z) :
  Z.min y 0 - maxKickE <= y' ->
  Z.of_nat fuel <= Z.max 0 (GRID_HEIGHT + maxOffset - 1 - y') ->
  (fuel < gameFuel y)%nat.
Proof.
  intros Hy H. pose proof maxOffset_nonneg. pose proof maxKickE_nonneg.
  unfold gameFuel, GRID_HEIGHT in *. lia.
Qed.

Lemma gameOk_setGhost (g : Game) (gh : option Piece) :
  gameOk g -> gameOk (setGhost g gh).
Proof. intros H. exact H. Qed.

Lemma gameOk_live (g : Game) (p : Piece) :
  gameOk g -> gBlock g = Some p -> gameOver g = false.
Proof.
  intros (_ & _ & _ & _ & Hover & _) Hb.
  destruct (gameOver g); [|reflexivity].
  rewrite (Hover eq_refl) in Hb. discriminate.
Qed.

Lemma gameOk_setBlock (g : Game) (p np : Piece) :
  gameOk g -> linesBeingCleared g = None -> gBlock g = Some p ->
  liveBlock (gGrid g) np -> gameOk (setBlock g (Some np)).
Proof.
  intros Hok Hl Hb Hlive. pose proof (gameOk_live g p Hok Hb) as Hrun.
  destruct Hok as (H1 & H2 & H3 & H4 & H5 & H6).
  unfold gameOk. cbn [setBlock gGrid pieceQueue gNext gameOver pieceQueueIndex gBlock
                     linesBeingCleared].
  rewrite Hl.
  split; [exact H1|]. split; [exact H2|]. split; [exact H3|].
  split; [exact H4|]. split; [intros Ho; congruence|].
  intros q Hq. injection Hq as <-. exact Hlive.
Qed.

Lemma updateGhostPiece_okOr (fuel : nat) (g : Game) (y : Z) :
  gameOk g -> linesBeingCleared g = None ->
  (forall p, gBlock g = Some p -> Z.min y 0 - maxKickE <= py p) ->
  okOr gameOk (fuel < gameFuel y)%nat (updateGhostPiece fuel g).
Proof.
  intros Hok Hl Hy. unfold updateGhostPiece.
  destruct (gBlock g) as [p|] eqn:Hb; [|left; eexists; split; [reflexivity|exact Hok]].
  pose proof Hok as (Hw & _ & _ & _ & _ & Hlive). rewrite Hl in Hlive.
  destruct (Hlive p Hb) as (Ht & _ & _).
  unfold calculateGhostPosition.
  destruct (ghostLoop_okOr Hshapes fuel (gGrid g) p (py p) (proj1 Hw) Ht)
    as [(gy & -> & _)|[-> Hs]].
  - cbn [bind]. left. eexists. split; [reflexivity|exact Hok].
  - right. split; [reflexivity|].
    apply (ghost_starved fuel y (py p)); [apply Hy; reflexivity|exact Hs].
Qed.

Lemma moved_live (grid : Grid) (p : Piece) (dx dy : Z) (r : nat) :
  liveBlock grid p -> collidesWithGrid grid p dx dy r = Ok false ->
  liveBlock grid
    (mkPiece (ptype p) ((rotation p + r) mod 4)%nat (px p + dx) (py p + dy)).
Proof.
  intros (Ht & Hr & _) Hc. unfold liveBlock. cbn [ptype rotation].
  split; [exact Ht|]. split; [apply Nat.mod_upper_bound; lia|].
  unfold freePiece. rewrite <- collides_moved. exact Hc.
Qed.

Lemma translated_live (grid : Grid) (p : Piece) (dx dy : Z) :
  liveBlock grid p -> collidesWithGrid grid p dx dy 0 = Ok false ->
  liveBlock grid (mkPiece (ptype p) (rotation p) (px p + dx) (py p + dy)).
Proof.
  intros Hlive Hc. pose proof (moved_live grid p dx dy 0%nat Hlive Hc) as H.
  rewrite Nat.add_0_r, Nat.mod_small in H by apply Hlive. exact H.
Qed.

(** [spawnBlock] while the game runs and no clear is pending: the piece
    shown as next becomes the block at the start position, unless it
    collides there, which ends the game. *)
Lemma spawnBlock_okOr (fuel : nat) (g : Game) (y : Z) :
  wf_grid (gGrid g) ->
  Forall (fun t => (t < length blockCoords)%nat) (pieceQueue g) ->
  gameOver g = false ->
  (pieceQueueIndex g < length (pieceQueue g))%nat ->
  gNext g = nth_error (pieceQueue g) (pieceQueueIndex g) ->
  linesBeingCleared g = None ->
  okOr (fun g' => gameOk g' /\ linesBeingCleared g' = None /\ spawned g g')
       (fuel < gameFuel y)%nat (spawnBlock fuel g).
Proof.
  intros Hw Hq Hrun Hidx Hnext Hl. unfold spawnBlock.
  set (index := if (length (pieceQueue g) <=? S (pieceQueueIndex g))%nat
                then 0%nat else S (pieceQueueIndex g)).
  assert (Hindex : (index < length (pieceQueue g))%nat).
  { unfold index. destruct (length (pieceQueue g) <=? S (pieceQueueIndex g))%nat eqn:E;
      [lia|apply Nat.leb_gt in E; exact E]. }
  cbn [gNext setPieceQueueIndex pieceQueue gGrid].
  destruct (gNext g) as [type|] eqn:En.
  2:{ symmetry in Hnext. apply nth_error_None in Hnext. lia. }
  assert (Htype : (type < length blockCoords)%nat).
  { symmetry in Hnext. apply nth_error_In in Hnext.
    rewrite Forall_forall in Hq. apply Hq. exact Hnext. }
  destruct (collides_complete Hshapes (gGrid g) (mkPiece type 0 startX startY) 0 0 0
              (proj1 Hw) Htype) as [c Hc].
  rewrite Hc. cbn [bind].
  assert (Hvalid : forall t, nth_error (pieceQueue g) index = Some t ->
                             (t < length blockCoords)%nat).
  { intros t Ht. apply nth_error_In in Ht. rewrite Forall_forall in Hq. auto. }
  destruct c.
  - left. eexists. split; [reflexivity|]. split; [|split; [exact Hl|]].
    + unfold gameOk.
      cbn [setGhost setBlock setGameOver setPieceQueueIndex gGrid pieceQueue gNext
           gameOver pieceQueueIndex gBlock linesBeingCleared].
      rewrite Hl, En.
      split; [exact Hw|]. split; [exact Hq|].
      split; [intros t Ht; injection Ht as <-; exact Htype|].
      split; [discriminate|]. split; [reflexivity|]. discriminate.
    + unfold spawned.
      cbn [setGhost setBlock setGameOver setPieceQueueIndex gGrid pieceQueue gNext
           gameOver pieceQueueIndex gBlock linesBeingCleared].
      exists type. split; [exact En|]. split; [reflexivity|]. left.
      split; [reflexivity|]. split; [reflexivity|exact Hc].
  - set (g1 := setNext (setBlock (setPieceQueueIndex g index)
                                 (Some (mkPiece type 0 startX startY)))
                       (nth_error (pieceQueue g) index)).
    assert (Hok1 : gameOk g1).
    { unfold gameOk, g1.
      cbn [setNext setBlock setPieceQueueIndex gGrid pieceQueue gNext gameOver
           pieceQueueIndex gBlock linesBeingCleared].
      rewrite Hl, Hrun.
      split; [exact Hw|]. split; [exact Hq|]. split; [exact Hvalid|].
      split; [intros _; split; [exact Hindex|reflexivity]|].
      split; [discriminate|].
      intros q Hq'. injection Hq' as <-.
      split; [exact Htype|]. split; [cbn; lia|exact Hc]. }
    destruct (updateGhostPiece_okOr fuel g1 y Hok1 Hl) as [(g' & Hg' & Hok')|[Ho Hs]].
    + intros p Hp. injection Hp as <-. cbn [py]. pose proof maxKickE_nonneg.
      unfold startY. lia.
    + left. exists g'. split; [exact Hg'|]. split; [exact Hok'|].
      unfold updateGhostPiece in Hg'. cbn [gBlock g1 setNext setBlock] in Hg'.
      destruct (calculateGhostPosition fuel _ _) as [gy| |]; cbn [bind] in Hg';
        try discriminate.
      injection Hg' as <-. split; [exact Hl|].
      unfold spawned, g1.
      cbn [setGhost setNext setBlock setPieceQueueIndex gGrid pieceQueue gNext
           gameOver pieceQueueIndex gBlock linesBeingCleared].
      exists type. split; [exact En|]. split; [reflexivity|]. right.
      split; [reflexivity|]. split; [reflexivity|]. split; [reflexivity|exact Hc].
    + right. auto.
Qed.

Lemma lockBlock_ok (g : Game) (p : Piece) :
  gameOk g -> linesBeingCleared g = None -> gBlock g = Some p ->
  exists g', lockBlock g = Ok g' /\ wf_grid (gGrid g') /\
    pieceQueue g' = pieceQueue g /\ pieceQueueIndex g' = pieceQueueIndex g /\
    gNext g' = gNext g /\ gBlock g' = gBlock g /\ gameOver g' = gameOver g /\
    linesBeingCleared g' = None.
Proof.
  intros Hok Hl Hb. pose proof Hok as (Hw & _ & _ & _ & _ & Hlive).
  rewrite Hl in Hlive. destruct (Hlive p Hb) as (Ht & Hr & Hfree).
  unfold lockBlock. game_fields. rewrite Hb.
  destruct (shapeOf_complete Hshapes _ _ Ht Hr) as (shape & Hshape & _).
  rewrite Hshape. cbn [bind].
  unfold freePiece, collidesWithGrid in Hfree.
  rewrite Nat.add_0_r, Nat.mod_small, Hshape in Hfree by exact Hr.
  cbn [bind] in Hfree. rewrite !Z.add_0_r in Hfree.
  apply collidesLoop_false_bounds in Hfree.
  rewrite (lockBlockLoop_lockLoop _ _ _ _ _ Hfree).
  destruct (lockLoop_wf (gGrid g) shape (px p) (py p) (ptype p) Hw) as (g' & -> & Hw').
  cbn [bind]. eexists. split; [reflexivity|]. game_fields. auto 10.
Qed.

Lemma placePiece_okOr (fuel : nat) (g : Game) (p : Piece) (y : Z) :
  gameOk g -> linesBeingCleared g = None -> gBlock g = Some p ->
  okOr gameOk (fuel < gameFuel y)%nat (placePiece fuel g).
Proof.
  intros Hok Hl Hb. pose proof (gameOk_live g p Hok Hb) as Hrun.
  destruct (lockBlock_ok g p Hok Hl Hb)
    as (g1 & Hlock & Hw1 & Hq1 & Hi1 & Hn1 & Hb1 & Ho1 & Hl1).
  destruct Hok as (_ & Hq & Hnv & Hnext & _ & _).
  destruct (Hnext Hrun) as [Hidx Hnx].
  unfold placePiece. rewrite Hlock. cbn [bind].
  rewrite (linesToClear_fullRows (gGrid g1) (proj1 Hw1)). cbn [bind].
  destruct (fullRowsFrom (gGrid g1) 0) as [|l ls] eqn:Els.
  - assert (Hsp : okOr (fun g' => gameOk g' /\ linesBeingCleared g' = None)
                        (fuel < gameFuel y)%nat (spawnBlock fuel g1)).
    { eapply okOr_weaken;
        [apply (spawnBlock_okOr fuel g1 y);
         [exact Hw1|rewrite Hq1; exact Hq|congruence
         |rewrite Hi1, Hq1; exact Hidx
         |rewrite Hn1, Hq1, Hi1; exact Hnx|exact Hl1]
        |intros a (Ha & Hb' & _); auto|auto]. }
    eapply okOr_weaken; [exact Hsp|intros a [Ha _]; exact Ha|auto].
  - assert (Hfinal : forall g2 : Game,
              gGrid g2 = gGrid g1 -> pieceQueue g2 = pieceQueue g ->
              pieceQueueIndex g2 = pieceQueueIndex g -> gNext g2 = gNext g ->
              gameOver g2 = false -> linesBeingCleared g2 = Some (l :: ls) ->
              gameOk g2).
    { intros g2 E1 E2 E3 E4 E5 E6. unfold gameOk.
      rewrite E1, E2, E3, E4, E5, E6.
      split; [exact Hw1|]. split; [exact Hq|]. split; [exact Hnv|].
      split; [intros _; auto|]. split; [discriminate|].
      split; [reflexivity|].
      rewrite <- Els. apply linesToClear_fullRows. exact (proj1 Hw1). }
    cbv zeta. rewrite Hb1, Hb.
    destruct (Nat.eqb (ptype p) BLOCK_I);
      match goal with |- context [if ?c then _ else _] => destruct c end;
      left; (eexists; split; [reflexivity|]);
      apply Hfinal; game_fields; congruence.
Qed.

Lemma shifted_okOr (fuel : nat) (g : Game) (p np : Piece) :
  gameOk g -> linesBeingCleared g = None -> gBlock g = Some p ->
  liveBlock (gGrid g) np -> py p - maxKickE <= py np ->
  okOr gameOk (fuel < gameFuel (py p))%nat
       (updateGhostPiece fuel (setBlock g (Some np))).
Proof.
  intros Hok Hl Hb Hlive Hy.
  apply updateGhostPiece_okOr.
  - apply (gameOk_setBlock g p); assumption.
  - exact Hl.
  - intros q Hq. cbn in Hq. injection Hq as <-. lia.
Qed.

Lemma moveLeft_okOr (fuel : nat) (g : Game) (p : Piece) :
  gameOk g -> linesBeingCleared g = None -> gBlock g = Some p ->
  okOr gameOk (fuel < gameFuel (py p))%nat (moveLeft fuel g).
Proof.
  intros Hok Hl Hb. pose proof Hok as (Hw & _ & _ & _ & _ & Hlive).
  rewrite Hl in Hlive. specialize (Hlive p Hb).
  unfold moveLeft. rewrite Hb.
  destruct (collides_complete Hshapes (gGrid g) p (-1) 0 0 (proj1 Hw) (proj1 Hlive))
    as [c Hc].
  rewrite Hc. cbn [bind]. destruct c; [left; eauto|].
  pose proof (translated_live _ _ _ _ Hlive Hc) as Hnp.
  replace (px p + -1) with (px p - 1) in Hnp by lia. rewrite Z.add_0_r in Hnp.
  apply (shifted_okOr fuel g p); try assumption.
  cbn [py]. pose proof maxKickE_nonneg. lia.
Qed.

Lemma moveRight_okOr (fuel : nat) (g : Game) (p : Piece) :
  gameOk g -> linesBeingCleared g = None -> gBlock g = Some p ->
  okOr gameOk (fuel < gameFuel (py p))%nat (moveRight fuel g).
Proof.
  intros Hok Hl Hb. pose proof Hok as (Hw & _ & _ & _ & _ & Hlive).
  rewrite Hl in Hlive. specialize (Hlive p Hb).
  unfold moveRight. rewrite Hb.
  destruct (collides_complete Hshapes (gGrid g) p 1 0 0 (proj1 Hw) (proj1 Hlive))
    as [c Hc].
  rewrite Hc. cbn [bind]. destruct c; [left; eauto|].
  pose proof (translated_live _ _ _ _ Hlive Hc) as Hnp.
  rewrite Z.add_0_r in Hnp.
  apply (shifted_okOr fuel g p); try assumption.
  cbn [py]. pose proof maxKickE_nonneg. lia.
Qed.

Lemma moveDown_ok (g : Game) (p : Piece) :
  gameOk g -> linesBeingCleared g = None -> gBlock g = Some p ->
  exists g', moveDown g = Ok g' /\ gameOk g'.
Proof.
  intros Hok Hl Hb. pose proof Hok as (Hw & _ & _ & _ & _ & Hlive).
  rewrite Hl in Hlive. specialize (Hlive p Hb).
  unfold moveDown. rewrite Hb.
  destruct (collides_complete Hshapes (gGrid g) p 0 1 0 (proj1 Hw) (proj1 Hlive))
    as [c Hc].
  rewrite Hc. cbn [bind]. destruct c; [eauto|].
  pose proof (translated_live _ _ _ _ Hlive Hc) as Hnp.
  rewrite Z.add_0_r in Hnp.
  eexists. split; [reflexivity|].
  exact (gameOk_setBlock g p _ Hok Hl Hb Hnp).
Qed.

Lemma rotate_okOr (fuel : nat) (g : Game) (p : Piece) (srsArray : list (Z * Z * nat)) :
  gameOk g -> linesBeingCleared g = None -> gBlock g = Some p ->
  Forall (fun e => Z.abs (snd (fst e)) <= maxKickE) srsArray ->
  okOr gameOk (fuel < gameFuel (py p))%nat (rotate fuel g p srsArray).
Proof.
  intros Hok Hl Hb Hk. pose proof Hok as (Hw & _ & _ & _ & _ & Hlive).
  rewrite Hl in Hlive. specialize (Hlive p Hb).
  induction Hk as [|e rest Hy _ IH];
    [left; exists g; split; [reflexivity|exact Hok]|].
  destruct e as [[x y] r]. cbn [rotate].
  destruct (collides_complete Hshapes (gGrid g) p x y r (proj1 Hw) (proj1 Hlive))
    as [c Hc].
  rewrite Hc. cbn [bind]. destruct c; [exact IH|].
  apply (shifted_okOr fuel g p); try assumption.
  - apply moved_live; assumption.
  - cbn [py fst snd] in *. lia.
Qed.

Lemma kick_entries_bounded (table : list (list (Z * Z * nat))) (r : nat) :
  In table [rotIleftE; rotIrightE; rotJLTSZleftE; rotJLTSZrightE] -> (r < 4)%nat ->
  exists srsArray, nth_error table r = Some srsArray /\
    Forall (fun e => Z.abs (snd (fst e)) <= maxKickE) srsArray.
Proof.
  intros Hin Hr.
  unfold kicksCompleteE in HkicksE. rewrite forallb_forall in HkicksE.
  pose proof (HkicksE table Hin) as H4. apply Nat.leb_le in H4.
  destruct (nth_error table r) as [srsArray|] eqn:E.
  2:{ apply nth_error_None in E. lia. }
  exists srsArray. split; [reflexivity|]. apply nth_error_In in E.
  apply Forall_forall. intros e He.
  pose (f := fun e : Z * Z * nat => Z.abs (snd (fst e))).
  assert (H : In (f e) (map f (concat (concat
                 [rotIleftE; rotIrightE; rotJLTSZleftE; rotJLTSZrightE])))).
  { apply in_map. apply in_concat. exists srsArray. split; [|exact He].
    apply in_concat. exists table. auto. }
  apply fold_right_max_ge in H. exact H.
Qed.

Lemma rotateWith_okOr (fuel : nat) (g : Game) (p : Piece)
    (srsI srsJLTSZ : list (list (Z * Z * nat))) :
  In srsI [rotIleftE; rotIrightE; rotJLTSZleftE; rotJLTSZrightE] ->
  In srsJLTSZ [rotIleftE; rotIrightE; rotJLTSZleftE; rotJLTSZrightE] ->
  gameOk g -> linesBeingCleared g = None -> gBlock g = Some p ->
  okOr gameOk (fuel < gameFuel (py p))%nat (rotateWith fuel g srsI srsJLTSZ).
Proof.
  intros HI HJ Hok Hl Hb. pose proof Hok as (_ & _ & _ & _ & _ & Hlive).
  rewrite Hl in Hlive. destruct (Hlive p Hb) as (_ & Hr & _).
  unfold rotateWith. rewrite Hb.
  destruct (Nat.eqb (ptype p) BLOCK_O); [left; eauto|].
  set (srs := if Nat.eqb (ptype p) BLOCK_I then srsI else srsJLTSZ).
  assert (Hin : In srs [rotIleftE; rotIrightE; rotJLTSZleftE; rotJLTSZrightE])
    by (unfold srs; destruct (Nat.eqb (ptype p) BLOCK_I); assumption).
  destruct (kick_entries_bounded srs (rotation p) Hin Hr) as (srsArray & -> & Hk).
  apply rotate_okOr; assumption.
Qed.

Lemma hardDrop_okOr (fuel : nat) (g : Game) (p : Piece) :
  gameOk g -> linesBeingCleared g = None -> gBlock g = Some p ->
  okOr gameOk (fuel < gameFuel (py p))%nat (hardDrop fuel g).
Proof.
  intros Hok Hl Hb. pose proof Hok as (Hw & _ & _ & _ & _ & Hlive).
  rewrite Hl in Hlive. pose proof (Hlive p Hb) as Hp.
  destruct Hp as (Ht & Hr & Hfree).
  unfold hardDrop. rewrite Hb. unfold calculateGhostPosition.
  destruct (ghostLoop_okOr Hshapes fuel (gGrid g) p (py p) (proj1 Hw) Ht)
    as [(gy & Hgy & _)|[-> Hs]].
  2:{ right. split; [reflexivity|].
      apply (ghost_starved fuel (py p) (py p)); [|exact Hs].
      pose proof maxKickE_nonneg. lia. }
  rewrite Hgy. cbn [bind]. cbv zeta.
  destruct (ghostLoop_rests _ _ _ _ _ Hgy) as (_ & _ & Hfree').
  assert (Hnp : liveBlock (gGrid g) (mkPiece (ptype p) (rotation p) (px p) gy)).
  { split; [exact Ht|]. split; [exact Hr|]. apply Hfree'.
    destruct p; exact Hfree. }
  apply (placePiece_okOr fuel _ (mkPiece (ptype p) (rotation p) (px p) gy)).
  - apply (gameOk_setBlock (setScore g _) p); assumption.
  - exact Hl.
  - reflexivity.
Qed.

Lemma handleAiAction_okOr (fuel : nat) (action : Action) (g : Game) (p : Piece) :
  gameOk g -> linesBeingCleared g = None -> gBlock g = Some p ->
  okOr gameOk (fuel < gameFuel (py p))%nat (handleAiAction fuel action g).
Proof.
  intros Hok Hl Hb. destruct action; cbn [handleAiAction].
  - apply moveLeft_okOr; assumption.
  - apply moveRight_okOr; assumption.
  - destruct (moveDown_ok g p Hok Hl Hb) as (g' & -> & Hok'). left. eauto.
  - apply rotateWith_okOr; cbn; auto.
  - apply rotateWith_okOr; cbn; auto.
  - apply hardDrop_okOr; assumption.
Qed.

(** X4. On a game in its running state (24 x 10 grid, a live block, no
    line clear pending) each of the six actions of [handleAiAction] returns
    without raising, given fuel [gameFuel] for the ghost projection, and
    leaves a game in a state the game keeps: the grid is still 24 x 10 and
    the block, if there is one and no clear is pending, does not collide. *)
Theorem handleAiAction_keeps_game (fuel : nat) (action : Action) (g : Game)
    (p : Piece) :
  gameOk g -> linesBeingCleared g = None -> gBlock g = Some p ->
  okOr gameOk (fuel < gameFuel (py p))%nat (handleAiAction fuel action g).
Proof. exact (handleAiAction_okOr fuel action g p). Qed.

Lemma finishLineClear_okOr (fuel : nat) (g : Game) :
  gameOk g ->
  okOr (fun g' => gameOk g' /\ linesBeingCleared g' = None)
       (fuel < gameFuel 0)%nat (finishLineClear fuel g).
Proof.
  intros Hok. unfold finishLineClear.
  destruct (linesBeingCleared g) as [ls|] eqn:El; [|left; eauto].
  destruct Hok as (Hw & Hq & Hnv & Hnext & _ & Hls). rewrite El in Hls.
  destruct Hls as [Hrun Hlines]. destruct (Hnext Hrun) as [Hidx Hnx].
  destruct (removeLines_simulated (gGrid g) (proj1 Hw)) as (ls' & Hls' & Hsim).
  assert (ls' = ls) by congruence. subst ls'.
  destruct (simulateLineClearing_wf (gGrid g) Hw) as (g' & c & Hsim' & Hw').
  assert (Hg' : removeLines (gGrid g) ls = g') by congruence.
  eapply okOr_weaken;
    [apply (spawnBlock_okOr fuel _ 0); game_fields;
     [rewrite Hg'; exact Hw'|exact Hq|exact Hrun|exact Hidx|exact Hnx|reflexivity]
    |intros a (Ha & Hb & _); auto|auto].
Qed.

(** X5. The two other operations of the game loop keep the game as well:
    [applyGravity] on a running game, and [finishLineClear], which on a
    pending clear removes the full rows, refills the grid to 24 rows and
    leaves no clear pending. *)
Theorem applyGravity_finishLineClear_keep_game (fuel : nat) (g : Game) :
  gameOk g ->
  (forall p, linesBeingCleared g = None -> gBlock g = Some p ->
     okOr gameOk (fuel < gameFuel (py p))%nat (applyGravity fuel g)) /\
  okOr (fun g' => gameOk g' /\ linesBeingCleared g' = None)
       (fuel < gameFuel 0)%nat (finishLineClear fuel g).
Proof.
  intros Hok. split.
  - intros p Hl Hb. pose proof Hok as (Hw & _ & _ & _ & _ & Hlive).
    rewrite Hl in Hlive. specialize (Hlive p Hb).
    unfold applyGravity. rewrite Hb.
    destruct (collides_complete Hshapes (gGrid g) p 0 1 0 (proj1 Hw) (proj1 Hlive))
      as [c Hc].
    rewrite Hc. cbn [bind]. destruct c; [apply (placePiece_okOr fuel g p); assumption|].
    pose proof (translated_live _ _ _ _ Hlive Hc) as Hnp.
    rewrite Z.add_0_r in Hnp.
    left. eexists. split; [reflexivity|].
    exact (gameOk_setBlock g p _ Hok Hl Hb Hnp).
  - exact (finishLineClear_okOr fuel g Hok).
Qed.

(** X6. [createInitialState] on a non-empty queue of known kinds returns a
    game in a state the game keeps, on the empty grid: the first kind of the
    queue is the block at the start position (column 3, row 2, rotation 0)
    and the next kind is read from the queue at the new index, unless that
    first piece collides there, which ends the game at once. *)
Theorem createInitialState_starts_game (fuel : nat) (startLevel : Z)
    (queue : list nat) (first : nat) :
  nth_error queue 0 = Some first ->
  Forall (fun t => (t < length blockCoords)%nat) queue ->
  okOr (fun g =>
          gameOk g /\ linesBeingCleared g = None /\ gGrid g = createEmptyGrid /\
          pieceQueue g = queue /\
          ((gameOver g = true /\ gBlock g = None) \/
           (gameOver g = false /\ gBlock g = Some (mkPiece first 0 3 2) /\
            gNext g = nth_error queue (pieceQueueIndex g) /\
            pieceQueueIndex g = (if (length queue <=? 1)%nat then 0 else 1)%nat)))
       (fuel < gameFuel 0)%nat (createInitialState fuel startLevel queue).
Proof.
  intros Hfirst Hq. unfold createInitialState.
  set (g0 := mkGame _ _ _ _ _ _ _ _ _ _ _ _ _ _ _).
  assert (Hlen : (0 < length queue)%nat).
  { destruct queue; [discriminate|cbn; lia]. }
  destruct (spawnBlock_okOr fuel g0 0) as [(g & Hg & Hok & Hl & Hsp)|[Ho Hs]];
    try (unfold g0; game_fields; auto; fail).
  - unfold g0. cbn. split; [reflexivity|]. repeat constructor.
  - left. exists g. split; [exact Hg|]. split; [exact Hok|]. split; [exact Hl|].
    destruct Hsp as (type & Hn & Hgrid & Hcase).
    unfold g0 in Hn, Hgrid, Hcase. game_fields.
    assert (type = first) by congruence. subst type.
    split; [exact Hgrid|].
    assert (Hpq : pieceQueue g = queue /\
                  pieceQueueIndex g = (if (length queue <=? 1)%nat then 0 else 1)%nat).
    { unfold spawnBlock, g0 in Hg. game_fields. rewrite Hfirst in Hg.
      destruct (collidesWithGrid createEmptyGrid _ 0 0 0) as [[|]| |];
        cbn [bind] in Hg; try discriminate;
        unfold updateGhostPiece in Hg; game_fields;
        [injection Hg as <-; game_fields; auto|].
      destruct (calculateGhostPosition fuel _ _) as [gy| |]; cbn [bind] in Hg;
        try discriminate.
      injection Hg as <-. game_fields. auto. }
    destruct Hpq as [Hpq Hpi]. split; [exact Hpq|].
    destruct Hcase as [(Ho & Hb & _)|(Ho & Hb & Hnx & _)]; [left; auto|right].
    split; [exact Ho|]. split; [exact Hb|]. split; [exact Hnx|exact Hpi].
  - right. auto.
Qed.

End GameInvariant.

(** *** A hard drop against the simulation of the search *)

Lemma updateGhostPiece_trace (fuel : nat) (g g' : Game) :
  updateGhostPiece fuel g = Ok g' -> exists gh, g' = setGhost g gh.
Proof.
  unfold updateGhostPiece. destruct (gBlock g) as [p|].
  - destruct (calculateGhostPosition fuel p (gGrid g)) as [gy| |]; cbn [bind];
      try discriminate.
    intros H. injection H as <-. eauto.
  - intros H. injection H as <-. eauto.
Qed.

Lemma spawnBlock_trace (fuel : nat) (g g' : Game) :
  spawnBlock fuel g = Ok g' ->
  gGrid g' = gGrid g /\ lines g' = lines g /\
  linesBeingCleared g' = linesBeingCleared g.
Proof.
  unfold spawnBlock. game_fields. destruct (gNext g) as [type|]; [|discriminate].
  destruct (collidesWithGrid (gGrid g) _ 0 0 0) as [[|]| |]; cbn [bind];
    try discriminate; intros H; apply updateGhostPiece_trace in H as [gh ->];
    game_fields; auto.
Qed.

Lemma removeLines_nil (grid : Grid) : removeLines grid [] = grid.
Proof. reflexivity. Qed.

Lemma hardDrop_lockAndClear (fuel : nat) (g g1 g2 : Game) (p : Piece) (gy : Z) :
  length (gGrid g) = 24%nat ->
  linesBeingCleared g = None ->
  gBlock g = Some p ->
  (rotation p < 4)%nat ->
  freePiece (gGrid g) p ->
  calculateGhostPosition fuel p (gGrid g) = Ok gy ->
  hardDrop fuel g = Ok g1 ->
  finishLineClear fuel g1 = Ok g2 ->
  exists h : Z,
    lockAndClear (gGrid g) (mkPiece (ptype p) (rotation p) (px p) gy)
      = Ok (gGrid g2, lines g1 - lines g, h) /\
    lines g2 = lines g1.
Proof.
  intros Hlen Hl Hb Hr Hfree Hgy H1 H2.
  unfold hardDrop in H1. rewrite Hb, Hgy in H1. cbn [bind] in H1. cbv zeta in H1.
  unfold placePiece, lockBlock in H1. cbv zeta in H1. game_fields.
  unfold lockAndClear. cbn [ptype rotation px py] in H1 |- *.
  destruct (shapeOf (ptype p) (rotation p)) as [shape| |] eqn:Hshape;
    cbn [bind] in H1 |- *; try discriminate.
  assert (Hfree' : collidesLoop (gGrid g) shape (px p) gy = Ok false).
  { unfold calculateGhostPosition in Hgy.
    destruct (ghostLoop_rests _ _ _ _ _ Hgy) as (_ & _ & Hf).
    assert (Hp : collidesWithGrid (gGrid g)
                   (mkPiece (ptype p) (rotation p) (px p) (py p)) 0 0 0 = Ok false)
      by (destruct p; exact Hfree).
    specialize (Hf Hp). unfold collidesWithGrid in Hf. cbn [ptype rotation px py] in Hf.
    rewrite Nat.add_0_r, Nat.mod_small, Hshape in Hf by exact Hr.
    cbn [bind] in Hf. rewrite !Z.add_0_r in Hf. exact Hf. }
  apply collidesLoop_false_bounds in Hfree'.
  rewrite (lockBlockLoop_lockLoop _ _ _ _ _ Hfree') in H1.
  destruct (lockLoop_ok (gGrid g) shape (px p) gy (ptype p) Hlen) as (grid1 & Hlock & Hlen1).
  rewrite Hlock in H1 |- *. cbn [bind] in H1 |- *. game_fields.
  destruct (getHoles_ok grid1 Hlen1) as (h & Hh). rewrite Hh. cbn [bind].
  destruct (removeLines_simulated grid1 Hlen1) as (ls & Hls & Hsim).
  rewrite Hls in H1. rewrite Hsim. cbn [bind] in H1 |- *.
  exists h. destruct ls as [|l ls].
  - apply spawnBlock_trace in H1 as (Eg & En & El). game_fields.
    unfold finishLineClear in H2. rewrite El, Hl in H2. injection H2 as <-.
    rewrite Eg, En, removeLines_nil. cbn [length]. split; [|reflexivity].
    do 3 f_equal. lia.
  - cbv zeta in H1. game_fields.
    assert (H1' : gGrid g1 = grid1 /\ linesBeingCleared g1 = Some (l :: ls) /\
                  lines g1 = lines g + Z.of_nat (length (l :: ls))).
    { repeat match type of H1 with
             | context [if ?c then _ else _] => destruct c
             end;
        injection H1 as <-; game_fields; auto. }
    destruct H1' as (Eg & El & En).
    unfold finishLineClear in H2. rewrite El in H2.
    apply spawnBlock_trace in H2 as (Eg2 & En2 & _). game_fields.
    rewrite Eg2, Eg, En2, En. split; [|reflexivity].
    do 3 f_equal. lia.
Qed.

(** X7. The board after a move is the board the search computed.  On a
    running game with a free block, [hardDrop] followed by
    [finishLineClear] leaves exactly the grid that [lockAndClear] (the lock
    and clear simulated by [findBestMove]) returns for the block at its
    ghost row, and the game's line counter grows by the simulated
    [clearedCount]. *)
Theorem hardDrop_as_simulated (fuel : nat) (g g1 g2 : Game) (p : Piece) (gy : Z) :
  length (gGrid g) = 24%nat ->
  linesBeingCleared g = None ->
  gBlock g = Some p ->
  (rotation p < 4)%nat ->
  freePiece (gGrid g) p ->
  calculateGhostPosition fuel p (gGrid g) = Ok gy ->
  hardDrop fuel g = Ok g1 ->
  finishLineClear fuel g1 = Ok g2 ->
  exists h : Z,
    lockAndClear (gGrid g) (mkPiece (ptype p) (rotation p) (px p) gy)
      = Ok (gGrid g2, lines g1 - lines g, h) /\
    lines g2 = lines g1.
Proof. exact (hardDrop_lockAndClear fuel g g1 g2 p gy). Qed.

(** *** Full rows *)

Lemma Action_eq_hardD (a : Action) : a = hardD \/ a <> hardD.
Proof. destruct a; (now left) || (right; discriminate). Qed.

Lemma fullRows_none (post : Grid) (start : nat) :
  fullRowsFrom post start = [] -> noFullRow post = true.
Proof.
  revert start. induction post as [|row post IH]; intros start; [reflexivity|].
  cbn [fullRowsFrom noFullRow forallb]. destruct (rowFull row); [discriminate|].
  intros H. apply (IH _ H).
Qed.

Lemma rotate_trace (fuel : nat) (g g' : Game) (p : Piece)
    (srsArray : list (Z * Z * nat)) :
  rotate fuel g p srsArray = Ok g' -> gGrid g' = gGrid g.
Proof.
  induction srsArray as [|[[x y] r] rest IH]; cbn [rotate].
  - intros H. injection H as <-. reflexivity.
  - destruct (collidesWithGrid (gGrid g) p x y r) as [[|]| |]; cbn [bind];
      try discriminate; [exact IH|].
    intros H. apply updateGhostPiece_trace in H as [gh ->]. reflexivity.
Qed.

Lemma moves_keep_grid (fuel : nat) (a : Action) (g g' : Game) :
  a <> hardD -> handleAiAction fuel a g = Ok g' -> gGrid g' = gGrid g.
Proof.
  assert (Hrot : forall srsI srsJ, rotateWith fuel g srsI srsJ = Ok g' ->
                   gGrid g' = gGrid g).
  { intros srsI srsJ. unfold rotateWith.
    destruct (gBlock g) as [p|]; [|intros H; injection H as <-; reflexivity].
    destruct (Nat.eqb (ptype p) BLOCK_O); [intros H; injection H as <-; reflexivity|].
    cbv zeta.
    match goal with |- match ?n with _ => _ end = _ -> _ => destruct n end;
      [|discriminate].
    apply rotate_trace. }
  intros Ha. destruct a; cbn [handleAiAction]; try congruence;
    try apply Hrot;
    unfold moveLeft, moveRight, moveDown;
    (destruct (gBlock g) as [p|]; [|discriminate]);
    match goal with
    | |- context [collidesWithGrid ?gr ?pc ?x ?y ?r] =>
        destruct (collidesWithGrid gr pc x y r) as [[|]| |]
    end; cbn [bind]; try discriminate; intros H;
    try (injection H as <-; reflexivity);
    apply updateGhostPiece_trace in H as [gh ->]; reflexivity.
Qed.

Lemma removeLines_noFull (g : Grid) (ls : list nat) :
  length g = 24%nat -> linesToClear g = Ok ls ->
  noFullRow (removeLines g ls) = true.
Proof.
  intros Hlen Hls.
  destruct (removeLines_simulated g Hlen) as (ls' & Hls' & Hsim).
  assert (ls' = ls) by congruence. subst ls'.
  rewrite (simulateLineClearing_eq g Hlen) in Hsim. injection Hsim as Hg _.
  rewrite <- Hg. unfold noFullRow. rewrite forallb_app. apply andb_true_iff. split.
  - apply forallb_forall. intros r Hr. apply repeat_spec in Hr. subst r. reflexivity.
  - apply forallb_forall. intros r Hr. apply filter_In in Hr as [_ Hr]. exact Hr.
Qed.

Section FullRows.

Hypothesis Hshapes : shapesComplete = true.

Lemma placePiece_noFull (fuel : nat) (g g' : Game) (p : Piece) :
  gameOk g -> linesBeingCleared g = None -> gBlock g = Some p ->
  placePiece fuel g = Ok g' -> linesBeingCleared g' = None ->
  noFullRow (gGrid g') = true.
Proof.
  intros Hok Hl Hb H Hl'.
  destruct (lockBlock_ok Hshapes g p Hok Hl Hb) as (g1 & Hlock & Hw1 & _).
  unfold placePiece in H. rewrite Hlock in H. cbn [bind] in H.
  rewrite (linesToClear_fullRows (gGrid g1) (proj1 Hw1)) in H. cbn [bind] in H.
  destruct (fullRowsFrom (gGrid g1) 0) as [|l ls] eqn:Els.
  - apply spawnBlock_trace in H as (Eg & _). rewrite Eg.
    exact (fullRows_none _ _ Els).
  - exfalso. cbv zeta in H.
    repeat match type of H with
           | context [if ?c then _ else _] => destruct c
           | context [match gBlock ?x with _ => _ end] => destruct (gBlock x)
           end;
      injection H as <-; game_fields; discriminate.
Qed.

Lemma hardDrop_noFull (fuel : nat) (g g' : Game) (p : Piece) :
  gameOk g -> linesBeingCleared g = None -> gBlock g = Some p ->
  hardDrop fuel g = Ok g' -> linesBeingCleared g' = None ->
  noFullRow (gGrid g') = true.
Proof.
  intros Hok Hl Hb H Hl'. pose proof Hok as (Hw & _ & _ & _ & _ & Hlive).
  rewrite Hl in Hlive. destruct (Hlive p Hb) as (Ht & Hr & Hfree).
  unfold hardDrop in H. rewrite Hb in H.
  destruct (calculateGhostPosition fuel p (gGrid g)) as [gy| |] eqn:Hgy;
    cbn [bind] in H; try discriminate.
  cbv zeta in H. unfold calculateGhostPosition in Hgy.
  destruct (ghostLoop_rests _ _ _ _ _ Hgy) as (_ & _ & Hfree').
  assert (Hnp : liveBlock (gGrid g) (mkPiece (ptype p) (rotation p) (px p) gy)).
  { split; [exact Ht|]. split; [exact Hr|]. apply Hfree'.
    destruct p; exact Hfree. }
  apply (placePiece_noFull fuel
           (setBlock (setScore g (score g + (gy - py p) * 2))
                     (Some (mkPiece (ptype p) (rotation p) (px p) gy)))
           g' (mkPiece (ptype p) (rotation p) (px p) gy));
    [|exact Hl|reflexivity|exact H|exact Hl'].
  apply (gameOk_setBlock (setScore g (score g + (gy - py p) * 2)) p); assumption.
Qed.

(** The test of the line clear fails on every row exactly when every row
    has an empty cell. *)
Lemma noFullRow_rowsOpen (g : Grid) : noFullRow g = true <-> rowsOpen g.
Proof.
  unfold noFullRow, rowsOpen. rewrite forallb_forall.
  split; intros H row Hin; specialize (H row Hin).
  - apply rowFull_In, negb_true_iff. exact H.
  - apply negb_true_iff, rowFull_In. exact H.
Qed.

(** X15. A full row never stays.  If every row of the grid of a game has an
    empty cell (a cell equal to 0) while no clear is pending, then every row
    has one again after an action of the player and after [applyGravity],
    whenever they leave no clear pending, and every row has one after
    [finishLineClear], which leaves no clear pending. *)
Theorem full_rows_never_stay (fuel : nat) (g : Game) :
  gameOk g ->
  (linesBeingCleared g = None ->
   forall row, In row (gGrid g) -> In 0%nat row) ->
  (forall (a : Action) (p : Piece) (g' : Game),
     linesBeingCleared g = None -> gBlock g = Some p ->
     handleAiAction fuel a g = Ok g' -> linesBeingCleared g' = None ->
     forall row, In row (gGrid g') -> In 0%nat row) /\
  (forall (p : Piece) (g' : Game),
     linesBeingCleared g = None -> gBlock g = Some p ->
     applyGravity fuel g = Ok g' -> linesBeingCleared g' = None ->
     forall row, In row (gGrid g') -> In 0%nat row) /\
  (forall g' : Game,
     finishLineClear fuel g = Ok g' ->
     linesBeingCleared g' = None /\
     forall row, In row (gGrid g') -> In 0%nat row).
Proof.
  intros Hok Hinv.
  assert (Hinv' : linesBeingCleared g = None -> noFullRow (gGrid g) = true).
  { intros Hl. apply (proj2 (noFullRow_rowsOpen (gGrid g))). exact (Hinv Hl). }
  split; [|split].
  - intros a p g' Hl Hb H Hl'. apply (proj1 (noFullRow_rowsOpen (gGrid g'))).
    destruct (Action_eq_hardD a) as [->|Ha].
    + exact (hardDrop_noFull fuel g g' p Hok Hl Hb H Hl').
    + rewrite (moves_keep_grid fuel a g g' Ha H). exact (Hinv' Hl).
  - intros p g' Hl Hb H Hl'. apply (proj1 (noFullRow_rowsOpen (gGrid g'))).
    unfold applyGravity in H. rewrite Hb in H.
    destruct (collidesWithGrid (gGrid g) p 0 1 0) as [[|]| |]; cbn [bind] in H;
      try discriminate.
    + exact (placePiece_noFull fuel g g' p Hok Hl Hb H Hl').
    + injection H as <-. game_fields. exact (Hinv' Hl).
  - intros g'. unfold finishLineClear.
    destruct (linesBeingCleared g) as [ls|] eqn:El.
    + intros H. apply spawnBlock_trace in H as (Eg & _ & El'). game_fields.
      split; [exact El'|]. apply (proj1 (noFullRow_rowsOpen (gGrid g'))). rewrite Eg.
      destruct Hok as (Hw & _ & _ & _ & _ & Hls). rewrite El in Hls.
      exact (removeLines_noFull _ _ (proj1 Hw) (proj2 Hls)).
    + intros H. injection H as <-. split; [exact El|].
      exact (Hinv eq_refl).
Qed.

End FullRows.

(** *** The path of the search, replayed by the game *)

Lemma actions_In (g : Grid) (p : Piece) (arr : list (Action * option Piece))
    (a : Action) (q : Piece) :
  actions g p = Ok arr -> In (a, Some q) arr ->
  match a with
  | moveL => collidesWithGrid g p (-1) 0 0 = Ok false /\
             q = mkPiece (ptype p) (rotation p) (px p - 1) (py p)
  | moveR => collidesWithGrid g p 1 0 0 = Ok false /\
             q = mkPiece (ptype p) (rotation p) (px p + 1) (py p)
  | softD => collidesWithGrid g p 0 1 0 = Ok false /\
             q = mkPiece (ptype p) (rotation p) (px p) (py p + 1)
  | rotateR => simulateRotation g p DirR = Ok (Some q)
  | rotateL => simulateRotation g p DirL = Ok (Some q)
  | hardD => False
  end.
Proof.
  unfold actions.
  destruct (collidesWithGrid g p (-1) 0 0) as [cL| |]; cbn [bind]; try discriminate.
  destruct (collidesWithGrid g p 1 0 0) as [cR| |]; cbn [bind]; try discriminate.
  destruct (collidesWithGrid g p 0 1 0) as [cD| |]; cbn [bind]; try discriminate.
  destruct (simulateRotation g p DirR) as [rR| |]; cbn [bind]; try discriminate.
  destruct (simulateRotation g p DirL) as [rL| |]; cbn [bind]; try discriminate.
  intros H. injection H as <-. cbn [In].
  intros [H|[H|[H|[H|[H|[]]]]]]; injection H as <- H.
  - destruct cL; [discriminate|]. injection H as <-. auto.
  - destruct cR; [discriminate|]. injection H as <-. auto.
  - destruct cD; [discriminate|]. injection H as <-. auto.
  - now subst.
  - now subst.
Qed.

Lemma rotate_kickLoop (fuel : nat) (g : Game) (p : Piece)
    (srsArray : list (Z * Z * nat)) (r : nat) (q : Piece) :
  Forall (fun e : Z * Z * nat => snd e = r) srsArray ->
  kickLoop (gGrid g) p r (map fst srsArray) = Ok (Some q) ->
  rotate fuel g p srsArray = updateGhostPiece fuel (setBlock g (Some q)).
Proof.
  induction 1 as [|e rest He _ IH]; cbn [map kickLoop rotate]; [discriminate|].
  destruct e as [[x y] r']. cbn [fst snd] in *. subst r'.
  destruct (collidesWithGrid (gGrid g) p x y r) as [[|]| |]; cbn [bind];
    try discriminate.
  - exact IH.
  - intros H. injection H as <-. reflexivity.
Qed.

Lemma rotateWith_simulated (fuel : nat) (g : Game) (p : Piece) (d : Direction)
    (q : Piece) :
  tablesAgree -> gBlock g = Some p ->
  simulateRotation (gGrid g) p d = Ok (Some q) ->
  match d with DirR => rotateRight fuel g | DirL => rotateLeft fuel g end
  = updateGhostPiece fuel (setBlock g (Some q)).
Proof.
  intros (HO & (E1 & E2 & E3 & E4) & (T1 & T2) & (T3 & T4)) Hb.
  unfold simulateRotation.
  destruct (Nat.eqb (ptype p) 3) eqn:Ht; [discriminate|].
  cbv zeta.
  assert (Hgen : forall (r : nat) (tableE : list (list (Z * Z * nat))),
             turnIs r tableE ->
             match nth_error (kickOffsets tableE) (rotation p) with
             | Some tests => kickLoop (gGrid g) p r tests
             | None => TypeError
             end = Ok (Some q) ->
             match nth_error tableE (rotation p) with
             | Some srsArray => rotate fuel g p srsArray
             | None => TypeError
             end = updateGhostPiece fuel (setBlock g (Some q))).
  { intros r tableE Hturn. unfold kickOffsets. rewrite nth_error_map.
    destruct (nth_error tableE (rotation p)) as [srsArray|] eqn:Hn;
      cbn [option_map]; [|discriminate].
    apply rotate_kickLoop.
    exact (proj1 (Forall_forall _ _) Hturn _ (nth_error_In _ _ Hn)). }
  destruct d; unfold rotateRight, rotateLeft, rotateWith; rewrite Hb, HO, Ht;
    destruct (Nat.eqb (ptype p) BLOCK_I).
  - rewrite E1. apply Hgen, T1.
  - rewrite E3. apply Hgen, T2.
  - rewrite E2. apply Hgen, T3.
  - rewrite E4. apply Hgen, T4.
Qed.

Lemma handleAiAction_simulated (fuel : nat) (g : Game) (p : Piece)
    (arr : list (Action * option Piece)) (a : Action) (q : Piece) :
  tablesAgree -> gBlock g = Some p ->
  actions (gGrid g) p = Ok arr -> In (a, Some q) arr ->
  handleAiAction fuel a g =
    match a with
    | softD => Ok (setSoftDrop (setBlock g (Some q)) (softDrop g + 1))
    | _ => updateGhostPiece fuel (setBlock g (Some q))
    end.
Proof.
  intros Hagree Hb Harr Hin. pose proof (actions_In _ _ _ _ _ Harr Hin) as H.
  destruct a; cbn [handleAiAction].
  - destruct H as [Hc ->]. unfold moveLeft. rewrite Hb, Hc. reflexivity.
  - destruct H as [Hc ->]. unfold moveRight. rewrite Hb, Hc. reflexivity.
  - destruct H as [Hc ->]. unfold moveDown. rewrite Hb, Hc. reflexivity.
  - exact (rotateWith_simulated fuel g p DirR q Hagree Hb H).
  - exact (rotateWith_simulated fuel g p DirL q Hagree Hb H).
  - destruct H.
Qed.

Lemma rotate_no_kick (fuel : nat) (g : Game) (p : Piece)
    (srsArray : list (Z * Z * nat)) (r : nat) :
  Forall (fun e : Z * Z * nat => snd e = r) srsArray ->
  kickLoop (gGrid g) p r (map fst srsArray) = Ok None ->
  rotate fuel g p srsArray = Ok g.
Proof.
  induction 1 as [|e rest He _ IH]; cbn [map kickLoop rotate]; [reflexivity|].
  destruct e as [[x y] r']. cbn [fst snd] in *. subst r'.
  destruct (collidesWithGrid (gGrid g) p x y r) as [[|]| |]; cbn [bind];
    try discriminate.
  exact IH.
Qed.

Lemma rotateWith_no_kick (fuel : nat) (g : Game) (p : Piece) (d : Direction) :
  tablesAgree -> gBlock g = Some p ->
  simulateRotation (gGrid g) p d = Ok None ->
  match d with DirR => rotateRight fuel g | DirL => rotateLeft fuel g end = Ok g.
Proof.
  intros (HO & (E1 & E2 & E3 & E4) & (T1 & T2) & (T3 & T4)) Hb.
  unfold simulateRotation.
  assert (Hgen : forall (r : nat) (tableE : list (list (Z * Z * nat))),
             turnIs r tableE ->
             match nth_error (kickOffsets tableE) (rotation p) with
             | Some tests => kickLoop (gGrid g) p r tests
             | None => TypeError
             end = Ok None ->
             match nth_error tableE (rotation p) with
             | Some srsArray => rotate fuel g p srsArray
             | None => TypeError
             end = Ok g).
  { intros r tableE Hturn. unfold kickOffsets. rewrite nth_error_map.
    destruct (nth_error tableE (rotation p)) as [srsArray|] eqn:Hn;
      cbn [option_map]; [|discriminate].
    apply rotate_no_kick.
    exact (proj1 (Forall_forall _ _) Hturn _ (nth_error_In _ _ Hn)). }
  destruct d; unfold rotateRight, rotateLeft, rotateWith; rewrite Hb, HO;
    (destruct (Nat.eqb (ptype p) 3) eqn:Ht; [reflexivity|]); cbv zeta;
    destruct (Nat.eqb (ptype p) BLOCK_I).
  - rewrite E1. apply Hgen, T1.
  - rewrite E3. apply Hgen, T2.
  - rewrite E2. apply Hgen, T3.
  - rewrite E4. apply Hgen, T4.
Qed.

Lemma actions_refused (g : Grid) (p : Piece) (arr : list (Action * option Piece))
    (a : Action) :
  actions g p = Ok arr -> In (a, None) arr ->
  match a with
  | moveL => collidesWithGrid g p (-1) 0 0 = Ok true
  | moveR => collidesWithGrid g p 1 0 0 = Ok true
  | softD => collidesWithGrid g p 0 1 0 = Ok true
  | rotateR => simulateRotation g p DirR = Ok None
  | rotateL => simulateRotation g p DirL = Ok None
  | hardD => False
  end.
Proof.
  unfold actions.
  destruct (collidesWithGrid g p (-1) 0 0) as [cL| |]; cbn [bind]; try discriminate.
  destruct (collidesWithGrid g p 1 0 0) as [cR| |]; cbn [bind]; try discriminate.
  destruct (collidesWithGrid g p 0 1 0) as [cD| |]; cbn [bind]; try discriminate.
  destruct (simulateRotation g p DirR) as [rR| |]; cbn [bind]; try discriminate.
  destruct (simulateRotation g p DirL) as [rL| |]; cbn [bind]; try discriminate.
  intros H. injection H as <-. cbn [In].
  intros [H|[H|[H|[H|[H|[]]]]]]; injection H as <- H.
  - destruct cL; [reflexivity|discriminate].
  - destruct cR; [reflexivity|discriminate].
  - destruct cD; [reflexivity|discriminate].
  - now subst.
  - now subst.
Qed.

(** X16. The search moves the block as the game does.  For each entry of
    the [actions] array that [findBestMove] builds for the pose of the
    block, [handleAiAction] does to the game what the entry says: an action
    with a new pose puts the block at that pose (and, but for [softD],
    refreshes the ghost), an action without one leaves the game as it is.
    So [simulateRotation] tries the kicks that [rotateLeft] and
    [rotateRight] try, and finds the same one. *)
Theorem actions_agree_with_game (fuel : nat) (g : Game) (p : Piece)
    (arr : list (Action * option Piece)) (a : Action) (r : option Piece) :
  tablesAgree -> gBlock g = Some p ->
  actions (gGrid g) p = Ok arr -> In (a, r) arr ->
  handleAiAction fuel a g =
    match r with
    | None => Ok g
    | Some q =>
        match a with
        | softD => Ok (setSoftDrop (setBlock g (Some q)) (softDrop g + 1))
        | _ => updateGhostPiece fuel (setBlock g (Some q))
        end
    end.
Proof.
  intros Hagree Hb Harr Hin. destruct r as [q|].
  - exact (handleAiAction_simulated fuel g p arr a q Hagree Hb Harr Hin).
  - pose proof (actions_refused _ _ _ _ Harr Hin) as H.
    destruct a; cbn [handleAiAction].
    + unfold moveLeft. rewrite Hb, H. reflexivity.
    + unfold moveRight. rewrite Hb, H. reflexivity.
    + unfold moveDown. rewrite Hb, H. reflexivity.
    + exact (rotateWith_no_kick fuel g p DirR Hagree Hb H).
    + exact (rotateWith_no_kick fuel g p DirL Hagree Hb H).
    + destruct H.
Qed.

Lemma handleAiAction_moves (fuel : nat) (g g' : Game) (p : Piece)
    (arr : list (Action * option Piece)) (a : Action) (q : Piece) :
  tablesAgree -> gBlock g = Some p ->
  actions (gGrid g) p = Ok arr -> In (a, Some q) arr ->
  handleAiAction fuel a g = Ok g' ->
  gBlock g' = Some q /\ gGrid g' = gGrid g /\ gNext g' = gNext g /\
  gDrought g' = gDrought g /\ linesBeingCleared g' = linesBeingCleared g /\
  lines g' = lines g.
Proof.
  intros Hagree Hb Harr Hin.
  rewrite (handleAiAction_simulated fuel g p arr a q Hagree Hb Harr Hin).
  assert (Hu : updateGhostPiece fuel (setBlock g (Some q)) = Ok g' ->
               gBlock g' = Some q /\ gGrid g' = gGrid g /\ gNext g' = gNext g /\
               gDrought g' = gDrought g /\
               linesBeingCleared g' = linesBeingCleared g /\ lines g' = lines g).
  { intros H. apply updateGhostPiece_trace in H as [gh ->]. game_fields. auto 10. }
  destruct a; try exact Hu.
  intros H. injection H as <-. game_fields. auto 10.
Qed.

Lemma replay_app (fuel : nat) (l1 l2 : list Action) (g : Game) :
  replay fuel (l1 ++ l2) g = (g' <- replay fuel l1 g ;; replay fuel l2 g').
Proof.
  revert g. induction l1 as [|a l1 IH]; intros g; cbn [app replay bind];
    [reflexivity|].
  destruct (handleAiAction fuel a g); cbn [bind]; auto.
Qed.

Lemma enqueue_tracks (g : Grid) (p0 : Piece) (acts : list Action) (p : Piece)
    (arr0 : list (Action * option Piece)) :
  tracks g p0 acts p -> actions g p = Ok arr0 ->
  forall (arr : list (Action * option Piece)) (q : list Node) (vis : list PoseKey),
    incl arr arr0 ->
    Forall (fun n => tracks g p0 (npath n) (npiece n)) q ->
    Forall (fun n => tracks g p0 (npath n) (npiece n)) (fst (enqueue acts arr q vis)).
Proof.
  intros Ht Harr. induction arr as [|[name [newPiece|]] rest IH]; intros q vis Hincl Hq;
    cbn [enqueue]; [exact Hq| |].
  - assert (Hrest : incl rest arr0) by (intros x Hx; apply Hincl; now right).
    cbv zeta. destruct (visitedHas vis (getPieceKey newPiece)).
    + apply IH; assumption.
    + apply IH; [assumption|]. apply Forall_app. split; [exact Hq|].
      constructor; [|constructor]. cbn [npath npiece].
      apply (tracks_snoc g p0 acts p name newPiece arr0 Ht Harr).
      apply Hincl. now left.
  - apply IH; [|assumption]. intros x Hx; apply Hincl; now right.
Qed.

Lemma searchStep_tracks (fuel : nat) (state : State) (strategy : string)
    (weights : Weights) (p0 : Piece) (node : Node) (s s' : Search) :
  tracks (grid state) p0 (npath node) (npiece node) ->
  pathInv (grid state) p0 s ->
  searchStep fuel state strategy weights node s = Ok s' ->
  pathInv (grid state) p0 s'.
Proof.
  intros Hnode [Hq Hbest]. unfold searchStep. cbv zeta.
  destruct (collidesWithGrid (grid state) (npiece node) 0 1 0) as [resting| |] eqn:Hrest;
    cbn [bind]; try discriminate.
  set (best := if resting then _ else _).
  assert (Hb : forall bs bp bt, best = Ok (bs, bp, bt) ->
             match bt with
             | None => True
             | Some t => exists acts, bp = Some (acts ++ [hardD]) /\
                           tracks (grid state) p0 acts t /\
                           collidesWithGrid (grid state) t 0 1 0 = Ok true
             end).
  { subst best. intros bs bp bt. destruct resting.
    - destruct (scoreCandidate fuel state strategy weights (npiece node))
        as [totalScore| |]; cbn [bind]; try discriminate.
      destruct (jslt totalScore (bestScore s)); intros H; injection H as <- <- <-.
      + exists (npath node). auto.
      + exact Hbest.
    - intros H; injection H as <- <- <-. exact Hbest. }
  destruct best as [[[bs bp] bt]| |]; cbn [bind]; try discriminate.
  specialize (Hb bs bp bt eq_refl).
  destruct (actions (grid state) (npiece node)) as [arr| |] eqn:Harr; cbn [bind];
    try discriminate.
  pose proof (enqueue_tracks _ _ _ _ _ Hnode Harr arr (queue s) (visited s)
                (incl_refl _) Hq) as Henq.
  destruct (enqueue (npath node) arr (queue s) (visited s)) as [q vis].
  intros H. injection H as <-. split; [exact Henq|exact Hb].
Qed.

Lemma searchLoop_tracks (dropFuel : nat) (state : State) (strategy : string)
    (weights : Weights) (p0 : Piece) :
  forall (fuel : nat) (s s' : Search),
    pathInv (grid state) p0 s ->
    searchLoop fuel dropFuel state strategy weights s = Ok s' ->
    pathInv (grid state) p0 s'.
Proof.
  induction fuel as [|fuel IH]; intros s s' Hinv; cbn [searchLoop];
    destruct (queue s) as [|node rest] eqn:Hqueue.
  - intros H. injection H as <-. exact Hinv.
  - discriminate.
  - intros H. injection H as <-. exact Hinv.
  - destruct Hinv as [Hq Hbest]. rewrite Hqueue in Hq.
    destruct (searchStep dropFuel state strategy weights node _) as [s1| |] eqn:Hstep;
      cbn [bind]; try discriminate.
    apply IH. apply (searchStep_tracks _ _ _ _ _ _ _ _ (Forall_inv Hq)) in Hstep;
      [exact Hstep|].
    split; [exact (Forall_inv_tail Hq)|exact Hbest].
Qed.

Lemma findBestMove_tracks (fuel : nat) (state : State) (strategy : string)
    (weights : Weights) (acts : list Action) (t : Piece) :
  findBestMove fuel state strategy weights = Ok (mkMove acts (Some t)) ->
  exists (p0 : Piece) (acts' : list Action),
    Block state = Some p0 /\ acts = acts' ++ [hardD] /\
    tracks (grid state) p0 acts' t /\
    collidesWithGrid (grid state) t 0 1 0 = Ok true.
Proof.
  unfold findBestMove.
  destruct (effectiveStrategy (grid state) strategy) as [eff| |]; cbn [bind];
    try discriminate.
  destruct (Block state) as [p0|]; [|discriminate].
  destruct (search fuel state eff weights p0) as [s| |] eqn:Hs; cbn [bind];
    try discriminate.
  unfold moveOf. intros H. injection H as Hp Ht.
  assert (Hinv : pathInv (grid state) p0 s).
  { unfold search in Hs. apply (searchLoop_tracks _ _ _ _ p0) in Hs; [exact Hs|].
    split; cbn [initialSearch queue bestTarget]; [|exact I].
    constructor; [|constructor]. cbn [npath npiece]. constructor. }
  destruct Hinv as [_ Hbest]. rewrite Ht in Hbest.
  destruct Hbest as (acts' & Hbp & Htr & Hc). rewrite Hbp in Hp.
  exists p0, acts'. auto.
Qed.

(** *** Heights and holes *)

Lemma columnHeightFrom_spec (g : Grid) (c : Z) (n : nat) :
  forall (r h : Z),
    columnHeightFrom g c r n = Ok h ->
    (h = 0 /\ forall i, r <= i < r + Z.of_nat n -> gridCell g i c = Ok false) \/
    (exists i, r <= i < r + Z.of_nat n /\ h = GRID_HEIGHT - i /\
               gridCell g i c = Ok true /\
               forall j, r <= j < i -> gridCell g j c = Ok false).
Proof.
  induction n as [|n IH]; intros r h; cbn [columnHeightFrom].
  - intros H. injection H as <-. left. split; [reflexivity|]. intros i Hi. lia.
  - destruct (gridCell g r c) as [[|]| |] eqn:Hc; cbn [bind]; try discriminate.
    + intros H. injection H as <-. right. exists r.
      split; [lia|]. split; [reflexivity|]. split; [exact Hc|]. intros j Hj. lia.
    + intros H. destruct (IH _ _ H) as [[-> Hall]|(i & Hi & -> & Hci & Hbelow)].
      * left. split; [reflexivity|]. intros i Hi.
        destruct (Z.eq_dec i r) as [->|Hne]; [exact Hc|apply Hall; lia].
      * right. exists i. split; [lia|]. split; [reflexivity|].
        split; [exact Hci|]. intros j Hj.
        destruct (Z.eq_dec j r) as [->|Hne]; [exact Hc|apply Hbelow; lia].
Qed.

Lemma mapM_nth {A B : Type} (f : A -> result B) (l : list A) (bs : list B)
    (i : nat) (a : A) (d : B) :
  mapM f l = Ok bs -> nth_error l i = Some a -> f a = Ok (nth i bs d).
Proof.
  revert bs i. induction l as [|x l IH]; intros bs i; [destruct i; discriminate|].
  cbn [mapM].
  change ((fix go (l0 : list A) : result (list B) :=
             match l0 with
             | [] => Ok []
             | a0 :: rest => b0 <- f a0 ;; bs0 <- go rest ;; Ok (b0 :: bs0)
             end) l) with (mapM f l).
  destruct (f x) as [b| |] eqn:Hx; cbn [bind]; try discriminate.
  destruct (mapM f l) as [bs'| |] eqn:Hl; cbn [bind]; try discriminate.
  intros H. injection H as <-. destruct i as [|i]; cbn [nth_error nth].
  - intros E. injection E as <-. exact Hx.
  - apply IH. reflexivity.
Qed.

Lemma columns_nth (c : Z) :
  0 <= c < COLS -> nth_error columns (Z.to_nat c) = Some c.
Proof.
  intros Hc. unfold COLS in Hc.
  assert (H : c = 0 \/ c = 1 \/ c = 2 \/ c = 3 \/ c = 4 \/ c = 5 \/ c = 6 \/
              c = 7 \/ c = 8 \/ c = 9) by lia.
  repeat (destruct H as [->|H]; [reflexivity|]). subst c. reflexivity.
Qed.

(** X11. [getColumnHeights] measures each column from its topmost block.
    On a grid of 24 rows it returns ten heights between 0 and 24; the cells
    of column [c] above row [24 - heights[c]] are empty, and when the
    height is not 0 the cell at row [24 - heights[c]] is occupied; so the
    height is 0 exactly when the column is empty. *)
Theorem getColumnHeights_topmost_block (g : Grid) :
  length g = 24%nat ->
  exists heights : list Z,
    getColumnHeights g = Ok heights /\ length heights = 10%nat /\
    forall c : Z, 0 <= c < COLS ->
      0 <= hget heights c <= GRID_HEIGHT /\
      (forall r, 0 <= r < GRID_HEIGHT - hget heights c -> gridCell g r c = Ok false) /\
      (0 < hget heights c -> gridCell g (GRID_HEIGHT - hget heights c) c = Ok true).
Proof.
  intros Hlen.
  destruct (getColumnHeights_ok g Hlen) as (heights & Hh & Hl & _).
  exists heights. split; [exact Hh|]. split; [exact Hl|]. intros c Hc.
  unfold getColumnHeights in Hh.
  pose proof (mapM_nth _ _ _ _ _ 0 Hh (columns_nth c Hc)) as Hcol.
  fold (hget heights c) in Hcol.
  apply columnHeightFrom_spec in Hcol. unfold GRID_HEIGHT in *.
  destruct Hcol as [[-> Hall]|(i & Hi & -> & Hci & Hbelow)].
  - split; [lia|]. split; [|lia]. intros r Hr. apply Hall. lia.
  - split; [lia|]. split.
    + intros r Hr. apply Hbelow. lia.
    + intros _. replace (24 - (24 - i)) with i by lia. exact Hci.
Qed.

Lemma skipn_nth_error {A : Type} (l : list A) (n : nat) (x : A) :
  nth_error l n = Some x -> skipn n l = x :: skipn (S n) l.
Proof.
  revert l. induction n as [|n IH]; intros [|a l] H; try discriminate.
  - injection H as ->. reflexivity.
  - cbn [nth_error] in H. cbn [skipn]. rewrite (IH l H). reflexivity.
Qed.

(** The occupied cells of column [c] from row [r] down. *)
Lemma filled_from (g : Grid) (c r : Z) (row : list nat) :
  0 <= r -> nth_error g (Z.to_nat r) = Some row ->
  length (filter (fun b : bool => b) (skipn (Z.to_nat r) (columnCells g c)))
  = ((if rowCell row c then 1 else 0)
     + length (filter (fun b : bool => b)
                      (skipn (Z.to_nat (r + 1)) (columnCells g c))))%nat.
Proof.
  intros Hr Hrow.
  assert (Hn : nth_error (columnCells g c) (Z.to_nat r) = Some (rowCell row c)).
  { unfold columnCells. rewrite nth_error_map, Hrow. reflexivity. }
  rewrite (skipn_nth_error _ _ _ Hn).
  replace (Z.to_nat (r + 1)) with (S (Z.to_nat r)) by lia.
  cbn [filter]. destruct (rowCell row c); reflexivity.
Qed.

Lemma holesFrom_found (g : Grid) (c : Z) :
  length g = 24%nat ->
  forall (n : nat) (r holes : Z),
    0 <= r -> r + Z.of_nat n = GRID_HEIGHT ->
    exists filled : Z,
      filled = Z.of_nat (length (filter (fun b : bool => b)
                                        (skipn (Z.to_nat r) (columnCells g c)))) /\
      filled <= Z.of_nat n /\
      holesFrom g c r n true holes = Ok (holes + Z.of_nat n - filled).
Proof.
  intros Hlen. induction n as [|n IH]; intros r holes Hr Hn.
  - eexists. split; [reflexivity|]. unfold GRID_HEIGHT in Hn.
    rewrite skipn_all2 by (unfold columnCells; rewrite length_map; lia).
    cbn [filter length holesFrom]. split; [lia|]. f_equal. lia.
  - destruct (gridCell_in_range g r c Hlen) as (row & Hrow & Hcell);
      [unfold GRID_HEIGHT in *; lia|].
    cbn [holesFrom]. rewrite Hcell. cbn [bind].
    rewrite (filled_from g c r row Hr Hrow).
    destruct (rowCell row c).
    + destruct (IH (r + 1) holes) as (f & -> & Hle & ->); [lia|lia|].
      eexists. split; [reflexivity|]. split; [lia|]. f_equal. lia.
    + destruct (IH (r + 1) (holes + 1)) as (f & -> & Hle & ->); [lia|lia|].
      eexists. split; [reflexivity|]. split; [lia|]. f_equal. lia.
Qed.

Lemma holesFrom_height (g : Grid) (c : Z) :
  length g = 24%nat ->
  forall (n : nat) (r holes : Z),
    0 <= r -> r + Z.of_nat n = GRID_HEIGHT ->
    exists h filled : Z,
      filled = Z.of_nat (length (filter (fun b : bool => b)
                                        (skipn (Z.to_nat r) (columnCells g c)))) /\
      columnHeightFrom g c r n = Ok h /\ filled <= h /\
      holesFrom g c r n false holes = Ok (holes + h - filled).
Proof.
  intros Hlen. induction n as [|n IH]; intros r holes Hr Hn.
  - exists 0. eexists. split; [reflexivity|]. unfold GRID_HEIGHT in Hn.
    rewrite skipn_all2 by (unfold columnCells; rewrite length_map; lia).
    cbn [filter length holesFrom columnHeightFrom].
    split; [reflexivity|]. split; [lia|]. f_equal. lia.
  - destruct (gridCell_in_range g r c Hlen) as (row & Hrow & Hcell);
      [unfold GRID_HEIGHT in *; lia|].
    cbn [holesFrom columnHeightFrom]. rewrite Hcell. cbn [bind].
    rewrite (filled_from g c r row Hr Hrow).
    destruct (rowCell row c).
    + destruct (holesFrom_found g c Hlen n (r + 1) holes) as (f & -> & Hle & ->);
        [lia|lia|].
      exists (GRID_HEIGHT - r). eexists. split; [reflexivity|].
      split; [reflexivity|]. split; [lia|]. f_equal. lia.
    + destruct (IH (r + 1) holes) as (h & f & -> & Hh & Hle & ->); [lia|lia|].
      exists h. eexists. split; [reflexivity|]. split; [exact Hh|].
      split; [lia|]. f_equal.
Qed.

Lemma fold_left_add_acc {A : Type} (f : A -> Z) (l : list A) (acc : Z) :
  fold_left (fun sum a => sum + f a) l acc
  = acc + fold_left (fun sum a => sum + f a) l 0.
Proof.
  revert acc. induction l as [|a l IH]; intros acc; cbn [fold_left]; [lia|].
  rewrite (IH (acc + f a)), (IH (0 + f a)). lia.
Qed.

Lemma holesColumns_heights (g : Grid) :
  length g = 24%nat ->
  forall (cs : list Z) (holes : Z),
    exists heights : list Z,
      mapM (fun c => columnHeightFrom g c 0 (Z.to_nat GRID_HEIGHT)) cs = Ok heights /\
      fold_left (fun sum c => sum + filledInColumn g c) cs 0
        <= getAggregateHeight heights /\
      holesColumns g cs holes
      = Ok (holes + getAggregateHeight heights
            - fold_left (fun sum c => sum + filledInColumn g c) cs 0).
Proof.
  intros Hlen. induction cs as [|c cs IH]; intros holes.
  - exists []. cbn. split; [reflexivity|]. split; [lia|]. f_equal. lia.
  - destruct (holesFrom_height g c Hlen (Z.to_nat GRID_HEIGHT) 0 holes)
      as (h & f & Hf & Hh & Hle & Hholes); [lia|reflexivity|].
    destruct (IH (holes + h - f)) as (hs & Hhs & Hle' & Hrest).
    exists (h :: hs). cbn [mapM].
    change ((fix go (l0 : list Z) : result (list Z) :=
               match l0 with
               | [] => Ok []
               | a0 :: rest =>
                   b0 <- columnHeightFrom g a0 0 (Z.to_nat GRID_HEIGHT) ;;
                   bs0 <- go rest ;; Ok (b0 :: bs0)
               end) cs)
      with (mapM (fun c => columnHeightFrom g c 0 (Z.to_nat GRID_HEIGHT)) cs).
    rewrite Hh, Hhs. cbn [bind holesColumns]. rewrite Hholes. cbn [bind].
    rewrite Hrest. unfold getAggregateHeight in *. cbn [fold_left].
    rewrite (fold_left_add_acc (fun h => h) hs (0 + h)).
    rewrite (fold_left_add_acc (filledInColumn g) cs (0 + filledInColumn g c)).
    assert (Ef : filledInColumn g c = f) by (rewrite Hf; reflexivity).
    rewrite Ef. split; [reflexivity|]. split; [lia|]. f_equal. lia.
Qed.

(** X12. Holes, heights and blocks add up.  On a grid of 24 rows,
    [getHoles] returns the aggregate height of [getColumnHeights] less the
    number of occupied cells: every cell counted by a column height is a
    block or a hole.  In particular the count is never negative. *)
Theorem getHoles_is_height_less_blocks (g : Grid) :
  length g = 24%nat ->
  exists (heights : list Z) (holes : Z),
    getColumnHeights g = Ok heights /\
    getHoles g = Ok holes /\
    holes = getAggregateHeight heights - filledCells g /\
    0 <= holes.
Proof.
  intros Hlen.
  destruct (holesColumns_heights g Hlen columns 0) as (heights & Hh & Hle & Hholes).
  exists heights. eexists. split; [exact Hh|]. split; [exact Hholes|].
  unfold filledCells. split; lia.
Qed.

(** *** The target of the search is the best pose within reach *)

Lemma Qltb_irrefl (a : Q) : Qltb a a = false.
Proof.
  unfold Qltb. apply negb_false_iff, Qle_bool_iff, Qle_refl.
Qed.

Lemma jslt_irrefl (a : jsnum) : jslt a a = false.
Proof. destruct a; cbn [jslt]; auto using Qltb_irrefl. Qed.

Lemma jslt_keeps_floor (sc bs bs' : jsnum) :
  jslt bs' bs = true -> jslt sc bs = false -> jslt sc bs' = false.
Proof.
  destruct sc as [c| | |], bs as [b| | |], bs' as [b'| | |]; cbn [jslt];
    try discriminate; try reflexivity.
  unfold Qltb. rewrite !negb_true_iff, !negb_false_iff.
  intros H1 H2. apply Qle_bool_iff. apply Qle_bool_iff in H2.
  apply Qlt_le_weak, Qlt_le_trans with (y := b); [|exact H2].
  apply Qnot_le_lt. intros H. apply Qle_bool_iff in H. congruence.
Qed.

Lemma jslt_below_PInf (a b : jsnum) : jslt a b = true -> jslt a PInf = true.
Proof. destruct a, b; cbn [jslt]; intros H; try discriminate; reflexivity. Qed.

Lemma key_type_inj (q q' : Piece) :
  getPieceKey q = getPieceKey q' -> ptype q = ptype q' -> q = q'.
Proof.
  destruct q, q'. unfold getPieceKey. cbn [ptype rotation px py].
  intros H ->. injection H as -> -> ->. reflexivity.
Qed.

Lemma kickLoop_type (g : Grid) (p : Piece) (r : nat) (tests : list (Z * Z))
    (q : Piece) :
  kickLoop g p r tests = Ok (Some q) -> ptype q = ptype p.
Proof.
  induction tests as [|[dx dy] rest IH]; cbn [kickLoop]; [discriminate|].
  destruct (collidesWithGrid g p dx dy r) as [[|]| |]; cbn [bind]; try discriminate.
  - exact IH.
  - intros H. injection H as <-. reflexivity.
Qed.

Lemma actions_type (g : Grid) (p : Piece) (arr : list (Action * option Piece))
    (a : Action) (q : Piece) :
  actions g p = Ok arr -> In (a, Some q) arr -> ptype q = ptype p.
Proof.
  intros Harr Hin. pose proof (actions_In _ _ _ _ _ Harr Hin) as H.
  assert (Hrot : forall d, simulateRotation g p d = Ok (Some q) -> ptype q = ptype p).
  { intros d. unfold simulateRotation.
    destruct (Nat.eqb (ptype p) 3); [discriminate|]. cbv zeta.
    match goal with |- match ?n with _ => _ end = _ -> _ => destruct n end;
      [|discriminate].
    apply kickLoop_type. }
  destruct a.
  - destruct H as [_ ->]. reflexivity.
  - destruct H as [_ ->]. reflexivity.
  - destruct H as [_ ->]. reflexivity.
  - eauto.
  - eauto.
  - destruct H.
Qed.

Lemma enqueue_spec (acts : list Action) (arr : list (Action * option Piece)) :
  forall (q : list Node) (vis : list PoseKey) (q' : list Node) (vis' : list PoseKey),
    enqueue acts arr q vis = (q', vis') ->
    incl vis vis' /\ incl q q' /\
    (forall a np, In (a, Some np) arr -> In (getPieceKey np) vis') /\
    (forall k, In k vis' ->
       In k vis \/
       exists n, In n q' /\ getPieceKey (npiece n) = k /\
                 exists a, In (a, Some (npiece n)) arr) /\
    (forall n, In n q' -> In n q \/ exists a, In (a, Some (npiece n)) arr).
Proof.
  induction arr as [|[name [np|]] rest IH]; intros q vis q' vis'; cbn [enqueue].
  - intros H. injection H as <- <-.
    split; [apply incl_refl|]. split; [apply incl_refl|].
    split; [intros a np []|]. split; auto.
  - cbv zeta. destruct (visitedHas vis (getPieceKey np)) eqn:Hv; intros H;
      destruct (IH _ _ _ _ H) as (I1 & I2 & I3 & I4 & I5).
    + split; [exact I1|]. split; [exact I2|]. split; [|split].
      * intros a np' [E|Hin]; [|eauto].
        injection E as _ <-. apply I1, visitedHas_In, Hv.
      * intros k Hk. destruct (I4 k Hk) as [Hold|(n & Hn & Hkey & a & Ha)];
          [now left|]. right. exists n. split; [exact Hn|]. split; [exact Hkey|].
        exists a. now right.
      * intros n Hn. destruct (I5 n Hn) as [Hold|[a Ha]]; [now left|].
        right. exists a. now right.
    + assert (Hnode : In (mkNode np (acts ++ [name])) q')
        by (apply I2, in_or_app; right; now left).
      split; [intros k Hk; apply I1; now right|].
      split; [intros n Hn; apply I2, in_or_app; now left|]. split; [|split].
      * intros a np' [E|Hin]; [|eauto].
        injection E as _ <-. apply I1. now left.
      * intros k Hk. destruct (I4 k Hk) as [[<-|Hold]|(n & Hn & Hkey & a & Ha)].
        -- right. exists (mkNode np (acts ++ [name])). split; [exact Hnode|].
           split; [reflexivity|]. exists name. now left.
        -- now left.
        -- right. exists n. split; [exact Hn|]. split; [exact Hkey|].
           exists a. now right.
      * intros n Hn. destruct (I5 n Hn) as [Hold|[a Ha]].
        -- apply in_app_or in Hold as [Hold|[<-|[]]]; [now left|].
           right. exists name. now left.
        -- right. exists a. now right.
  - intros H. destruct (IH _ _ _ _ H) as (I1 & I2 & I3 & I4 & I5).
    split; [exact I1|]. split; [exact I2|]. split; [|split].
    + intros a np' [E|Hin]; [discriminate|eauto].
    + intros k Hk. destruct (I4 k Hk) as [Hold|(n & Hn & Hkey & a & Ha)];
        [now left|]. right. exists n. split; [exact Hn|]. split; [exact Hkey|].
      exists a. now right.
    + intros n Hn. destruct (I5 n Hn) as [Hold|[a Ha]]; [now left|].
      right. exists a. now right.
Qed.

Lemma searchStep_best (fuel : nat) (state : State) (strategy : string)
    (weights : Weights) (p0 : Piece) (node : Node) (rest : list Node)
    (vis : list PoseKey) (bs : jsnum) (bp : option (list Action))
    (bt : option Piece) (s' : Search) :
  bestInv fuel state strategy weights p0 (mkSearch (node :: rest) vis bs bp bt) ->
  searchStep fuel state strategy weights node (mkSearch rest vis bs bp bt) = Ok s' ->
  bestInv fuel state strategy weights p0 s'.
Proof.
  intros (Hp0 & Hty & Hvis & Hbest).
  cbn [queue visited bestScore bestPath bestTarget] in *.
  pose proof (Forall_inv Hty) as Hnty. pose proof (Forall_inv_tail Hty) as Hrty.
  unfold searchStep. cbv zeta. cbn [queue visited bestScore bestPath bestTarget].
  destruct (collidesWithGrid (grid state) (npiece node) 0 1 0) as [resting| |] eqn:Hrest;
    cbn [bind]; try discriminate.
  set (best := if resting then _ else _).
  assert (Hb : forall bs' bp' bt', best = Ok (bs', bp', bt') ->
             match bt' with
             | None => bs' = PInf
             | Some t => collidesWithGrid (grid state) t 0 1 0 = Ok true /\
                         scoreCandidate fuel state strategy weights t = Ok bs' /\
                         jslt bs' PInf = true
             end /\
             (forall sc, jslt sc bs = false -> jslt sc bs' = false) /\
             (forall sc, collidesWithGrid (grid state) (npiece node) 0 1 0 = Ok true ->
                scoreCandidate fuel state strategy weights (npiece node) = Ok sc ->
                jslt sc bs' = false)).
  { subst best. intros bs' bp' bt'. destruct resting.
    - destruct (scoreCandidate fuel state strategy weights (npiece node))
        as [totalScore| |] eqn:Hsc; cbn [bind]; try discriminate.
      destruct (jslt totalScore bs) eqn:Hlt; intros H; injection H as <- <- <-.
      + split; [split; [exact Hrest|split; [exact Hsc|exact (jslt_below_PInf _ _ Hlt)]]|].
        split.
        * intros sc. apply jslt_keeps_floor, Hlt.
        * intros sc _ E. injection E as <-. apply jslt_irrefl.
      + split; [exact Hbest|]. split; [auto|].
        intros sc _ E. injection E as <-. exact Hlt.
    - intros H; injection H as <- <- <-. split; [exact Hbest|]. split; [auto|].
      intros sc E. rewrite Hrest in E. discriminate E. }
  destruct best as [[[bs' bp'] bt']| |]; cbn [bind]; try discriminate.
  destruct (Hb bs' bp' bt' eq_refl) as (F1 & F2 & F3). clear Hb.
  destruct (actions (grid state) (npiece node)) as [arr| |] eqn:Harr; cbn [bind];
    try discriminate.
  destruct (enqueue (npath node) arr rest vis) as [q' vis'] eqn:Henq.
  destruct (enqueue_spec _ _ _ _ _ _ Henq) as (I1 & I2 & I3 & I4 & I5).
  intros H. injection H as <-.
  split; [|split; [|split]]; cbn [queue visited bestScore bestPath bestTarget].
  - apply I1, Hp0.
  - apply Forall_forall. intros n Hn. destruct (I5 n Hn) as [Hold|[a Ha]].
    + exact (proj1 (Forall_forall _ _) Hrty n Hold).
    + rewrite (actions_type _ _ _ _ _ Harr Ha). exact Hnty.
  - intros q Hq Hk.
    assert (Hdone : poseDone fuel state strategy weights
                      (mkSearch q' vis' bs' bp' bt') (npiece node)).
    { split; cbn [visited bestScore].
      - intros arr' a np E Hin. rewrite Harr in E. injection E as <-. eauto.
      - exact F3. }
    destruct (I4 _ Hk) as [Hold|(n & Hn & Hkey & a & Ha)].
    + destruct (Hvis q Hq Hold) as [(n & [<-|Hn] & Hnq)|[D1 D2]].
      * right. rewrite <- Hnq. exact Hdone.
      * left. exists n. split; [apply I2, Hn|exact Hnq].
      * right. split; cbn [visited bestScore] in *.
        -- intros arr' a np E Hin. apply I1. eauto.
        -- intros sc Hr Hs. apply F2. eauto.
    + left. exists n. split; [exact Hn|]. apply key_type_inj; [exact Hkey|].
      rewrite (actions_type _ _ _ _ _ Harr Ha). congruence.
  - exact F1.
Qed.

Lemma searchLoop_best (dropFuel : nat) (state : State) (strategy : string)
    (weights : Weights) (p0 : Piece) :
  forall (fuel : nat) (s s' : Search),
    bestInv dropFuel state strategy weights p0 s ->
    searchLoop fuel dropFuel state strategy weights s = Ok s' ->
    bestInv dropFuel state strategy weights p0 s' /\ queue s' = [].
Proof.
  induction fuel as [|fuel IH]; intros s s' Hinv; cbn [searchLoop];
    destruct (queue s) as [|node rest] eqn:Hqueue.
  - intros H. injection H as <-. auto.
  - discriminate.
  - intros H. injection H as <-. auto.
  - destruct (searchStep dropFuel state strategy weights node _) as [s1| |] eqn:Hstep;
      cbn [bind]; try discriminate.
    apply IH. apply (searchStep_best _ _ _ _ p0) in Hstep; [exact Hstep|].
    destruct s as [q vis bs bp bt]. cbn [queue visited bestScore bestPath bestTarget] in *.
    subst q. exact Hinv.
Qed.

Lemma initialSearch_best (fuel : nat) (state : State) (strategy : string)
    (weights : Weights) (p0 : Piece) :
  bestInv fuel state strategy weights p0 (initialSearch p0).
Proof.
  unfold initialSearch. split; [|split; [|split]];
    cbn [queue visited bestScore bestPath bestTarget].
  - now left.
  - constructor; [reflexivity|constructor].
  - intros q Hq [Hk|[]]. left. exists (mkNode p0 []). split; [now left|].
    cbn [npiece]. apply key_type_inj; congruence.
  - reflexivity.
Qed.

Lemma finished_reaches (fuel : nat) (state : State) (strategy : string)
    (weights : Weights) (p0 : Piece) (s : Search) :
  bestInv fuel state strategy weights p0 s -> queue s = [] ->
  forall (acts : list Action) (q : Piece),
    tracks (grid state) p0 acts q ->
    ptype q = ptype p0 /\ In (getPieceKey q) (visited s) /\
    poseDone fuel state strategy weights s q.
Proof.
  intros (Hp0 & _ & Hvis & _) Hq.
  assert (Hdone : forall q, ptype q = ptype p0 -> In (getPieceKey q) (visited s) ->
                    poseDone fuel state strategy weights s q).
  { intros q Ht Hk. destruct (Hvis q Ht Hk) as [(n & Hn & _)|D]; [|exact D].
    rewrite Hq in Hn. destruct Hn. }
  induction 1 as [|acts p a q arr Htr IH Harr Hin].
  - auto.
  - destruct IH as (Ht & Hk & [D1 D2]).
    assert (Ht' : ptype q = ptype p0)
      by (rewrite (actions_type _ _ _ _ _ Harr Hin); exact Ht).
    assert (Hk' : In (getPieceKey q) (visited s)) by eauto.
    auto.
Qed.

(** X10. The target is the best pose within reach.  When [findBestMove]
    returns, its target rests and has a score below [Infinity], and no
    resting pose that the block can be brought to by the moves, soft drops
    and rotations of the [actions] array has a score strictly below it;
    when it returns no target, no such pose has a score below [Infinity]. *)
Theorem findBestMove_target_is_best (fuel : nat) (state : State)
    (strategy eff : string) (weights : Weights) (p0 : Piece) (mv : Move) :
  effectiveStrategy (grid state) strategy = Ok eff ->
  Block state = Some p0 ->
  findBestMove fuel state strategy weights = Ok mv ->
  exists best : jsnum,
    match target mv with
    | Some t => collidesWithGrid (grid state) t 0 1 0 = Ok true /\
                scoreCandidate fuel state eff weights t = Ok best /\
                jslt best PInf = true
    | None => best = PInf
    end /\
    forall (acts : list Action) (q : Piece) (sc : jsnum),
      tracks (grid state) p0 acts q ->
      collidesWithGrid (grid state) q 0 1 0 = Ok true ->
      scoreCandidate fuel state eff weights q = Ok sc ->
      jslt sc best = false.
Proof.
  intros Heff Hb. unfold findBestMove. rewrite Heff, Hb. cbn [bind].
  destruct (search fuel state eff weights p0) as [s| |] eqn:Hs; cbn [bind];
    try discriminate.
  intros H. injection H as <-. unfold search in Hs.
  destruct (searchLoop_best _ _ _ _ p0 _ _ _ (initialSearch_best _ _ _ _ _) Hs)
    as [Hinv Hq].
  exists (bestScore s). cbn [moveOf target]. split.
  - destruct Hinv as (_ & _ & _ & Hbest). exact Hbest.
  - intros acts q sc Htr Hr Hsc.
    destruct (finished_reaches _ _ _ _ _ _ Hinv Hq acts q Htr) as (_ & _ & [_ D]).
    eauto.
Qed.

(** *** The path of the search is a shortest one *)

Lemma tracks_inv (g : Grid) (p0 : Piece) (acts : list Action) (q : Piece) :
  tracks g p0 acts q ->
  (acts = [] /\ q = p0) \/
  (exists acts' p a arr,
     acts = acts' ++ [a] /\ tracks g p0 acts' p /\
     actions g p = Ok arr /\ In (a, Some q) arr).
Proof.
  destruct 1 as [|acts p a q arr Htr Harr Hin]; [now left|].
  right. exists acts, p, a, arr. auto.
Qed.

Lemma tracks_type (g : Grid) (p0 : Piece) (acts : list Action) (q : Piece) :
  tracks g p0 acts q -> ptype q = ptype p0.
Proof.
  induction 1 as [|acts p a q arr Htr IH Harr Hin]; [reflexivity|].
  rewrite (actions_type _ _ _ _ _ Harr Hin). exact IH.
Qed.

Lemma enqueue_new (acts : list Action) (arr : list (Action * option Piece)) :
  forall (q : list Node) (vis : list PoseKey) (q' : list Node) (vis' : list PoseKey),
    enqueue acts arr q vis = (q', vis') ->
    exists news,
      q' = q ++ news /\
      Forall (fun n => (exists a, npath n = acts ++ [a] /\
                                  In (a, Some (npiece n)) arr) /\
                       ~ In (getPieceKey (npiece n)) vis) news.
Proof.
  induction arr as [|[name [np|]] rest IH]; intros q vis q' vis'; cbn [enqueue].
  - intros H. injection H as <- <-. exists []. rewrite app_nil_r. auto.
  - cbv zeta. destruct (visitedHas vis (getPieceKey np)) eqn:Hv; intros H;
      destruct (IH _ _ _ _ H) as (news & -> & Hnews).
    + exists news. split; [reflexivity|].
      eapply Forall_impl; [|exact Hnews]. cbv beta.
      intros n [(a & Hp & Ha) Hn]. split; [|exact Hn]. exists a. split; [exact Hp|].
      now right.
    + exists (mkNode np (acts ++ [name]) :: news). split.
      * rewrite <- app_assoc. reflexivity.
      * constructor.
        -- cbn [npath npiece]. split; [exists name; split; [reflexivity|now left]|].
           intros Hin. apply visitedHas_In in Hin. congruence.
        -- eapply Forall_impl; [|exact Hnews]. cbv beta.
           intros n [(a & Hp & Ha) Hn]. split.
           ++ exists a. split; [exact Hp|now right].
           ++ intros Hin. apply Hn. now right.
  - intros H. destruct (IH _ _ _ _ H) as (news & -> & Hnews).
    exists news. split; [reflexivity|].
    eapply Forall_impl; [|exact Hnews]. cbv beta.
    intros n [(a & Hp & Ha) Hn]. split; [|exact Hn]. exists a. split; [exact Hp|].
    now right.
Qed.

Lemma bfs_level_up (g : Grid) (p0 : Piece) (L : nat) (s : Search) :
  bfsInv g p0 L s ->
  Forall (fun n => length (npath n) = S L) (queue s) ->
  bfsInv g p0 (S L) s.
Proof.
  intros (J0 & _ & J3 & JQ & J4 & J6 & Jb) Hall.
  assert (J4' : forall acts q, tracks g p0 acts q -> (length acts < S L)%nat ->
                  successorsVisited g (visited s) q).
  { intros acts q Htr Hlen.
    destruct (Nat.eq_dec (length acts) L) as [E|Hne];
      [|apply (J4 acts q Htr); lia].
    destruct (JQ q (tracks_type _ _ _ _ Htr) (J6 acts q Htr ltac:(lia)))
      as [(n & Hn & Hnq)|Hdone]; [|exact Hdone].
    exfalso.
    pose proof (proj1 (Forall_forall _ _) Hall n Hn) as Hlen'.
    pose proof (proj1 (Forall_forall _ _) J3 n Hn) as [[_ Hshort] _].
    rewrite Hnq in Hshort. specialize (Hshort acts Htr). cbv beta in Hlen'. lia. }
  split; [exact J0|]. split.
  { exists (queue s), []. rewrite app_nil_r. auto. }
  split; [exact J3|]. split; [exact JQ|]. split; [exact J4'|]. split; [|exact Jb].
  intros acts q Htr Hlen.
  destruct (Nat.eq_dec (length acts) (S L)) as [E|Hne];
    [|apply (J6 acts q Htr); lia].
  destruct (tracks_inv _ _ _ _ Htr) as [[-> _]|(acts' & p & a & arr & -> & Htr' & Harr & Hin)];
    [discriminate|].
  rewrite length_app in E. cbn [length] in E.
  exact (J4' acts' p Htr' ltac:(lia) arr a q Harr Hin).
Qed.

Lemma searchStep_bfs (fuel : nat) (state : State) (strategy : string)
    (weights : Weights) (p0 : Piece) (L : nat) (node : Node) (rest : list Node)
    (vis : list PoseKey) (bs : jsnum) (bp : option (list Action))
    (bt : option Piece) (s' : Search) :
  bfsInv (grid state) p0 L (mkSearch (node :: rest) vis bs bp bt) ->
  length (npath node) = L ->
  searchStep fuel state strategy weights node (mkSearch rest vis bs bp bt) = Ok s' ->
  bfsInv (grid state) p0 L s'.
Proof.
  intros (J0 & (A & B & HAB & HA & HB) & J3 & JQ & J4 & J6 & Jb) Hlen.
  cbn [queue visited bestScore bestPath bestTarget] in *.
  assert (Hrest : exists A', rest = A' ++ B /\
                    Forall (fun n => length (npath n) = L) A').
  { destruct A as [|a0 A'].
    - exfalso. cbn [app] in HAB. subst B.
      pose proof (Forall_inv HB) as H. cbv beta in H. lia.
    - cbn [app] in HAB. injection HAB as _ ->. exists A'.
      split; [reflexivity|exact (Forall_inv_tail HA)]. }
  destruct Hrest as (A' & -> & HA').
  pose proof (Forall_inv J3) as [Hnode Hnvis]. pose proof (Forall_inv_tail J3) as J3r.
  unfold searchStep. cbv zeta. cbn [queue visited bestScore bestPath bestTarget].
  destruct (collidesWithGrid (grid state) (npiece node) 0 1 0) as [resting| |];
    cbn [bind]; try discriminate.
  set (best := if resting then _ else _).
  assert (Hb : forall bs' bp' bt', best = Ok (bs', bp', bt') ->
             match bt' with
             | None => True
             | Some t => exists acts, bp' = Some (acts ++ [hardD]) /\
                           shortestTrack (grid state) p0 acts t
             end).
  { subst best. intros bs' bp' bt'. destruct resting.
    - destruct (scoreCandidate fuel state strategy weights (npiece node))
        as [totalScore| |]; cbn [bind]; try discriminate.
      destruct (jslt totalScore bs); intros H; injection H as <- <- <-.
      + exists (npath node). auto.
      + exact Jb.
    - intros H; injection H as <- <- <-. exact Jb. }
  destruct best as [[[bs' bp'] bt']| |]; cbn [bind]; try discriminate.
  specialize (Hb bs' bp' bt' eq_refl).
  destruct (actions (grid state) (npiece node)) as [arr| |] eqn:Harr; cbn [bind];
    try discriminate.
  destruct (enqueue (npath node) arr (A' ++ B) vis) as [q' vis'] eqn:Henq.
  destruct (enqueue_spec _ _ _ _ _ _ Henq) as (I1 & I2 & I3 & I4 & I5).
  destruct (enqueue_new _ _ _ _ _ _ Henq) as (news & -> & Hnews).
  intros H. injection H as <-.
  assert (Hmono : forall q, successorsVisited (grid state) vis q ->
                    successorsVisited (grid state) vis' q).
  { intros q Hq arr' a q1 E Hin. apply I1. exact (Hq arr' a q1 E Hin). }
  unfold bfsInv. cbn [queue visited bestScore bestPath bestTarget].
  split; [apply I1, J0|]. split; [|split; [|split; [|split; [|split]]]].
  - exists A', (B ++ news). split; [rewrite app_assoc; reflexivity|].
    split; [exact HA'|]. apply Forall_app. split; [exact HB|].
    eapply Forall_impl; [|exact Hnews]. cbv beta.
    intros n [(a & Hp & _) _]. rewrite Hp, length_app. cbn [length]. lia.
  - apply Forall_app. split.
    + eapply Forall_impl; [|exact J3r]. cbv beta. intros n [Hs Hv]. auto.
    + apply Forall_forall. intros n Hn.
      pose proof (proj1 (Forall_forall _ _) Hnews n Hn) as [(a & Hp & Ha) Hfresh].
      split; [|exact (I3 a _ Ha)]. split.
      * rewrite Hp. exact (tracks_snoc _ _ _ _ _ _ _ (proj1 Hnode) Harr Ha).
      * intros acts' Htr'. rewrite Hp, length_app. cbn [length].
        destruct (Nat.le_gt_cases (length acts') L) as [Hle|Hgt]; [|lia].
        exfalso. apply Hfresh. exact (J6 acts' _ Htr' Hle).
  - intros q Hq Hk.
    assert (Hdone : successorsVisited (grid state) vis' (npiece node)).
    { intros arr' a np E Hin. rewrite Harr in E. injection E as <-. eauto. }
    destruct (I4 _ Hk) as [Hold|(n & Hn & Hkey & a & Ha)].
    + destruct (JQ q Hq Hold) as [(n & [<-|Hn] & Hnq)|D].
      * right. rewrite <- Hnq. exact Hdone.
      * left. exists n. split; [apply I2, Hn|exact Hnq].
      * right. exact (Hmono q D).
    + left. exists n. split; [exact Hn|]. apply key_type_inj; [exact Hkey|].
      rewrite (actions_type _ _ _ _ _ Harr Ha), Hq.
      exact (tracks_type _ _ _ _ (proj1 Hnode)).
  - intros acts q Htr Hl. exact (Hmono q (J4 acts q Htr Hl)).
  - intros acts q Htr Hl. exact (I1 _ (J6 acts q Htr Hl)).
  - exact Hb.
Qed.

Lemma searchLoop_bfs (dropFuel : nat) (state : State) (strategy : string)
    (weights : Weights) (p0 : Piece) :
  forall (fuel : nat) (s s' : Search) (L : nat),
    bfsInv (grid state) p0 L s ->
    searchLoop fuel dropFuel state strategy weights s = Ok s' ->
    exists L', bfsInv (grid state) p0 L' s'.
Proof.
  induction fuel as [|fuel IH]; intros s s' L Hinv; cbn [searchLoop];
    destruct (queue s) as [|node rest] eqn:Hqueue.
  - intros H. injection H as <-. eauto.
  - discriminate.
  - intros H. injection H as <-. eauto.
  - destruct (searchStep dropFuel state strategy weights node _) as [s1| |] eqn:Hstep;
      cbn [bind]; try discriminate.
    assert (Hlevel : exists L1, bfsInv (grid state) p0 L1 s /\
                                length (npath node) = L1).
    { pose proof Hinv as (_ & (A & B & HAB & HA & HB) & _).
      rewrite Hqueue in HAB. destruct A as [|a0 A'].
      - exists (S L). cbn [app] in HAB. subst B. split.
        + apply bfs_level_up; [exact Hinv|]. rewrite Hqueue. exact HB.
        + exact (Forall_inv HB).
      - exists L. split; [exact Hinv|]. cbn [app] in HAB. injection HAB as -> _.
        exact (Forall_inv HA). }
    destruct Hlevel as (L1 & Hinv1 & Hlen).
    destruct s as [q vis bs bp bt]. cbn [queue visited bestScore bestPath bestTarget] in *.
    subst q.
    apply (IH s1 s' L1).
    exact (searchStep_bfs _ _ _ _ _ _ _ _ _ _ _ _ _ Hinv1 Hlen Hstep).
Qed.

Lemma initialSearch_bfs (g : Grid) (p0 : Piece) :
  bfsInv g p0 0 (initialSearch p0).
Proof.
  assert (Hs : shortestTrack g p0 [] p0).
  { split; [constructor|]. intros acts' _. cbn [length]. lia. }
  unfold bfsInv, initialSearch. cbn [queue visited bestScore bestPath bestTarget].
  split; [now left|]. split.
  { exists [mkNode p0 []], []. split; [reflexivity|].
    split; constructor; [reflexivity|constructor]. }
  split; [constructor; [|constructor]; cbn [npath npiece]; split; [exact Hs|now left]|].
  split.
  { intros q Hq [Hk|[]]. left. exists (mkNode p0 []). split; [now left|].
    cbn [npiece]. apply key_type_inj; congruence. }
  split; [intros acts q _ Hl; lia|]. split; [|exact I].
  intros acts q Htr Hl. left.
  destruct (tracks_inv _ _ _ _ Htr) as [[_ ->]|(acts' & p & a & arr & -> & _)];
    [reflexivity|].
  rewrite length_app in Hl. cbn [length] in Hl. lia.
Qed.

(** X17. The path wastes no action.  The search is breadth-first: the path
    that [findBestMove] returns with a target is a list of actions followed
    by one [hardD]; those actions, each allowed by the [actions] array of
    the pose before it, bring the block from its pose to the target; and no
    list of allowed actions that brings the block to the target is
    shorter. *)
Theorem findBestMove_path_is_shortest (fuel : nat) (state : State)
    (strategy : string) (weights : Weights) (p0 : Piece) (acts : list Action)
    (t : Piece) :
  Block state = Some p0 ->
  findBestMove fuel state strategy weights = Ok (mkMove acts (Some t)) ->
  exists acts' : list Action,
    acts = acts' ++ [hardD] /\
    tracks (grid state) p0 acts' t /\
    forall acts'' : list Action,
      tracks (grid state) p0 acts'' t -> (length acts' <= length acts'')%nat.
Proof.
  intros Hb. unfold findBestMove. rewrite Hb.
  destruct (effectiveStrategy (grid state) strategy) as [eff| |]; cbn [bind];
    try discriminate.
  destruct (search fuel state eff weights p0) as [s| |] eqn:Hs; cbn [bind];
    try discriminate.
  unfold moveOf. intros H. injection H as Hp Ht. unfold search in Hs.
  destruct (searchLoop_bfs _ _ _ _ p0 _ _ _ 0%nat (initialSearch_bfs _ _) Hs)
    as (L & _ & _ & _ & _ & _ & _ & Hbest).
  rewrite Ht in Hbest. destruct Hbest as (acts' & Hbp & Htr & Hshort).
  rewrite Hbp in Hp. exists acts'. auto.
Qed.

Section Replay.

Hypothesis Hshapes : shapesComplete = true.
Hypothesis HkicksE : kicksCompleteE = true.
Hypothesis Hagree : tablesAgree.

Lemma replay_tracks (g0 : Grid) (p0 : Piece) (acts : list Action) (q : Piece) :
  tracks g0 p0 acts q ->
  forall g : Game,
    gameOk g -> linesBeingCleared g = None -> gBlock g = Some p0 -> gGrid g = g0 ->
    exists N : nat, forall fuel : nat, (N <= fuel)%nat ->
      exists g' : Game,
        replay fuel acts g = Ok g' /\ gameOk g' /\
        gBlock g' = Some q /\ gGrid g' = gGrid g /\ gNext g' = gNext g /\
        gDrought g' = gDrought g /\ linesBeingCleared g' = None /\
        lines g' = lines g.
Proof.
  induction 1 as [|acts p a q arr Htr IH Harr Hin]; intros g Hok Hl Hb Hg.
  - exists 0%nat. intros fuel _. exists g. cbn [replay]. auto 10.
  - destruct (IH g Hok Hl Hb Hg) as (N & HN).
    exists (Nat.max N (gameFuel (py p))). intros fuel Hfuel.
    destruct (HN fuel ltac:(lia)) as (g1 & Hrun & Hok1 & Hb1 & Hg1 & Hn1 & Hd1 & Hl1 & Hs1).
    rewrite replay_app, Hrun. cbn [bind replay].
    destruct (handleAiAction_okOr Hshapes HkicksE fuel a g1 p Hok1 Hl1 Hb1)
      as [(g' & Hrun' & Hok')|[_ Hstarved]]; [|lia].
    rewrite Hrun'. cbn [bind]. exists g'. split; [reflexivity|]. split; [exact Hok'|].
    assert (Harr' : actions (gGrid g1) p = Ok arr) by (rewrite Hg1, Hg; exact Harr).
    destruct (handleAiAction_moves fuel g1 g' p arr a q Hagree Hb1 Harr' Hin Hrun')
      as (E1 & E2 & E3 & E4 & E5 & E6).
    repeat split; congruence.
Qed.

Lemma findBestMove_replay (fuel : nat) (g : Game) (strategy : string)
    (weights : Weights) (acts : list Action) (t : Piece) :
  gameOk g -> linesBeingCleared g = None ->
  findBestMove fuel (aiView g) strategy weights = Ok (mkMove acts (Some t)) ->
  exists acts' : list Action,
    acts = acts' ++ [hardD] /\
    collidesWithGrid (gGrid g) t 0 1 0 = Ok true /\
    exists N : nat, forall fuel' : nat, (N <= fuel')%nat ->
      exists g' : Game,
        replay fuel' acts' g = Ok g' /\ gameOk g' /\
        gBlock g' = Some t /\ gGrid g' = gGrid g /\ gNext g' = gNext g /\
        gDrought g' = gDrought g /\ linesBeingCleared g' = None /\
        lines g' = lines g.
Proof.
  intros Hok Hl Hfind.
  destruct (findBestMove_tracks _ _ _ _ _ _ Hfind) as (p0 & acts' & Hb & -> & Htr & Hc).
  cbn [aiView grid Block] in *.
  exists acts'. split; [reflexivity|]. split; [exact Hc|].
  exact (replay_tracks _ _ _ _ Htr g Hok Hl Hb eq_refl).
Qed.

(** X8. The plan can be carried out.  When [findBestMove], asked about a
    running game, returns a path with a target, the path is a list of
    actions followed by one [hardD]; handing those actions to
    [handleAiAction] in their order, with enough fuel, succeeds and leaves
    the block exactly at the target pose, on an unchanged grid and with the
    same next piece; and the target rests, so the final [hardD] locks the
    block where it stands. *)
Theorem findBestMove_path_reaches_target (fuel : nat) (g : Game)
    (strategy : string) (weights : Weights) (acts : list Action) (t : Piece) :
  gameOk g -> linesBeingCleared g = None ->
  findBestMove fuel (aiView g) strategy weights = Ok (mkMove acts (Some t)) ->
  exists acts' : list Action,
    acts = acts' ++ [hardD] /\
    collidesWithGrid (gGrid g) t 0 1 0 = Ok true /\
    exists N : nat, forall fuel' : nat, (N <= fuel')%nat ->
      exists g' : Game,
        replay fuel' acts' g = Ok g' /\ gameOk g' /\
        gBlock g' = Some t /\ gGrid g' = gGrid g /\ gNext g' = gNext g /\
        gDrought g' = gDrought g /\ linesBeingCleared g' = None /\
        lines g' = lines g.
Proof. exact (findBestMove_replay fuel g strategy weights acts t). Qed.

Lemma resting_ghost (fuel : nat) (g0 : Grid) (t : Piece) :
  collidesWithGrid g0 t 0 1 0 = Ok true ->
  calculateGhostPosition (S fuel) t g0 = Ok (py t).
Proof.
  intros H. unfold calculateGhostPosition. cbn [ghostLoop].
  rewrite <- collides_down_is_next, H. reflexivity.
Qed.

(** X9. The plan makes the board that was scored.  When [findBestMove]
    returns a path with a target for a running game, running the whole path
    through [handleAiAction] and then [finishLineClear], with enough fuel,
    succeeds, and the grid it leaves is the [gridAfterCurrentMove] that the
    search computed for the target (the target locked into the grid, full
    rows removed), the line counter having grown by the [clearedCount] of
    that simulation; the game is again in a state the game keeps, with no
    clear pending. *)
Theorem findBestMove_plan_makes_scored_board (fuel : nat) (g : Game)
    (strategy : string) (weights : Weights) (acts : list Action) (t : Piece) :
  gameOk g -> linesBeingCleared g = None ->
  findBestMove fuel (aiView g) strategy weights = Ok (mkMove acts (Some t)) ->
  exists N : nat, forall fuel' : nat, (N <= fuel')%nat ->
    exists (g1 g2 : Game) (h : Z),
      replay fuel' acts g = Ok g1 /\
      finishLineClear fuel' g1 = Ok g2 /\
      lockAndClear (gGrid g) t = Ok (gGrid g2, lines g2 - lines g, h) /\
      gameOk g2 /\ linesBeingCleared g2 = None.
Proof.
  intros Hok Hl Hfind.
  destruct (findBestMove_replay fuel g strategy weights acts t Hok Hl Hfind)
    as (acts' & -> & Hc & N1 & HN).
  exists (Nat.max N1 (S (Nat.max (gameFuel (py t)) (gameFuel 0)))).
  intros fuel' Hf.
  destruct (HN fuel' ltac:(lia)) as (g' & Hrun & Hok' & Hb' & Hg' & Hn' & Hd' & Hl' & Hs').
  rewrite replay_app, Hrun. cbn [bind replay handleAiAction].
  destruct (handleAiAction_okOr Hshapes HkicksE fuel' hardD g' t Hok' Hl' Hb')
    as [(g1 & Hhd & Hok1)|[_ Hstarved]]; [|lia].
  cbn [handleAiAction] in Hhd. rewrite Hhd. cbn [bind].
  destruct (finishLineClear_okOr Hshapes fuel' g1 Hok1)
    as [(g2 & Hfin & Hok2 & Hl2)|[_ Hstarved]]; [|lia].
  pose proof Hok' as (Hw & _ & _ & _ & _ & Hlive). rewrite Hl' in Hlive.
  destruct (Hlive t Hb') as (_ & Hrot & Hfree).
  destruct fuel' as [|n]; [lia|].
  rewrite <- Hg' in Hc.
  destruct (hardDrop_lockAndClear (S n) g' g1 g2 t (py t) (proj1 Hw) Hl' Hb' Hrot
              Hfree (resting_ghost n _ _ Hc) Hhd Hfin) as (h & Hlc & Hlines).
  exists g1, g2, h. split; [reflexivity|]. split; [exact Hfin|].
  split; [|auto].
  rewrite <- Hg', Hlines, <- Hs'. destruct t. exact Hlc.
Qed.

End Replay.

(** *** The player hands the plan to the game, action by action *)

Lemma actionEqb_eq (a b : Action) : actionEqb a b = true <-> a = b.
Proof. destruct a, b; cbn; split; intros H; congruence. Qed.

Lemma shiftSame_spec (a : Action) (moveQueue : list Action) :
  forall (c : Z) (rest : list Action) (c' : Z),
    shiftSame a moveQueue c = (rest, c') ->
    c <= c' /\ moveQueue = repeat a (Z.to_nat (c' - c)) ++ rest.
Proof.
  induction moveQueue as [|b q IH]; intros c rest c'; cbn [shiftSame].
  - intros H. injection H as <- <-. rewrite Z.sub_diag. split; [lia|reflexivity].
  - destruct (actionEqb b a) eqn:E.
    + apply actionEqb_eq in E. subst b. intros H.
      destruct (IH _ _ _ H) as [Hle ->]. split; [lia|].
      replace (Z.to_nat (c' - c)) with (S (Z.to_nat (c' - (c + 1)))) by lia.
      reflexivity.
    + intros H. injection H as <- <-. rewrite Z.sub_diag. split; [lia|reflexivity].
Qed.

Lemma updateGame_tick (fuel : nat) (clearElapsed ready : bool)
    (game game' : GameInstance) :
  counting game -> executing game ->
  updateGame fuel clearElapsed ready game = Ok game' ->
  counting game' /\
  if ready then
    match pending game with
    | [] => gstate game' = gstate game /\ pending game' = [] /\
            aiState game' = PLANNING
    | a :: rest => handleAiAction fuel a (gstate game) = Ok (gstate game') /\
                   pending game' = rest
    end
  else game' = game.
Proof.
  destruct game as [st strat w clearing phase moves tgt prog type count].
  unfold counting, executing, pending.
  cbn [gstate isClearing aiState aiMoveQueue aiActionInProgress
       aiCurrentActionType aiCurrentActionCount].
  intros Hcount (-> & Hl & Hover & ->). unfold updateGame. rewrite Hl, Hover.
  destruct ready; cbn [negb];
    [|intros H; injection H as <-; split; [exact Hcount|reflexivity]].
  destruct prog.
  - destruct (Hcount eq_refl) as [Hty Hc]. destruct type as [a|]; [|congruence].
    cbn [handleCurrent].
    replace (Z.to_nat count) with (S (Z.to_nat (count - 1))) by lia.
    cbn [repeat app].
    destruct (handleAiAction fuel a st) as [st'| |]; cbn [bind]; try discriminate.
    cbv zeta. destruct (0 <? count - 1) eqn:E; intros H; injection H as <-;
      cbn [gstate aiMoveQueue aiActionInProgress aiCurrentActionType
           aiCurrentActionCount].
    + apply Z.ltb_lt in E. split; [|split; reflexivity].
      intros _. split; [discriminate|lia].
    + apply Z.ltb_ge in E. split; [intros H; discriminate|].
      split; [reflexivity|].
      replace (count - 1) with 0 by lia. reflexivity.
  - cbn [app]. destruct moves as [|nextMove rest].
    + intros H. injection H as <-.
      cbn [gstate aiState aiMoveQueue aiActionInProgress]. auto.
    + destruct (isShift nextMove) eqn:Hshift.
      * destruct (shiftSame nextMove rest 1) as [rest' moveCount] eqn:Hs.
        destruct (shiftSame_spec _ _ _ _ _ Hs) as [Hle Hrest].
        destruct (handleAiAction fuel nextMove st) as [st'| |]; cbn [bind];
          try discriminate.
        destruct (1 <? moveCount) eqn:E; intros H; injection H as <-;
          cbn [gstate aiMoveQueue aiActionInProgress aiCurrentActionType
               aiCurrentActionCount].
        -- apply Z.ltb_lt in E. split; [intros _; split; [discriminate|lia]|].
           split; [reflexivity|]. symmetry. exact Hrest.
        -- apply Z.ltb_ge in E. split; [intros H; discriminate|].
           split; [reflexivity|]. rewrite Hrest.
           replace (moveCount - 1) with 0 by lia. reflexivity.
      * destruct (handleAiAction fuel nextMove st) as [st'| |]; cbn [bind];
          try discriminate.
        intros H. injection H as <-.
        cbn [gstate aiMoveQueue aiActionInProgress]. split; [intros H; discriminate|].
        split; reflexivity.
Qed.

(** X18. The player carries out the plan in its order.  While it executes
    a plan on a running game, a tick of [updateGame] whose time has come
    hands exactly the first pending action to [handleAiAction] and leaves
    the others pending, a run of equal moves being counted down one per
    tick; a tick whose time has not come changes nothing; and with nothing
    pending the player goes back to planning.  So after any number of
    ticks the game is the one that the actions handed over so far, a
    prefix of the plan, make of the game in their order. *)
Theorem updateGame_runs_plan_in_order (fuel : nat) (game : GameInstance) :
  counting game ->
  (forall (clearElapsed ready : bool) (game' : GameInstance),
     executing game ->
     updateGame fuel clearElapsed ready game = Ok game' ->
     counting game' /\
     if ready then
       match pending game with
       | [] => gstate game' = gstate game /\ pending game' = [] /\
               aiState game' = PLANNING
       | a :: rest => handleAiAction fuel a (gstate game) = Ok (gstate game') /\
                      pending game' = rest
       end
     else game' = game) /\
  (forall game' : GameInstance,
     runs fuel game game' ->
     exists done : list Action,
       pending game = done ++ pending game' /\
       replay fuel done (gstate game) = Ok (gstate game')).
Proof.
  intros Hcount. split.
  - intros clearElapsed ready game'. apply updateGame_tick. exact Hcount.
  - intros game' Hruns. induction Hruns as [game|game game1 game2 ce ready Hex Htick _ IH].
    + exists []. split; reflexivity.
    + destruct (updateGame_tick _ _ _ _ _ Hcount Hex Htick) as [Hcount1 Hstep].
      destruct (IH Hcount1) as (done & Hp & Hr).
      destruct ready.
      * destruct (pending game) as [|a rest] eqn:Hpend.
        -- destruct Hstep as (Hst & Hp1 & _). exists done.
           rewrite <- Hst. rewrite Hp1 in Hp. split; [exact Hp|exact Hr].
        -- destruct Hstep as (Hact & Hp1). exists (a :: done).
           rewrite Hp1 in Hp. split; [cbn [app]; rewrite Hp; reflexivity|].
           cbn [replay]. rewrite Hact. cbn [bind]. exact Hr.
      * subst game1. exists done. auto.
Qed.

(** *** The counters of the game *)

Lemma clearPoints_nonneg (clearedCount : nat) (level : Z) :
  -1 <= level -> 0 <= clearPoints clearedCount level.
Proof.
  intros Hl. unfold clearPoints.
  destruct clearedCount as [|[|[|[|[|n]]]]]; lia.
Qed.

Lemma spawnBlock_counts (fuel : nat) (g g' : Game) :
  spawnBlock fuel g = Ok g' ->
  score g' = score g /\ lines g' = lines g /\ level g' = level g /\
  softDrop g' = softDrop g.
Proof.
  unfold spawnBlock. game_fields. destruct (gNext g) as [type|]; [|discriminate].
  destruct (collidesWithGrid (gGrid g) _ 0 0 0) as [[|]| |]; cbn [bind];
    try discriminate; intros H; apply updateGhostPiece_trace in H as [gh ->];
    game_fields; auto.
Qed.

Lemma placePiece_counts (fuel : nat) (g g' : Game) :
  0 <= softDrop g -> placePiece fuel g = Ok g' ->
  lines g <= lines g' /\ level g <= level g' /\ softDrop g' = 0 /\
  (-1 <= level g -> score g <= score g').
Proof.
  intros Hs. unfold placePiece, lockBlock. cbv zeta. game_fields.
  destruct (gBlock g) as [p|] eqn:Hb; [|discriminate].
  destruct (shapeOf (ptype p) (rotation p)) as [shape| |]; cbn [bind];
    try discriminate.
  destruct (lockBlockLoop (gGrid g) shape (px p) (py p) (ptype p)) as [grid1| |];
    cbn [bind]; try discriminate.
  game_fields.
  destruct (linesToClear grid1) as [[|l ls]| |]; cbn [bind]; try discriminate.
  - intros H. apply spawnBlock_counts in H as (E1 & E2 & E3 & E4). game_fields.
    rewrite E1, E2, E3, E4. lia.
  - intros H.
    match type of H with
    | context [clearPoints ?a ?b] =>
        pose proof (clearPoints_nonneg a b) as Hpts;
        remember (clearPoints a b) as points eqn:Epts; clear Epts
    end.
    game_fields. rewrite Hb in H, Hpts.
    repeat match type of H with
           | context [if ?c then _ else _] => destruct c
           end;
      injection H as <-; game_fields; lia.
Qed.

(** X19. The counters of the game never go down.  Whatever the player
    does, and at each [applyGravity] and [finishLineClear], the number of
    lines and the level are at least what they were and the soft drop count
    stays non-negative; and the score is at least what it was as long as the
    level is -1 or more, which it is for good once the game was started at a
    level of -1 or more (a start level below -1, which [createInitialState]
    accepts, gives line clears a negative worth). *)
Theorem game_counters_never_decrease (fuel : nat) (g g' : Game) :
  0 <= softDrop g ->
  (exists a, handleAiAction fuel a g = Ok g') \/ applyGravity fuel g = Ok g' \/
  finishLineClear fuel g = Ok g' ->
  lines g <= lines g' /\ level g <= level g' /\ 0 <= softDrop g' /\
  (-1 <= level g -> score g <= score g' /\ -1 <= level g').
Proof.
  intros Hs.
  assert (Hsame : forall gh np, g' = setGhost (setBlock g np) gh ->
            lines g <= lines g' /\ level g <= level g' /\ 0 <= softDrop g' /\
            (-1 <= level g -> score g <= score g' /\ -1 <= level g')).
  { intros gh np ->. game_fields. lia. }
  assert (Hplace : forall g0, score g <= score g0 -> lines g0 = lines g ->
            level g0 = level g -> softDrop g0 = softDrop g ->
            placePiece fuel g0 = Ok g' ->
            lines g <= lines g' /\ level g <= level g' /\ 0 <= softDrop g' /\
            (-1 <= level g -> score g <= score g' /\ -1 <= level g')).
  { intros g0 E1 E2 E3 E4 H. apply placePiece_counts in H; [|lia]. lia. }
  assert (Hshift : forall dx,
            match gBlock g with
            | Some block =>
                c <- collidesWithGrid (gGrid g) block dx 0 0 ;;
                if c then Ok g
                else updateGhostPiece fuel
                       (setBlock g (Some (mkPiece (ptype block) (rotation block)
                                                  (px block + dx) (py block))))
            | None => TypeError
            end = Ok g' ->
            lines g <= lines g' /\ level g <= level g' /\ 0 <= softDrop g' /\
            (-1 <= level g -> score g <= score g' /\ -1 <= level g')).
  { intros dx. destruct (gBlock g) as [p|]; [|discriminate].
    destruct (collidesWithGrid (gGrid g) p dx 0 0) as [[|]| |]; cbn [bind];
      try discriminate; intros H.
    - injection H as <-. lia.
    - apply updateGhostPiece_trace in H as [gh ->]. eapply Hsame. reflexivity. }
  assert (Hrot : forall srsI srsJ, rotateWith fuel g srsI srsJ = Ok g' ->
            lines g <= lines g' /\ level g <= level g' /\ 0 <= softDrop g' /\
            (-1 <= level g -> score g <= score g' /\ -1 <= level g')).
  { intros srsI srsJ. unfold rotateWith.
    destruct (gBlock g) as [p|]; [|intros H; injection H as <-; lia].
    destruct (Nat.eqb (ptype p) BLOCK_O); [intros H; injection H as <-; lia|].
    cbv zeta.
    match goal with |- match ?n with _ => _ end = _ -> _ => destruct n as [srs|] end;
      [|discriminate].
    induction srs as [|[[x y] r] rest IH]; cbn [rotate].
    - intros H. injection H as <-. lia.
    - destruct (collidesWithGrid (gGrid g) p x y r) as [[|]| |]; cbn [bind];
        try discriminate; [exact IH|].
      intros H. apply updateGhostPiece_trace in H as [gh ->]. eapply Hsame.
      reflexivity. }
  intros [[a H]|[H|H]].
  - destruct a; cbn [handleAiAction] in H.
    + apply (Hshift (-1)). exact H.
    + apply (Hshift 1). exact H.
    + unfold moveDown in H. destruct (gBlock g) as [p|]; [|discriminate].
      destruct (collidesWithGrid (gGrid g) p 0 1 0) as [[|]| |]; cbn [bind] in H;
        try discriminate; injection H as <-; game_fields; lia.
    + exact (Hrot _ _ H).
    + exact (Hrot _ _ H).
    + unfold hardDrop in H. destruct (gBlock g) as [p|]; [|injection H as <-; lia].
      destruct (calculateGhostPosition fuel p (gGrid g)) as [gy| |] eqn:Hgy;
        cbn [bind] in H; try discriminate.
      cbv zeta in H. unfold calculateGhostPosition in Hgy.
      destruct (ghostLoop_rests _ _ _ _ _ Hgy) as (Hle & _).
      refine (Hplace _ _ _ _ _ H); game_fields; try reflexivity. lia.
  - unfold applyGravity in H. destruct (gBlock g) as [p|]; [|discriminate].
    destruct (collidesWithGrid (gGrid g) p 0 1 0) as [[|]| |]; cbn [bind] in H;
      try discriminate.
    + apply (Hplace g (Z.le_refl _) eq_refl eq_refl eq_refl H).
    + injection H as <-. game_fields. lia.
  - unfold finishLineClear in H. destruct (linesBeingCleared g) as [ls|].
    + apply spawnBlock_counts in H as (E1 & E2 & E3 & E4). game_fields. lia.
    + injection H as <-. lia.
Qed.

(** *** The next baseline of the training *)

Lemma Qltb_false_le (a b : Q) : Qltb a b = false -> (b <= a)%Q.
Proof.
  unfold Qltb. rewrite negb_false_iff. apply Qle_bool_iff.
Qed.

Lemma Qltb_true_lt (a b : Q) : Qltb a b = true <-> (a < b)%Q.
Proof.
  unfold Qltb. rewrite negb_true_iff. split.
  - intros H. apply Qnot_le_lt. intros Hle. apply Qle_bool_iff in Hle. congruence.
  - intros H. destruct (Qle_bool b a) eqn:E; [|reflexivity].
    apply Qle_bool_iff in E. exfalso. exact (Qlt_not_le _ _ H E).
Qed.

Lemma bestLoop_spec (games : list Trainee) :
  forall (bg : option Trainee) (bp : Q) (bg' : option Trainee) (bp' : Q),
    bestLoop games bg bp = (bg', bp') ->
    (bp <= bp')%Q /\
    (forall g, In g games -> (performance g <= bp')%Q) /\
    ((bg' = bg /\ bp' = bp) \/
     (exists g, In g games /\ bg' = Some g /\ bp' = performance g /\ (bp < bp')%Q)).
Proof.
  induction games as [|game rest IH]; intros bg bp bg' bp'; cbn [bestLoop].
  - intros H. injection H as <- <-. split; [apply Qle_refl|].
    split; [intros g []|now left].
  - destruct (Qltb bp (performance game)) eqn:E; intros H;
      destruct (IH _ _ _ _ H) as (Hle & Hall & Hsel).
    + apply Qltb_true_lt in E. split; [apply Qlt_le_weak; lra|]. split.
      * intros g [<-|Hin]; [exact Hle|exact (Hall g Hin)].
      * right. destruct Hsel as [[-> ->]|(g & Hin & -> & -> & Hlt)].
        -- exists game. split; [now left|]. auto.
        -- exists g. split; [now right|]. split; [reflexivity|].
           split; [reflexivity|lra].
    + apply Qltb_false_le in E. split; [exact Hle|]. split.
      * intros g [<-|Hin]; [lra|exact (Hall g Hin)].
      * destruct Hsel as [Hsame|(g & Hin & Hg & Hp & Hlt)]; [now left|].
        right. exists g. split; [now right|]. auto.
Qed.

Lemma performance_cleared (g : Trainee) :
  0 <= tScore g -> 0 < tLines g -> (0 <= performance g)%Q.
Proof.
  intros Hs Hl. unfold performance.
  destruct (0 <? tLines g) eqn:E; [|apply Z.ltb_ge in E; lia].
  apply Qle_shift_div_l.
  - change 0%Q with (inject_Z 0). rewrite <- Zlt_Qlt. exact Hl.
  - rewrite Qmult_0_l. change 0%Q with (inject_Z 0). rewrite <- Zle_Qle. exact Hs.
Qed.

Lemma performance_none (g : Trainee) :
  tLines g <= 0 -> performance g = (- (1))%Q.
Proof.
  intros Hl. unfold performance.
  destruct (0 <? tLines g) eqn:E; [apply Z.ltb_lt in E; lia|reflexivity].
Qed.

(** X20. Training keeps the weights of the best game.  At the end of a
    training session the new baseline is the weight vector of a game that
    cleared a line and whose score per line is the highest of all the
    games; when no game cleared a line, the baseline stays as it is.  The
    scores of the games are taken not to be negative, as the game keeps
    them. *)
Theorem newBaseline_is_best_performer (games : list Trainee)
    (baselineWeights : Weights) :
  Forall (fun g => 0 <= tScore g) games ->
  ((forall g, In g games -> tLines g <= 0) ->
   newBaseline games baselineWeights = baselineWeights) /\
  ((exists g, In g games /\ 0 < tLines g) ->
   exists best : Trainee,
     In best games /\ 0 < tLines best /\
     newBaseline games baselineWeights = tWeights best /\
     forall g, In g games -> (performance g <= performance best)%Q).
Proof.
  intros Hscore. unfold newBaseline.
  destruct (bestLoop games None (- (1))%Q) as [bg' bp'] eqn:Hloop.
  destruct (bestLoop_spec _ _ _ _ _ Hloop) as (Hle & Hall & Hsel). split.
  - intros Hnone. destruct Hsel as [[-> ->]|(g & Hin & -> & -> & Hlt)];
      [reflexivity|].
    rewrite (performance_none g (Hnone g Hin)) in Hlt |- *.
    exfalso. exact (Qlt_irrefl _ Hlt).
  - intros (g0 & Hin0 & Hl0).
    pose proof (performance_cleared g0
                  (proj1 (Forall_forall _ _) Hscore g0 Hin0) Hl0) as Hp0.
    pose proof (Hall g0 Hin0) as Hb0.
    destruct Hsel as [[-> ->]|(g & Hin & -> & -> & Hlt)]; [exfalso; lra|].
    exists g. split; [exact Hin|].
    assert (Hlines : 0 < tLines g).
    { destruct (Z.lt_ge_cases 0 (tLines g)) as [H|H]; [exact H|].
      rewrite (performance_none g) in Hb0 by lia. exfalso. lra. }
    split; [exact Hlines|]. split; [|exact Hall].
    assert (E : Qltb (- (1)) (performance g) = true) by (apply Qltb_true_lt; lra).
    rewrite E. reflexivity.
Qed.
End Tables.

(** * Closed instances, on the sample tables *)

Lemma simulateLineClearing_rows_witness :
  length oneLineGrid = 24%nat /\
  (forall row, In row createEmptyGrid -> In 0%nat row) /\
  simulateLineClearing oneLineGrid = Ok (createEmptyGrid, 1) /\
  simulateLineClearing createEmptyGrid = Ok (createEmptyGrid, 0) /\
  exists (g' : Grid) (clearedCount : Z),
    simulateLineClearing oneLineGrid = Ok (g', clearedCount) /\
    length g' = 24%nat /\
    clearedCount =
      Z.of_nat (length (filter (fun row => negb (existsb (Nat.eqb 0%nat) row))
                               oneLineGrid)) /\
    g' = repeat BLANK_ROW (Z.to_nat clearedCount)
           ++ filter (fun row => existsb (Nat.eqb 0%nat) row) oneLineGrid.
Proof.
  assert (Hopen : forall row, In row createEmptyGrid -> In 0%nat row).
  { intros row Hin. apply repeat_spec in Hin. subst row. left. reflexivity. }
  split; [reflexivity|]. split; [exact Hopen|]. split; [reflexivity|].
  split.
  - exact (proj2 (simulateLineClearing_rows createEmptyGrid eq_refl) Hopen).
  - exact (proj1 (simulateLineClearing_rows oneLineGrid eq_refl)).
Defined.

Lemma collidesWithGrid_iff_witness :
  length deepWellGrid = Z.to_nat GRID_HEIGHT /\
  shapeOf sampleBlockCoords (ptype spawnedT) ((rotation spawnedT + 0) mod 4)%nat
    = Ok [(1, 0); (0, 1); (1, 1); (2, 1)] /\
  exists b, collidesWithGrid sampleBlockCoords deepWellGrid spawnedT 0 4 0 = Ok b /\
    (b = true <->
     Exists (fun coord =>
               let col := px spawnedT + 0 + fst coord in
               let row := py spawnedT + 4 + snd coord in
               col < 0 \/ 10 <= col \/ 24 <= row \/
               (0 <= row /\ occupied deepWellGrid row col))
            [(1, 0); (0, 1); (1, 1); (2, 1)]).
Proof.
  split; [reflexivity|]. split; [reflexivity|].
  apply (collidesWithGrid_iff sampleBlockCoords deepWellGrid spawnedT 0 4 0%nat
           [(1, 0); (0, 1); (1, 1); (2, 1)]); reflexivity.
Defined.

Lemma droughtPenalty_well_mode_witness :
  isWell "rightWell" = true /\
  length rightWellGrid = 24%nat /\
  exists (heights : list Z) (holes : Z),
    getColumnHeights rightWellGrid = Ok heights /\
    evaluateBoard rightWellGrid 0 "rightWell" BASE_WELL_WEIGHTS 20 None =
      Ok (jsadd (wellBase "rightWell" heights holes 0 BASE_WELL_WEIGHTS)
                (droughtPenalty "rightWell" heights BASE_WELL_WEIGHTS 20)).
Proof.
  split; [reflexivity|]. split; [reflexivity|].
  destruct (droughtPenalty_well_mode rightWellGrid 0 "rightWell"
              BASE_WELL_WEIGHTS 20 None eq_refl eq_refl)
    as (heights & holes & Hh & He & _).
  exists heights, holes. split; [exact Hh|exact He].
Defined.

Lemma stackBumpiness_skips_well_pair_witness :
  length rightWellGrid = 24%nat /\
  exists h0 h1 h2 h3 h4 h5 h6 h7 h8 h9 holes : Z,
    getColumnHeights rightWellGrid = Ok [h0; h1; h2; h3; h4; h5; h6; h7; h8; h9] /\
    getHoles rightWellGrid = Ok holes /\
    evaluateBoard rightWellGrid 0 "rightWell" BASE_WELL_WEIGHTS 0 None =
      Ok (jsadd (jsadd (jsadd (jsadd (jsadd
            (jsmul (weightNum BASE_WELL_WEIGHTS "holes") (ofZ holes))
            (jsmul (weightNum BASE_WELL_WEIGHTS "bumpiness")
                   (ofZ (Z.abs (h0 - h1) + Z.abs (h1 - h2) + Z.abs (h2 - h3)
                         + Z.abs (h3 - h4) + Z.abs (h4 - h5) + Z.abs (h5 - h6)
                         + Z.abs (h6 - h7) + Z.abs (h7 - h8)))))
            (jsmul (weightNum BASE_WELL_WEIGHTS "aggregateHeight")
                   (ofZ (getAggregateHeight [h0; h1; h2; h3; h4; h5; h6; h7; h8; h9]))))
            (jsmul (weightNum BASE_WELL_WEIGHTS "wellClogs") (ofZ h9)))
            (jsmul (weightNum BASE_WELL_WEIGHTS "lineClearBonus") (ofZ (0 * 0))))
            (droughtPenalty "rightWell" [h0; h1; h2; h3; h4; h5; h6; h7; h8; h9]
                            BASE_WELL_WEIGHTS 0)).
Proof.
  split; [reflexivity|].
  destruct (proj1 stackBumpiness_skips_well_pair rightWellGrid eq_refl)
    as (h0 & h1 & h2 & h3 & h4 & h5 & h6 & h7 & h8 & h9 & holes
        & Hh & Hn & Hr & _).
  exists h0, h1, h2, h3, h4, h5, h6, h7, h8, h9, holes.
  split; [exact Hh|]. split; [exact Hn|].
  exact (Hr 0 BASE_WELL_WEIGHTS 0 None).
Defined.

Lemma mutateWeights_sign_witness :
  getDoubleWeight (toDoubles BASE_SURVIVAL_WEIGHTS) "completedLines"
    = Some (dOfQ (- (76 # 100))) /\
  dsign (dOfQ (- (76 # 100))) = SignNeg /\
  productVanishes (dOfQ (- (76 # 100)))
    (newValueOf (dOfQ (- (76 # 100))) (dOfQ (1 # 10)) (dOfQ (1 # 4))) = false /\
  exists v',
    getDoubleWeight
      (mutateWeights (toDoubles BASE_SURVIVAL_WEIGHTS) (dOfQ (1 # 10))
                     (fun _ => dOfQ (1 # 4)))
      "completedLines" = Some v' /\
    dsign v' = SignNeg.
Proof.
  assert (Hs : dsign (dOfQ (- (76 # 100))) = SignNeg) by (vm_compute; reflexivity).
  assert (Hp : productVanishes (dOfQ (- (76 # 100)))
                 (newValueOf (dOfQ (- (76 # 100))) (dOfQ (1 # 10)) (dOfQ (1 # 4)))
               = false) by (vm_compute; reflexivity).
  split; [vm_compute; reflexivity|]. split; [exact Hs|]. split; [exact Hp|].
  destruct (mutateWeights_sign (toDoubles BASE_SURVIVAL_WEIGHTS) (dOfQ (1 # 10))
              (fun _ => dOfQ (1 # 4)) "completedLines" (dOfQ (- (76 # 100)))
              ltac:(vm_compute; reflexivity))
    as (v' & Hv' & _ & Hk).
  exists v'. split; [exact Hv'|].
  destruct (Hk ltac:(rewrite Hs; discriminate)) as (j & _ & _ & Hsign).
  rewrite (Hsign Hp). exact Hs.
Defined.

(** C6 as the spec words it fails: with mutation factor 1 and a draw of 0
    the perturbation is -1, [newValue] is 0 and so is the product
    [baseValue * newValue], which is not below 0: the coefficient [holes]
    goes from 1 to 0. *)
Lemma mutateWeights_sign_counterexample :
  getDoubleWeight (toDoubles BASE_SURVIVAL_WEIGHTS) "holes" = Some (dOfZ 1) /\
  exists v',
    getDoubleWeight
      (mutateWeights (toDoubles BASE_SURVIVAL_WEIGHTS) (dOfZ 1) (fun _ => dOfZ 0))
      "holes" = Some v' /\
    dsign (dOfZ 1) = SignPos /\ dsign v' = SignZero /\ dsign v' <> dsign (dOfZ 1).
Proof.
  split; [vm_compute; reflexivity|].
  eexists. split; [vm_compute; reflexivity|].
  split; [reflexivity|]. split; [reflexivity|]. discriminate.
Qed.

(** Where the product underflows the test of the loop sees a zero: the
    coefficient 2^-565, with mutation factor 2 and a draw of 0, comes out
    negative. *)
Example mutateValue_underflow_loses_sign :
  dsign tinyCoefficient = SignPos /\
  productVanishes tinyCoefficient (newValueOf tinyCoefficient (dOfZ 2) (dOfZ 0))
    = true /\
  dsign (mutateValue tinyCoefficient (dOfZ 2) (dOfZ 0)) = SignNeg.
Proof. repeat split; vm_compute; reflexivity. Qed.

Lemma findBestMove_danger_is_survival_witness :
  isWell "rightWell" = true /\
  getColumnHeights (grid dangerLookaheadState) = Ok [19; 0; 0; 0; 0; 0; 0; 0; 0; 0] /\
  Exists (fun h => h > 18) [19; 0; 0; 0; 0; 0; 0; 0; 0; 0] /\
  effectiveStrategy (grid dangerLookaheadState) "rightWell" = Ok "survival"%string /\
  findBestMove sampleBlockCoords sampleBLOCK_I sampleRotIleft sampleRotIright
    sampleRotJLTSZleft sampleRotJLTSZright 2000 dangerLookaheadState "rightWell"
    BASE_WELL_WEIGHTS =
  survivalMove sampleBlockCoords sampleBLOCK_I sampleRotIleft sampleRotIright
    sampleRotJLTSZleft sampleRotJLTSZright 2000 dangerLookaheadState
    BASE_WELL_WEIGHTS.
Proof.
  assert (H1 : isWell "rightWell" = true) by reflexivity.
  assert (H2 : getColumnHeights (grid dangerLookaheadState)
               = Ok [19; 0; 0; 0; 0; 0; 0; 0; 0; 0]) by (vm_compute; reflexivity).
  assert (H3 : Exists (fun h => h > 18) [19; 0; 0; 0; 0; 0; 0; 0; 0; 0])
    by (apply Exists_cons_hd; lia).
  split; [exact H1|]. split; [exact H2|]. split; [exact H3|].
  destruct (findBestMove_danger_is_survival sampleBlockCoords sampleBLOCK_I
              sampleRotIleft sampleRotIright sampleRotJLTSZleft sampleRotJLTSZright
              2000 dangerLookaheadState "rightWell" BASE_WELL_WEIGHTS _ H1 H2 H3)
    as (He & Hf & _).
  split; [exact He|exact Hf].
Defined.

Lemma lookaheadScore_zero_is_default_witness :
  getWeight (setWeight BASE_SURVIVAL_WEIGHTS "lookaheadScore" 0) "lookaheadScore"
    = Some 0%Q /\
  (0 == 0)%Q /\
  lookaheadWeight (setWeight BASE_SURVIVAL_WEIGHTS "lookaheadScore" 0) = (8 # 10)%Q /\
  findBestMove sampleBlockCoords sampleBLOCK_I sampleRotIleft sampleRotIright
    sampleRotJLTSZleft sampleRotJLTSZright 2000 emptyState "survival"
    (setWeight BASE_SURVIVAL_WEIGHTS "lookaheadScore" 0) =
  findBestMove sampleBlockCoords sampleBLOCK_I sampleRotIleft sampleRotIright
    sampleRotJLTSZleft sampleRotJLTSZright 2000 emptyState "survival"
    (setWeight (setWeight BASE_SURVIVAL_WEIGHTS "lookaheadScore" 0)
               "lookaheadScore" (8 # 10)).
Proof.
  assert (H1 : getWeight (setWeight BASE_SURVIVAL_WEIGHTS "lookaheadScore" 0)
                         "lookaheadScore" = Some 0%Q) by reflexivity.
  assert (H2 : (0 == 0)%Q) by reflexivity.
  split; [exact H1|]. split; [exact H2|].
  destruct (lookaheadScore_zero_is_default sampleBlockCoords sampleBLOCK_I
              sampleRotIleft sampleRotIright sampleRotJLTSZleft sampleRotJLTSZright
              2000 emptyState "survival" _ 0%Q H1 H2) as (Hl & _ & Hf).
  split; [exact Hl|exact Hf].
Defined.

(** Why the kick tables matter for termination: rows above the grid never
    collide, so the poses that do not collide are not bounded upwards; on
    the empty board the T piece is free at every height above the grid. *)
Lemma free_poses_unbounded (y : Z) :
  y <= -2 -> freePose sampleBlockCoords createEmptyGrid 5 (3, y, 0%nat).
Proof.
  intros Hy. unfold freePose, collidesWithGrid. cbn [ptype rotation px py].
  change (shapeOf sampleBlockCoords 5 ((0 + 0) mod 4))
    with (@Ok Shape [(1, 0); (0, 1); (1, 1); (2, 1)]).
  cbn [bind]. apply collidesLoop_hidden.
  repeat constructor; cbn [fst snd]; unfold COLS; lia.
Qed.

Lemma sample_tablesOk :
  tablesOk sampleBlockCoords sampleRotIleft sampleRotIright sampleRotJLTSZleft
    sampleRotJLTSZright = true.
Proof. reflexivity. Defined.

Lemma sample_grids_wf :
  wf_grid (grid deepWellState) /\ wf_grid (grid emptyState).
Proof. split; (split; [reflexivity|repeat constructor]). Defined.

Lemma sample_block_known (state : State) :
  Block state = Some spawnedT ->
  forall p, Block state = Some p ->
    (ptype p < length sampleBlockCoords)%nat /\ (rotation p < 4)%nat.
Proof.
  intros H p Hp. rewrite H in Hp. injection Hp as <-. cbn. split; lia.
Defined.

Lemma findBestMove_fallbacks_witness :
  tablesOk sampleBlockCoords sampleRotIleft sampleRotIright sampleRotJLTSZleft
    sampleRotJLTSZright = true /\
  wf_grid (grid deepWellState) /\
  (forall p, Block deepWellState = Some p ->
     (ptype p < length sampleBlockCoords)%nat /\ (rotation p < 4)%nat) /\
  (forall t, Next deepWellState = Some t -> (t < length sampleBlockCoords)%nat) /\
  findBestMove sampleBlockCoords sampleBLOCK_I sampleRotIleft sampleRotIright
    sampleRotJLTSZleft sampleRotJLTSZright 400 deepWellState "rightWell"
    (removeWeight BASE_WELL_WEIGHTS "wellClogs")
  = Ok (mkMove [hardD] None).
Proof.
  assert (H3 : forall p, Block deepWellState = Some p ->
                 (ptype p < length sampleBlockCoords)%nat /\ (rotation p < 4)%nat)
    by (apply sample_block_known; reflexivity).
  assert (H4 : forall t, Next deepWellState = Some t ->
                 (t < length sampleBlockCoords)%nat) by (intros t H; discriminate H).
  split; [exact sample_tablesOk|]. split; [exact (proj1 sample_grids_wf)|].
  split; [exact H3|]. split; [exact H4|].
  destruct (findBestMove_fallbacks sampleBlockCoords sampleBLOCK_I
              sampleRotIleft sampleRotIright sampleRotJLTSZleft sampleRotJLTSZright
              400 deepWellState "rightWell"
              (removeWeight BASE_WELL_WEIGHTS "wellClogs")
              sample_tablesOk (proj1 sample_grids_wf) H3 H4) as (_ & _ & Hfb).
  assert (Hs : exists s,
             search sampleBlockCoords sampleBLOCK_I sampleRotIleft sampleRotIright
               sampleRotJLTSZleft sampleRotJLTSZright 400 deepWellState "rightWell"
               (removeWeight BASE_WELL_WEIGHTS "wellClogs") spawnedT = Ok s /\
             bestPath s = None).
  { vm_compute. eexists. split; reflexivity. }
  destruct Hs as (s & Hs & Hb).
  apply (Hfb spawnedT "rightWell"%string s); [reflexivity|reflexivity|exact Hs|exact Hb].
Defined.

Lemma findBestMove_terminates_witness :
  tablesOk sampleBlockCoords sampleRotIleft sampleRotIright sampleRotJLTSZleft
    sampleRotJLTSZright = true /\
  wf_grid (grid emptyState) /\
  (forall p, Block emptyState = Some p ->
     (ptype p < length sampleBlockCoords)%nat /\ (rotation p < 4)%nat) /\
  (forall t, Next emptyState = Some t -> (t < length sampleBlockCoords)%nat) /\
  exists fuel0 : nat, forall fuel : nat, (fuel0 <= fuel)%nat ->
    exists move : Move,
      findBestMove sampleBlockCoords sampleBLOCK_I sampleRotIleft sampleRotIright
        sampleRotJLTSZleft sampleRotJLTSZright fuel emptyState "rightWell"
        BASE_WELL_WEIGHTS = Ok move.
Proof.
  assert (H3 : forall p, Block emptyState = Some p ->
                 (ptype p < length sampleBlockCoords)%nat /\ (rotation p < 4)%nat)
    by (apply sample_block_known; reflexivity).
  assert (H4 : forall t, Next emptyState = Some t ->
                 (t < length sampleBlockCoords)%nat).
  { intros t H. injection H as <-. cbn. lia. }
  split; [exact sample_tablesOk|]. split; [exact (proj2 sample_grids_wf)|].
  split; [exact H3|]. split; [exact H4|].
  destruct (findBestMove_terminates sampleBlockCoords sampleBLOCK_I
              sampleRotIleft sampleRotIright sampleRotJLTSZleft sampleRotJLTSZright
              emptyState "rightWell" BASE_WELL_WEIGHTS
              sample_tablesOk (proj2 sample_grids_wf) H3 H4) as [fuel0 Hfuel].
  exists fuel0. intros fuel Hle. destruct (Hfuel fuel Hle) as (move & Hm & _).
  exists move. exact Hm.
Defined.

(** * Closed instances of the properties of the game, on the sample tables *)

Lemma sample_shapesComplete : shapesComplete sampleBlockCoords = true.
Proof. reflexivity. Defined.

Lemma sample_kicksCompleteE :
  kicksCompleteE sampleRotIleftE sampleRotIrightE sampleRotJLTSZleftE
    sampleRotJLTSZrightE = true.
Proof. reflexivity. Defined.

Lemma sample_tablesAgree :
  tablesAgree sampleRotIleft sampleRotIright sampleRotJLTSZleft sampleRotJLTSZright
    sampleBLOCK_O sampleRotIleftE sampleRotIrightE sampleRotJLTSZleftE
    sampleRotJLTSZrightE.
Proof.
  split; [reflexivity|]. split; [repeat split|].
  split; (split; repeat constructor).
Defined.

Ltac sample_gameOk :=
  split; [split; [reflexivity|repeat constructor]|];
  split; [repeat constructor; cbn; lia|];
  split; [intros t H; injection H as <-; cbn; lia|];
  split; [intros _; split; [cbn; lia|reflexivity]|];
  split; [discriminate|];
  intros p H; injection H as <-;
  split; [cbn; lia|]; split; [cbn; lia|]; reflexivity.

Lemma sampleGame_ok : gameOk sampleBlockCoords sampleGame.
Proof. sample_gameOk. Defined.

Lemma sampleLineGame_ok :
  gameOk sampleBlockCoords (sampleLineGameAt 3) /\
  gameOk sampleBlockCoords (sampleLineGameAt 6).
Proof. split; sample_gameOk. Defined.

Lemma sampleRestingGame_ok : gameOk sampleBlockCoords sampleRestingGame.
Proof. sample_gameOk. Defined.

Lemma samplePendingGame_ok : gameOk sampleBlockCoords samplePendingGame.
Proof.
  split; [split; [reflexivity|repeat constructor]|].
  split; [repeat constructor; cbn; lia|].
  split; [intros t H; injection H as <-; cbn; lia|].
  split; [intros _; split; [cbn; lia|reflexivity]|].
  split; [discriminate|].
  split; reflexivity.
Defined.

Lemma createEmptyGrid_open : forall row, In row createEmptyGrid -> In 0%nat row.
Proof. intros row Hin. apply repeat_spec in Hin. subst row. left. reflexivity. Defined.

Lemma calculateGhostPosition_rests_witness :
  shapesComplete sampleBlockCoords = true /\
  length createEmptyGrid = 24%nat /\
  (ptype spawnedT < length sampleBlockCoords)%nat /\
  exists ghostY : Z,
    (forall fuel : nat,
       (Z.to_nat (GRID_HEIGHT + maxOffset sampleBlockCoords - py spawnedT) < fuel)%nat ->
       calculateGhostPosition sampleBlockCoords fuel spawnedT createEmptyGrid
       = Ok ghostY) /\
    py spawnedT <= ghostY /\
    collidesWithGrid sampleBlockCoords createEmptyGrid (mkPiece 5 0 3 ghostY) 0 1 0
    = Ok true.
Proof.
  assert (H3 : (ptype spawnedT < length sampleBlockCoords)%nat) by (cbn; lia).
  split; [reflexivity|]. split; [reflexivity|]. split; [exact H3|].
  destruct (calculateGhostPosition_rests sampleBlockCoords spawnedT createEmptyGrid
              eq_refl eq_refl H3) as (gy & H & Hle & Hrest & _).
  exists gy. split; [exact H|]. split; [exact Hle|exact Hrest].
Defined.

Lemma lockBlock_as_search_lock_witness :
  gBlock sampleGame = Some spawnedT /\
  (rotation spawnedT < 4)%nat /\
  shapeOf sampleBlockCoords (ptype spawnedT) (rotation spawnedT)
    = Ok [(1, 0); (0, 1); (1, 1); (2, 1)] /\
  freePiece sampleBlockCoords (gGrid sampleGame) spawnedT /\
  (g' <- lockBlock sampleBlockCoords sampleGame ;; Ok (gGrid g'))
  = lockLoop (gGrid sampleGame) [(1, 0); (0, 1); (1, 1); (2, 1)] 3 2 5.
Proof.
  assert (H2 : (rotation spawnedT < 4)%nat) by (cbn; lia).
  split; [reflexivity|]. split; [exact H2|]. split; [reflexivity|].
  split; [reflexivity|].
  exact (lockBlock_as_search_lock sampleBlockCoords sampleGame spawnedT
           [(1, 0); (0, 1); (1, 1); (2, 1)] eq_refl H2 eq_refl eq_refl).
Defined.

Lemma finishLineClear_as_simulated_witness :
  length oneLineGrid = 24%nat /\
  exists ls : list nat,
    linesToClear oneLineGrid = Ok ls /\
    simulateLineClearing oneLineGrid
    = Ok (removeLines oneLineGrid ls, Z.of_nat (length ls)).
Proof.
  split; [reflexivity|].
  exact (finishLineClear_as_simulated oneLineGrid eq_refl).
Defined.

Lemma handleAiAction_keeps_game_witness :
  gameOk sampleBlockCoords sampleGame /\
  linesBeingCleared sampleGame = None /\
  gBlock sampleGame = Some spawnedT /\
  okOr (gameOk sampleBlockCoords)
       (50 < gameFuel sampleBlockCoords sampleRotIleftE sampleRotIrightE
               sampleRotJLTSZleftE sampleRotJLTSZrightE (py spawnedT))%nat
       (handleAiAction sampleBlockCoords sampleBLOCK_I sampleBLOCK_O
          sampleGravityAtLevel sampleRotIleftE sampleRotIrightE sampleRotJLTSZleftE
          sampleRotJLTSZrightE 50 rotateR sampleGame).
Proof.
  split; [exact sampleGame_ok|]. split; [reflexivity|]. split; [reflexivity|].
  exact (handleAiAction_keeps_game sampleBlockCoords sampleBLOCK_I sampleBLOCK_O
           sampleGravityAtLevel sampleRotIleftE sampleRotIrightE sampleRotJLTSZleftE
           sampleRotJLTSZrightE sample_shapesComplete sample_kicksCompleteE
           50 rotateR sampleGame spawnedT sampleGame_ok eq_refl eq_refl).
Defined.

Lemma applyGravity_finishLineClear_keep_game_witness :
  gameOk sampleBlockCoords sampleRestingGame /\
  gameOk sampleBlockCoords samplePendingGame /\
  (exists g' : Game,
     applyGravity sampleBlockCoords sampleBLOCK_I sampleGravityAtLevel 50
       sampleRestingGame = Ok g' /\
     linesBeingCleared g' = Some [23%nat] /\ score g' = 40 /\
     gameOk sampleBlockCoords g') /\
  (exists g' : Game,
     finishLineClear sampleBlockCoords 50 samplePendingGame = Ok g' /\
     gGrid g' = createEmptyGrid /\
     gameOk sampleBlockCoords g' /\ linesBeingCleared g' = None).
Proof.
  split; [exact sampleRestingGame_ok|]. split; [exact samplePendingGame_ok|].
  split.
  - destruct (proj1 (applyGravity_finishLineClear_keep_game sampleBlockCoords
                       sampleBLOCK_I sampleGravityAtLevel sampleRotIleftE
                       sampleRotIrightE sampleRotJLTSZleftE sampleRotJLTSZrightE
                       sample_shapesComplete 50 sampleRestingGame
                       sampleRestingGame_ok)
                (mkPiece 0 0 6 22) eq_refl eq_refl)
      as [(g' & Hg' & Hok) | (Hout & _)].
    + exists g'. split; [exact Hg'|].
      vm_compute in Hg'. injection Hg' as Hg'. rewrite <- Hg'.
      split; [reflexivity|]. split; [reflexivity|].
      rewrite Hg'. exact Hok.
    + vm_compute in Hout. discriminate Hout.
  - destruct (proj2 (applyGravity_finishLineClear_keep_game sampleBlockCoords
                       sampleBLOCK_I sampleGravityAtLevel sampleRotIleftE
                       sampleRotIrightE sampleRotJLTSZleftE sampleRotJLTSZrightE
                       sample_shapesComplete 50 samplePendingGame
                       samplePendingGame_ok))
      as [(g' & Hg' & Hok & Hl) | (Hout & _)].
    + exists g'. split; [exact Hg'|].
      split; [|split; [exact Hok|exact Hl]].
      vm_compute in Hg'. injection Hg' as Hg'. rewrite <- Hg'. reflexivity.
    + vm_compute in Hout. discriminate Hout.
Defined.

Lemma createInitialState_starts_game_witness :
  nth_error sampleQueue 0 = Some 5%nat /\
  Forall (fun t => (t < length sampleBlockCoords)%nat) sampleQueue /\
  createInitialState sampleBlockCoords sampleGravityAtLevel 50 0 sampleQueue
  = Ok sampleGame /\
  okOr (fun g =>
          gameOk sampleBlockCoords g /\ linesBeingCleared g = None /\
          gGrid g = createEmptyGrid /\ pieceQueue g = sampleQueue /\
          ((gameOver g = true /\ gBlock g = None) \/
           (gameOver g = false /\ gBlock g = Some (mkPiece 5 0 3 2) /\
            gNext g = nth_error sampleQueue (pieceQueueIndex g) /\
            pieceQueueIndex g
            = (if (length sampleQueue <=? 1)%nat then 0 else 1)%nat)))
       (50 < gameFuel sampleBlockCoords sampleRotIleftE sampleRotIrightE
               sampleRotJLTSZleftE sampleRotJLTSZrightE 0)%nat
       (createInitialState sampleBlockCoords sampleGravityAtLevel 50 0 sampleQueue).
Proof.
  assert (H2 : Forall (fun t => (t < length sampleBlockCoords)%nat) sampleQueue)
    by (repeat constructor; cbn; lia).
  split; [reflexivity|]. split; [exact H2|]. split; [vm_compute; reflexivity|].
  exact (createInitialState_starts_game sampleBlockCoords sampleGravityAtLevel
           sampleRotIleftE sampleRotIrightE sampleRotJLTSZleftE sampleRotJLTSZrightE
           sample_shapesComplete 50 0 sampleQueue 5%nat eq_refl H2).
Defined.

Lemma hardDrop_as_simulated_witness :
  length (gGrid (sampleLineGameAt 6)) = 24%nat /\
  freePiece sampleBlockCoords (gGrid (sampleLineGameAt 6)) (mkPiece 0 0 6 2) /\
  calculateGhostPosition sampleBlockCoords 50 (mkPiece 0 0 6 2)
    (gGrid (sampleLineGameAt 6)) = Ok 22 /\
  exists g1 g2 : Game,
    hardDrop sampleBlockCoords sampleBLOCK_I sampleGravityAtLevel 50
      (sampleLineGameAt 6) = Ok g1 /\
    finishLineClear sampleBlockCoords 50 g1 = Ok g2 /\
    lines g1 - lines (sampleLineGameAt 6) = 1 /\
    exists h : Z,
      lockAndClear sampleBlockCoords (gGrid (sampleLineGameAt 6)) (mkPiece 0 0 6 22)
      = Ok (gGrid g2, lines g1 - lines (sampleLineGameAt 6), h) /\
      lines g2 = lines g1.
Proof.
  assert (H4 : (rotation (mkPiece 0 0 6 2) < 4)%nat) by (cbn; lia).
  split; [reflexivity|]. split; [reflexivity|]. split; [vm_compute; reflexivity|].
  eexists. eexists.
  split; [vm_compute; reflexivity|]. split; [vm_compute; reflexivity|].
  split; [reflexivity|].
  refine (hardDrop_as_simulated sampleBlockCoords sampleBLOCK_I sampleGravityAtLevel
            50 (sampleLineGameAt 6) _ _ (mkPiece 0 0 6 2) 22
            eq_refl eq_refl eq_refl H4 eq_refl _ _ _);
    vm_compute; reflexivity.
Defined.

Lemma findBestMove_path_reaches_target_witness :
  gameOk sampleBlockCoords sampleGame /\
  linesBeingCleared sampleGame = None /\
  exists (acts acts' : list Action) (t : Piece),
    findBestMove sampleBlockCoords sampleBLOCK_I sampleRotIleft sampleRotIright
      sampleRotJLTSZleft sampleRotJLTSZright 2000 (aiView sampleGame) "survival"
      BASE_SURVIVAL_WEIGHTS = Ok (mkMove acts (Some t)) /\
    acts = acts' ++ [hardD] /\
    collidesWithGrid sampleBlockCoords (gGrid sampleGame) t 0 1 0 = Ok true /\
    exists N : nat, forall fuel' : nat, (N <= fuel')%nat ->
      exists g' : Game,
        replay sampleBlockCoords sampleBLOCK_I sampleBLOCK_O sampleGravityAtLevel
          sampleRotIleftE sampleRotIrightE sampleRotJLTSZleftE sampleRotJLTSZrightE
          fuel' acts' sampleGame = Ok g' /\
        gBlock g' = Some t /\ gGrid g' = gGrid sampleGame.
Proof.
  split; [exact sampleGame_ok|]. split; [reflexivity|].
  assert (Hrun : exists (acts : list Action) (t : Piece),
             findBestMove sampleBlockCoords sampleBLOCK_I sampleRotIleft
               sampleRotIright sampleRotJLTSZleft sampleRotJLTSZright 2000
               (aiView sampleGame) "survival" BASE_SURVIVAL_WEIGHTS
             = Ok (mkMove acts (Some t))).
  { vm_compute. eexists. eexists. reflexivity. }
  destruct Hrun as (acts & t & Hrun).
  destruct (findBestMove_path_reaches_target sampleBlockCoords sampleBLOCK_I
              sampleRotIleft sampleRotIright sampleRotJLTSZleft sampleRotJLTSZright
              sampleBLOCK_O sampleGravityAtLevel sampleRotIleftE sampleRotIrightE
              sampleRotJLTSZleftE sampleRotJLTSZrightE sample_shapesComplete
              sample_kicksCompleteE sample_tablesAgree 2000 sampleGame "survival"
              BASE_SURVIVAL_WEIGHTS acts t sampleGame_ok eq_refl Hrun)
    as (acts' & Hacts & Hrest & N & HN).
  exists acts, acts', t. split; [exact Hrun|]. split; [exact Hacts|].
  split; [exact Hrest|]. exists N. intros fuel' Hfuel.
  destruct (HN fuel' Hfuel) as (g' & Hreplay & _ & Hb & Hg & _).
  exists g'. split; [exact Hreplay|]. split; [exact Hb|exact Hg].
Defined.

Lemma findBestMove_plan_makes_scored_board_witness :
  gameOk sampleBlockCoords (sampleLineGameAt 3) /\
  linesBeingCleared (sampleLineGameAt 3) = None /\
  exists (acts : list Action) (t : Piece),
    findBestMove sampleBlockCoords sampleBLOCK_I sampleRotIleft sampleRotIright
      sampleRotJLTSZleft sampleRotJLTSZright 2000 (aiView (sampleLineGameAt 3))
      "survival" BASE_SURVIVAL_WEIGHTS = Ok (mkMove acts (Some t)) /\
    exists N : nat, forall fuel' : nat, (N <= fuel')%nat ->
      exists (g1 g2 : Game) (h : Z),
        replay sampleBlockCoords sampleBLOCK_I sampleBLOCK_O sampleGravityAtLevel
          sampleRotIleftE sampleRotIrightE sampleRotJLTSZleftE sampleRotJLTSZrightE
          fuel' acts (sampleLineGameAt 3) = Ok g1 /\
        finishLineClear sampleBlockCoords fuel' g1 = Ok g2 /\
        lockAndClear sampleBlockCoords (gGrid (sampleLineGameAt 3)) t
        = Ok (gGrid g2, lines g2 - lines (sampleLineGameAt 3), h).
Proof.
  split; [exact (proj1 sampleLineGame_ok)|]. split; [reflexivity|].
  assert (Hrun : exists (acts : list Action) (t : Piece),
             findBestMove sampleBlockCoords sampleBLOCK_I sampleRotIleft
               sampleRotIright sampleRotJLTSZleft sampleRotJLTSZright 2000
               (aiView (sampleLineGameAt 3)) "survival" BASE_SURVIVAL_WEIGHTS
             = Ok (mkMove acts (Some t))).
  { vm_compute. eexists. eexists. reflexivity. }
  destruct Hrun as (acts & t & Hrun).
  destruct (findBestMove_plan_makes_scored_board sampleBlockCoords sampleBLOCK_I
              sampleRotIleft sampleRotIright sampleRotJLTSZleft sampleRotJLTSZright
              sampleBLOCK_O sampleGravityAtLevel sampleRotIleftE sampleRotIrightE
              sampleRotJLTSZleftE sampleRotJLTSZrightE sample_shapesComplete
              sample_kicksCompleteE sample_tablesAgree 2000 (sampleLineGameAt 3)
              "survival" BASE_SURVIVAL_WEIGHTS acts t (proj1 sampleLineGame_ok)
              eq_refl Hrun) as (N & HN).
  exists acts, t. split; [exact Hrun|]. exists N. intros fuel' Hfuel.
  destruct (HN fuel' Hfuel) as (g1 & g2 & h & H1 & H2 & H3 & _).
  exists g1, g2, h. split; [exact H1|]. split; [exact H2|exact H3].
Defined.

Lemma findBestMove_target_is_best_witness :
  effectiveStrategy (grid emptyState) "survival" = Ok "survival"%string /\
  Block emptyState = Some spawnedT /\
  exists mv : Move,
    findBestMove sampleBlockCoords sampleBLOCK_I sampleRotIleft sampleRotIright
      sampleRotJLTSZleft sampleRotJLTSZright 2000 emptyState "survival"
      BASE_SURVIVAL_WEIGHTS = Ok mv /\
    exists best : jsnum,
      forall (acts : list Action) (q : Piece) (sc : jsnum),
        tracks sampleBlockCoords sampleBLOCK_I sampleRotIleft sampleRotIright
          sampleRotJLTSZleft sampleRotJLTSZright (grid emptyState) spawnedT acts q ->
        collidesWithGrid sampleBlockCoords (grid emptyState) q 0 1 0 = Ok true ->
        scoreCandidate sampleBlockCoords 2000 emptyState "survival"
          BASE_SURVIVAL_WEIGHTS q = Ok sc ->
        jslt sc best = false.
Proof.
  split; [reflexivity|]. split; [reflexivity|].
  assert (Hrun : exists mv : Move,
             findBestMove sampleBlockCoords sampleBLOCK_I sampleRotIleft
               sampleRotIright sampleRotJLTSZleft sampleRotJLTSZright 2000
               emptyState "survival" BASE_SURVIVAL_WEIGHTS = Ok mv).
  { vm_compute. eexists. reflexivity. }
  destruct Hrun as (mv & Hrun). exists mv. split; [exact Hrun|].
  destruct (findBestMove_target_is_best sampleBlockCoords sampleBLOCK_I
              sampleRotIleft sampleRotIright sampleRotJLTSZleft sampleRotJLTSZright
              2000 emptyState "survival" "survival" BASE_SURVIVAL_WEIGHTS spawnedT mv
              eq_refl eq_refl Hrun) as (best & _ & Hbest).
  exists best. exact Hbest.
Defined.

Lemma getColumnHeights_topmost_block_witness :
  length sampleHoleGrid = 24%nat /\
  exists heights : list Z,
    getColumnHeights sampleHoleGrid = Ok heights /\ length heights = 10%nat /\
    forall c : Z, 0 <= c < COLS ->
      0 <= hget heights c <= GRID_HEIGHT /\
      (forall r, 0 <= r < GRID_HEIGHT - hget heights c ->
         gridCell sampleHoleGrid r c = Ok false) /\
      (0 < hget heights c ->
         gridCell sampleHoleGrid (GRID_HEIGHT - hget heights c) c = Ok true).
Proof.
  split; [reflexivity|].
  exact (getColumnHeights_topmost_block sampleHoleGrid eq_refl).
Defined.

Lemma getHoles_is_height_less_blocks_witness :
  length sampleHoleGrid = 24%nat /\
  filledCells sampleHoleGrid = 26 /\
  exists (heights : list Z) (holes : Z),
    getColumnHeights sampleHoleGrid = Ok heights /\
    getHoles sampleHoleGrid = Ok holes /\
    holes = getAggregateHeight heights - filledCells sampleHoleGrid /\
    0 <= holes.
Proof.
  split; [reflexivity|]. split; [reflexivity|].
  exact (getHoles_is_height_less_blocks sampleHoleGrid eq_refl).
Defined.

Lemma full_rows_never_stay_witness :
  gameOk sampleBlockCoords sampleGame /\
  gameOk sampleBlockCoords sampleRestingGame /\
  gameOk sampleBlockCoords samplePendingGame /\
  (forall row, In row (gGrid sampleGame) -> In 0%nat row) /\
  (forall row, In row (gGrid sampleRestingGame) -> In 0%nat row) /\
  (exists g' : Game,
     handleAiAction sampleBlockCoords sampleBLOCK_I sampleBLOCK_O
       sampleGravityAtLevel sampleRotIleftE sampleRotIrightE sampleRotJLTSZleftE
       sampleRotJLTSZrightE 50 hardD sampleGame = Ok g' /\
     gGrid g' <> gGrid sampleGame /\ linesBeingCleared g' = None /\
     forall row, In row (gGrid g') -> In 0%nat row) /\
  (exists g' : Game,
     handleAiAction sampleBlockCoords sampleBLOCK_I sampleBLOCK_O
       sampleGravityAtLevel sampleRotIleftE sampleRotIrightE sampleRotJLTSZleftE
       sampleRotJLTSZrightE 50 hardD sampleRestingGame = Ok g' /\
     linesBeingCleared g' = Some [23%nat] /\ In 23%nat [23%nat] /\
     nth_error (gGrid g') 23 = Some [1; 1; 1; 1; 1; 1; 1; 1; 1; 1]%nat) /\
  (exists g' : Game,
     finishLineClear sampleBlockCoords 50 samplePendingGame = Ok g' /\
     gGrid g' <> gGrid samplePendingGame /\ linesBeingCleared g' = None /\
     forall row, In row (gGrid g') -> In 0%nat row).
Proof.
  assert (Hline : forall row, In row (gGrid sampleRestingGame) -> In 0%nat row).
  { intros row Hin. cbn in Hin.
    repeat (destruct Hin as [<-|Hin]; [cbn; tauto|]). destruct Hin. }
  split; [exact sampleGame_ok|]. split; [exact sampleRestingGame_ok|].
  split; [exact samplePendingGame_ok|]. split; [exact createEmptyGrid_open|].
  split; [exact Hline|]. split; [|split].
  - assert (Hrun : exists g' : Game,
               handleAiAction sampleBlockCoords sampleBLOCK_I sampleBLOCK_O
                 sampleGravityAtLevel sampleRotIleftE sampleRotIrightE
                 sampleRotJLTSZleftE sampleRotJLTSZrightE 50 hardD sampleGame
               = Ok g' /\
               gGrid g' <> gGrid sampleGame /\ linesBeingCleared g' = None).
    { vm_compute. eexists. split; [reflexivity|]. split; [discriminate|reflexivity]. }
    destruct Hrun as (g' & Hrun & Hne & Hl').
    exists g'. split; [exact Hrun|]. split; [exact Hne|]. split; [exact Hl'|].
    exact (proj1 (full_rows_never_stay sampleBlockCoords sampleBLOCK_I sampleBLOCK_O
                    sampleGravityAtLevel sampleRotIleftE sampleRotIrightE
                    sampleRotJLTSZleftE sampleRotJLTSZrightE sample_shapesComplete
                    50 sampleGame sampleGame_ok (fun _ => createEmptyGrid_open))
             hardD spawnedT g' eq_refl eq_refl Hrun Hl').
  - vm_compute. eexists. split; [reflexivity|]. split; [reflexivity|].
    split; [left; reflexivity|reflexivity].
  - assert (Hrun : exists g' : Game,
               finishLineClear sampleBlockCoords 50 samplePendingGame = Ok g' /\
               gGrid g' <> gGrid samplePendingGame).
    { vm_compute. eexists. split; [reflexivity|discriminate]. }
    destruct Hrun as (g' & Hrun & Hne).
    exists g'. split; [exact Hrun|]. split; [exact Hne|].
    exact (proj2 (proj2 (full_rows_never_stay sampleBlockCoords sampleBLOCK_I
                           sampleBLOCK_O sampleGravityAtLevel sampleRotIleftE
                           sampleRotIrightE sampleRotJLTSZleftE sampleRotJLTSZrightE
                           sample_shapesComplete 50 samplePendingGame
                           samplePendingGame_ok
                           (fun H : linesBeingCleared samplePendingGame = None =>
                              match H in (_ = o)
                                    return (match o with
                                            | None => _
                                            | Some _ => True
                                            end)
                              with eq_refl => I end)))
             g' Hrun).
Defined.

Lemma actions_agree_with_game_witness :
  gBlock sampleGame = Some spawnedT /\
  exists (arr : list (Action * option Piece)) (q : Piece),
    actions sampleBlockCoords sampleBLOCK_I sampleRotIleft sampleRotIright
      sampleRotJLTSZleft sampleRotJLTSZright (gGrid sampleGame) spawnedT = Ok arr /\
    In (rotateR, Some q) arr /\
    handleAiAction sampleBlockCoords sampleBLOCK_I sampleBLOCK_O sampleGravityAtLevel
      sampleRotIleftE sampleRotIrightE sampleRotJLTSZleftE sampleRotJLTSZrightE
      50 rotateR sampleGame
    = updateGhostPiece sampleBlockCoords 50 (setBlock sampleGame (Some q)).
Proof.
  split; [reflexivity|].
  assert (Harr : exists (arr : list (Action * option Piece)) (q : Piece),
             actions sampleBlockCoords sampleBLOCK_I sampleRotIleft sampleRotIright
               sampleRotJLTSZleft sampleRotJLTSZright (gGrid sampleGame) spawnedT
             = Ok arr /\
             In (rotateR, Some q) arr).
  { vm_compute. eexists. eexists. split; [reflexivity|].
    do 3 right. left. reflexivity. }
  destruct Harr as (arr & q & H1 & H2).
  exists arr, q. split; [exact H1|]. split; [exact H2|].
  exact (actions_agree_with_game sampleBlockCoords sampleBLOCK_I sampleRotIleft
           sampleRotIright sampleRotJLTSZleft sampleRotJLTSZright sampleBLOCK_O
           sampleGravityAtLevel sampleRotIleftE sampleRotIrightE sampleRotJLTSZleftE
           sampleRotJLTSZrightE 50 sampleGame spawnedT arr rotateR (Some q)
           sample_tablesAgree eq_refl H1 H2).
Defined.

Lemma findBestMove_path_is_shortest_witness :
  Block emptyState = Some spawnedT /\
  exists (acts acts' : list Action) (t : Piece),
    findBestMove sampleBlockCoords sampleBLOCK_I sampleRotIleft sampleRotIright
      sampleRotJLTSZleft sampleRotJLTSZright 2000 emptyState "survival"
      BASE_SURVIVAL_WEIGHTS = Ok (mkMove acts (Some t)) /\
    acts = acts' ++ [hardD] /\
    tracks sampleBlockCoords sampleBLOCK_I sampleRotIleft sampleRotIright
      sampleRotJLTSZleft sampleRotJLTSZright (grid emptyState) spawnedT acts' t /\
    forall acts'' : list Action,
      tracks sampleBlockCoords sampleBLOCK_I sampleRotIleft sampleRotIright
        sampleRotJLTSZleft sampleRotJLTSZright (grid emptyState) spawnedT acts'' t ->
      (length acts' <= length acts'')%nat.
Proof.
  split; [reflexivity|].
  assert (Hrun : exists (acts : list Action) (t : Piece),
             findBestMove sampleBlockCoords sampleBLOCK_I sampleRotIleft
               sampleRotIright sampleRotJLTSZleft sampleRotJLTSZright 2000
               emptyState "survival" BASE_SURVIVAL_WEIGHTS
             = Ok (mkMove acts (Some t))).
  { vm_compute. eexists. eexists. reflexivity. }
  destruct Hrun as (acts & t & Hrun).
  destruct (findBestMove_path_is_shortest sampleBlockCoords sampleBLOCK_I
              sampleRotIleft sampleRotIright sampleRotJLTSZleft sampleRotJLTSZright
              2000 emptyState "survival" BASE_SURVIVAL_WEIGHTS spawnedT acts t
              eq_refl Hrun) as (acts' & Hacts & Htr & Hshort).
  exists acts, acts', t. split; [exact Hrun|]. split; [exact Hacts|].
  split; [exact Htr|exact Hshort].
Defined.

Lemma updateGame_runs_plan_in_order_witness :
  counting samplePlayer /\
  executing samplePlayer /\
  exists game' : GameInstance,
    updateGame sampleBlockCoords sampleBLOCK_I sampleRotIleft sampleRotIright
      sampleRotJLTSZleft sampleRotJLTSZright sampleBLOCK_O sampleGravityAtLevel
      sampleRotIleftE sampleRotIrightE sampleRotJLTSZleftE sampleRotJLTSZrightE
      50 false true samplePlayer = Ok game' /\
    handleAiAction sampleBlockCoords sampleBLOCK_I sampleBLOCK_O sampleGravityAtLevel
      sampleRotIleftE sampleRotIrightE sampleRotJLTSZleftE sampleRotJLTSZrightE
      50 moveL (gstate samplePlayer) = Ok (gstate game') /\
    pending game' = [moveL; softD; hardD].
Proof.
  assert (Hc : counting samplePlayer) by (intros H; discriminate H).
  assert (He : executing samplePlayer) by (repeat split).
  split; [exact Hc|]. split; [exact He|].
  assert (Htick : exists game' : GameInstance,
             updateGame sampleBlockCoords sampleBLOCK_I sampleRotIleft
               sampleRotIright sampleRotJLTSZleft sampleRotJLTSZright sampleBLOCK_O
               sampleGravityAtLevel sampleRotIleftE sampleRotIrightE
               sampleRotJLTSZleftE sampleRotJLTSZrightE 50 false true samplePlayer
             = Ok game').
  { vm_compute. eexists. reflexivity. }
  destruct Htick as (game' & Htick). exists game'. split; [exact Htick|].
  exact (proj2 (proj1 (updateGame_runs_plan_in_order sampleBlockCoords sampleBLOCK_I
                         sampleRotIleft sampleRotIright sampleRotJLTSZleft
                         sampleRotJLTSZright sampleBLOCK_O sampleGravityAtLevel
                         sampleRotIleftE sampleRotIrightE sampleRotJLTSZleftE
                         sampleRotJLTSZrightE 50 samplePlayer Hc)
                      false true game' He Htick)).
Defined.

Lemma game_counters_never_decrease_witness :
  0 <= softDrop sampleRestingGame /\
  -1 <= level sampleRestingGame /\
  exists g' : Game,
    handleAiAction sampleBlockCoords sampleBLOCK_I sampleBLOCK_O sampleGravityAtLevel
      sampleRotIleftE sampleRotIrightE sampleRotJLTSZleftE sampleRotJLTSZrightE
      50 hardD sampleRestingGame = Ok g' /\
    score g' = 40 /\ lines g' = 1 /\
    lines sampleRestingGame <= lines g' /\ level sampleRestingGame <= level g' /\
    0 <= softDrop g' /\ score sampleRestingGame <= score g' /\ -1 <= level g'.
Proof.
  assert (H0 : 0 <= softDrop sampleRestingGame) by (cbn; lia).
  assert (H1 : -1 <= level sampleRestingGame) by (cbn; lia).
  split; [exact H0|]. split; [exact H1|].
  assert (Hrun : exists g' : Game,
             handleAiAction sampleBlockCoords sampleBLOCK_I sampleBLOCK_O
               sampleGravityAtLevel sampleRotIleftE sampleRotIrightE
               sampleRotJLTSZleftE sampleRotJLTSZrightE 50 hardD sampleRestingGame
             = Ok g' /\ score g' = 40 /\ lines g' = 1).
  { vm_compute. eexists. split; [reflexivity|]. split; reflexivity. }
  destruct Hrun as (g' & Hrun & Hsc & Hln). exists g'. split; [exact Hrun|].
  split; [exact Hsc|]. split; [exact Hln|].
  destruct (game_counters_never_decrease sampleBlockCoords sampleBLOCK_I
              sampleBLOCK_O sampleGravityAtLevel sampleRotIleftE sampleRotIrightE
              sampleRotJLTSZleftE sampleRotJLTSZrightE 50 sampleRestingGame g' H0
              (or_introl (ex_intro _ hardD Hrun)))
    as (Hl & Hv & Hs & Hscore).
  split; [exact Hl|]. split; [exact Hv|]. split; [exact Hs|]. exact (Hscore H1).
Defined.

Lemma newBaseline_is_best_performer_witness :
  Forall (fun g => 0 <= tScore g) sampleTrainees /\
  (exists g, In g sampleTrainees /\ 0 < tLines g) /\
  newBaseline sampleTrainees BASE_WELL_WEIGHTS
  = setWeight BASE_WELL_WEIGHTS "holes" 5 /\
  exists best : Trainee,
    In best sampleTrainees /\ 0 < tLines best /\
    newBaseline sampleTrainees BASE_WELL_WEIGHTS = tWeights best /\
    forall g, In g sampleTrainees -> (performance g <= performance best)%Q.
Proof.
  assert (H1 : Forall (fun g => 0 <= tScore g) sampleTrainees)
    by (repeat constructor; cbn; lia).
  assert (H2 : exists g, In g sampleTrainees /\ 0 < tLines g).
  { exists (mkTrainee 1200 10 BASE_WELL_WEIGHTS). split; [right; left; reflexivity|].
    cbn. lia. }
  split; [exact H1|]. split; [exact H2|]. split; [vm_compute; reflexivity|].
  exact (proj2 (newBaseline_is_best_performer sampleTrainees BASE_WELL_WEIGHTS H1) H2).
Defined.
